(** * study-mate-ai: the retrieval pipeline, embedded and verified

    A shallow embedding of the server-side retrieval code:

    - [utils/textProcessing.ts]   the sentence chunker;
    - [services/openai.ts]        the retry wrapper, the embedding and the
                                  completion clients;
    - [services/pinecone.ts]      the remote-index vector store;
    - [services/database.ts]      the relational vector store;
    - the upload, chat and quiz routes
                                  the parts of the three flows that select a
                                  store, assemble the context and filter the
                                  generated quiz.

    JavaScript numbers that carry similarity scores and embeddings are IEEE
    binary64 values and are modelled by Rocq's primitive floats; lengths and
    the token estimate are exact rationals (a length divided by four is exact
    in binary64).  Strings are sequences of code units; the model covers the
    code units below 256. *)

From Stdlib Require Import Ascii String QArith Qround Lqa Floats.
From stdpp Require Import gmap strings list fin_maps sorting.

Set Warnings "-inexact-float,-register-all".
Set Default Proof Using "Type".

Open Scope string_scope.

(** ** JavaScript primitives used by the sources *)

Module JS.

(** [if (s)] on a string: the empty string is the only falsy one. *)
Definition truthy (s : string) : bool := negb (String.eqb s EmptyString).

(** ECMAScript [WhiteSpace] and [LineTerminator] among the code units
    below 256: TAB, LF, VT, FF, CR, SP and NBSP. *)
Definition is_white_space (c : ascii) : bool :=
  let n := nat_of_ascii c in
  Nat.eqb n 9 || Nat.eqb n 10 || Nat.eqb n 11 || Nat.eqb n 12
  || Nat.eqb n 13 || Nat.eqb n 32 || Nat.eqb n 160.

Fixpoint trimStart (s : string) : string :=
  match s with
  | EmptyString => EmptyString
  | String c r => if is_white_space c then trimStart r else s
  end.

Fixpoint trimEnd (s : string) : string :=
  match s with
  | EmptyString => EmptyString
  | String c r =>
      let r' := trimEnd r in
      if is_white_space c && String.eqb r' EmptyString then EmptyString
      else String c r'
  end.

(** [String.prototype.trim]. *)
Definition trim (s : string) : string := trimEnd (trimStart s).

(** The string starts with a character that is not white space. *)
Definition headed (s : string) : Prop :=
  match s with
  | EmptyString => False
  | String c _ => is_white_space c = false
  end.

(** [Array.prototype.join]. *)
Fixpoint join (sep : string) (l : list string) : string :=
  match l with
  | [] => EmptyString
  | [x] => x
  | x :: rest => x +:+ sep +:+ join sep rest
  end.

(** The character class [[.!?]]. *)
Definition is_terminal (c : ascii) : bool :=
  Ascii.eqb c "." || Ascii.eqb c "!" || Ascii.eqb c "?".

Definition starts_with_terminal (s : string) : bool :=
  match s with
  | EmptyString => false
  | String c _ => is_terminal c
  end.

(** [text.split(/[.!?]+/)]: the pieces between maximal runs of terminal
    punctuation; a run at either end leaves an empty piece there, and the
    empty text yields one empty piece. *)
Fixpoint split_terminals (s : string) : list string :=
  match s with
  | EmptyString => [EmptyString]
  | String c r =>
      let pieces := split_terminals r in
      if is_terminal c then
        if starts_with_terminal r then pieces else EmptyString :: pieces
      else
        match pieces with
        | p :: ps => String c p :: ps
        | [] => [String c EmptyString]
        end
  end.

(** [s.substring(0, n)]. *)
Fixpoint substring0 (n : nat) (s : string) : string :=
  match n, s with
  | S n', String c r => String c (substring0 n' r)
  | _, _ => EmptyString
  end.

Definition to_lower (c : ascii) : ascii :=
  let n := nat_of_ascii c in
  if Nat.leb 65 n && Nat.leb n 90 then ascii_of_nat (n + 32) else c.

Fixpoint prefix_ci (p s : string) : bool :=
  match p, s with
  | EmptyString, _ => true
  | String a p', String b s' => Ascii.eqb (to_lower a) (to_lower b) && prefix_ci p' s'
  | String _ _, EmptyString => false
  end.

(** [/p/i.test(s)] for a pattern [p] made of plain letters. *)
Fixpoint test_ci (p s : string) : bool :=
  prefix_ci p s ||
  match s with
  | EmptyString => false
  | String _ s' => test_ci p s'
  end.

End JS.

(** ** utils/textProcessing.ts *)

Module TextProcessing.

(** [a > b] on the exact values. *)
Definition Qgtb (a b : Q) : bool := negb (Qle_bool a b).

Definition qlen (s : string) : Q := inject_Z (Z.of_nat (String.length s)).

(** [text.split(/[.!?]+/).filter(s => s.trim().length > 0)] *)
Definition sentences_of (text : string) : list string :=
  List.filter (fun s => Nat.ltb 0 (String.length (JS.trim s)))
              (JS.split_terminals text).

Record LoopState := { chunks : list string; currentChunk : string }.

(** One iteration of the [for (const sentence of sentences)] loop. *)
Definition step (maxTokens : Q) (st : LoopState) (sentence : string) : LoopState :=
  let trimmedSentence := JS.trim sentence in
  if negb (JS.truthy trimmedSentence) then st
  else
    let estimatedTokens := (qlen (currentChunk st +:+ trimmedSentence) / 4)%Q in
    if Qgtb estimatedTokens maxTokens && JS.truthy (currentChunk st) then
      {| chunks := chunks st ++ [JS.trim (currentChunk st)];
         currentChunk := trimmedSentence |}
    else
      {| chunks := chunks st;
         currentChunk :=
           currentChunk st
           +:+ ((if JS.truthy (currentChunk st) then ". " else EmptyString) +:+ trimmedSentence) |}.

Definition chunk_sentences (sentences : list string) (maxTokens : Q) : list string :=
  let st := fold_left (step maxTokens) sentences {| chunks := []; currentChunk := EmptyString |} in
  if JS.truthy (JS.trim (currentChunk st))
  then chunks st ++ [JS.trim (currentChunk st)]
  else chunks st.

Definition splitTextIntoChunks (text : string) (maxTokens : Q) : list string :=
  chunk_sentences (sentences_of text) maxTokens.

(** The default [maxTokens = 500]. *)
Definition splitTextIntoChunks_default (text : string) : list string :=
  splitTextIntoChunks text 500.

(** A chunk that consists of one of the sentences. *)
Definition one_sentence (sentences : list string) (c : string) : Prop :=
  exists s, In s sentences /\ c = JS.trim s.

(** A chunk that consists of one of the sentences whose own estimate is over
    the limit. *)
Definition single_long_sentence (sentences : list string) (maxTokens : Q) (c : string) : Prop :=
  exists s, In s sentences /\ c = JS.trim s /\ (maxTokens < qlen (JS.trim s) / 4)%Q.

(** The bound of the chunker as the specification words it. *)
Definition within_limit (text : string) (maxTokens : Q) (chunk : string) : Prop :=
  (qlen chunk / 4 <= maxTokens)%Q \/ single_long_sentence (sentences_of text) maxTokens chunk.

(** The bound the loop enforces: the estimate is taken before the
    two-character joiner [". "] is added. *)
Definition bounded (maxTokens : Q) (c : string) : Prop :=
  (qlen c / 4 <= maxTokens + (1 # 2))%Q.

Definition chunk_ok (sentences : list string) (maxTokens : Q) (c : string) : Prop :=
  bounded maxTokens c \/ single_long_sentence sentences maxTokens c.

Definition within_limit_joiner (text : string) (maxTokens : Q) (chunk : string) : Prop :=
  chunk_ok (sentences_of text) maxTokens chunk.

(** The loop invariant: the running chunk is empty, one sentence, or within
    the joiner bound, and every chunk already pushed is within it too. *)
Definition current_ok (sentences : list string) (maxTokens : Q) (c : string) : Prop :=
  c = EmptyString \/ one_sentence sentences c \/ bounded maxTokens c.

Definition loop_invariant (sentences : list string) (maxTokens : Q) (st : LoopState) : Prop :=
  Forall (chunk_ok sentences maxTokens) (chunks st) /\ current_ok sentences maxTokens (currentChunk st).

End TextProcessing.

(** ** services/openai.ts: the shared retry wrapper *)

Module OpenAI.

(** What the [catch] block of [withRetries] reads off a thrown value. *)
Record JsError := {
  err_status : option Z;                (* err.status *)
  err_response_status : option Z;       (* err.response.status *)
  err_code : option string;             (* err.code *)
  err_error_code : option string;       (* err.error.code *)
  err_response_code : option string;    (* err.response.data.error.code *)
  err_message : option string;          (* err.message *)
  err_error_message : option string;    (* err.error.message *)
  err_retry_after : option Q            (* Number(header 'retry-after'), when
                                           the header is present and numeric *)
}.

(** [new Error(msg)]. *)
Definition Error (msg : string) : JsError :=
  {| err_status := None; err_response_status := None; err_code := None;
     err_error_code := None; err_response_code := None;
     err_message := Some msg; err_error_message := None;
     err_retry_after := None |}.

(** [a || b] on optional numbers and strings: the first truthy operand. *)
Definition or_num (a b : option Z) : option Z :=
  match a with
  | Some z => if Z.eqb z 0 then b else a
  | None => b
  end.

Definition or_str (a b : option string) : option string :=
  match a with
  | Some s => if JS.truthy s then a else b
  | None => b
  end.

Definition status_of (err : JsError) : option Z :=
  or_num (err_status err) (err_response_status err).

Definition code_of (err : JsError) : option string :=
  or_str (or_str (err_code err) (err_error_code err)) (err_response_code err).

Definition message_of (err : JsError) : string :=
  default "Unknown error"
          (or_str (or_str (err_message err) (err_error_message err)) (Some "Unknown error")).

(** [code === 'insufficient_quota' || /quota/i.test(message)] *)
Definition is_quota (err : JsError) : bool :=
  match code_of err with
  | Some c => String.eqb c "insufficient_quota"
  | None => false
  end
  || JS.test_ci "quota" (message_of err).

(** The error thrown for an account-quota failure. *)
Definition QuotaExceededError : JsError :=
  {| err_status := Some 429%Z; err_response_status := None;
     err_code := Some "insufficient_quota";
     err_error_code := None; err_response_code := None;
     err_message := Some "OpenAI quota exceeded"; err_error_message := None;
     err_retry_after := None |}.

Definition status_is_429 (err : JsError) : bool :=
  match status_of err with
  | Some z => Z.eqb z 429
  | None => false
  end.

Definition status_is_5xx (err : JsError) : bool :=
  match status_of err with
  | Some z => Z.leb 500 z && Z.ltb z 600
  | None => false
  end.

(** A provider operation [fn : () => Promise<T>] seen from its caller:
    [fn k] is what the [k]-th invocation (from 0) settles to. *)
Definition operation (T : Type) : Type := nat -> JsError + T.

Record RetryOptions := { retries : option nat; baseDelayMs : option Q }.

(** [options?.retries ?? 5] and [options?.baseDelayMs ?? 500] *)
Definition maxRetries_of (options : option RetryOptions) : nat :=
  default 5 (options ≫= retries).

Definition baseDelayMs_of (options : option RetryOptions) : Q :=
  default 500%Q (options ≫= baseDelayMs).

(** One run of the wrapper: how it settled, how many times it invoked the
    operation, and the delays it slept, in milliseconds. *)
Record Run (T : Type) := {
  outcome : JsError + T;
  invocations : nat;
  delays : list Q
}.
Arguments outcome {T}.
Arguments invocations {T}.
Arguments delays {T}.

Definition backoff (base : Q) (attempt : nat) : Q :=
  (base * inject_Z (2 ^ Z.of_nat attempt))%Q.

Definition rate_limit_delay (err : JsError) (base : Q) (attempt : nat) : Q :=
  match err_retry_after err with
  | Some sec => if Qeq_bool sec 0 then backoff base attempt else (sec * 1000)%Q
  | None => backoff base attempt
  end.

(** The [while (true)] loop.  [attempt] is the loop variable of the source
    and [remaining] is [maxRetries - attempt], so that the source's test
    [attempt < maxRetries] is [remaining <> 0]. *)
Fixpoint retry_loop {T} (fn : operation T) (base : Q)
         (remaining attempt : nat) (slept : list Q) : Run T :=
  match fn attempt with
  | inr v => {| outcome := inr v; invocations := S attempt; delays := slept |}
  | inl err =>
      let throw e := {| outcome := inl e; invocations := S attempt; delays := slept |} in
      if is_quota err then throw QuotaExceededError
      else
        match remaining with
        | S remaining' =>
            if status_is_429 err then
              retry_loop fn base remaining' (S attempt)
                         (slept ++ [rate_limit_delay err base attempt])
            else if status_is_5xx err then
              retry_loop fn base remaining' (S attempt)
                         (slept ++ [backoff base attempt])
            else throw err
        | O => throw err
        end
  end.

Definition withRetries {T} (fn : operation T) (options : option RetryOptions) : Run T :=
  retry_loop fn (baseDelayMs_of options) (maxRetries_of options) 0 [].

(** A failure with HTTP status 429 that is not a quota failure. *)
Definition rate_limited (err : JsError) : Prop :=
  status_of err = Some 429%Z /\ is_quota err = false.

(** ** services/openai.ts: the embedding and the completion clients *)

Record EmbeddingItem := { item_embedding : list float }.

(** The provider's reply to [embeddings.create]. *)
Record CreateEmbeddingResponse := {
  data : list EmbeddingItem;
  usage_total_tokens : option nat       (* response.usage?.total_tokens *)
}.

Record EmbeddingResponse := { embedding : list float; tokens : nat }.

(** A client call: what the function settles to and how many times it
    invoked the provider. *)
Record Call (T : Type) := { settled : JsError + T; provider_calls : nat }.
Arguments settled {T}.
Arguments provider_calls {T}.

(** [err.message || fallback], the message of the error rethrown by the
    outer [catch] of each client function. *)
Definition rethrow (err : JsError) (fallback : string) : JsError :=
  Error (default fallback (or_str (err_message err) (Some fallback))).

(** [Math.round(totalTokens / n)] for [n > 0]. *)
Definition round_div (totalTokens n : nat) : nat := (2 * totalTokens + n) / (2 * n).

Definition is_valid_text (text : string) : bool :=
  Nat.ltb 0 (String.length (JS.trim text)).

Section Provider.

(** [openai.embeddings.create({ model, input })] for a batch input. *)
Variable createEmbeddings : list string -> operation CreateEmbeddingResponse.

Definition generateEmbeddings (texts : list string) : Call (list EmbeddingResponse) :=
  match texts with
  | [] => {| settled := inr []; provider_calls := 0 |}
  | _ =>
      let validTexts := List.filter is_valid_text texts in
      match validTexts with
      | [] => {| settled := inr []; provider_calls := 0 |}
      | _ =>
          let run := withRetries (createEmbeddings validTexts) None in
          match outcome run with
          | inr response =>
              let totalTokens := default 0 (usage_total_tokens response) in
              let perTextTokens :=
                if Nat.ltb 0 (List.length validTexts)
                then round_div totalTokens (List.length validTexts) else 0 in
              {| settled :=
                   inr (map (fun item => {| embedding := item_embedding item;
                                            tokens := perTextTokens |})
                            (data response));
                 provider_calls := invocations run |}
          | inl err =>
              {| settled := inl (rethrow err "Failed to generate embeddings");
                 provider_calls := invocations run |}
          end
      end
  end.

(** The provider's side of the batch call: one vector per input, the
    [i]-th for the [i]-th input, [embed_of] being what its model computes
    for one text. *)
Definition aligned (embed_of : string -> list float) (inputs : list string)
           (response : CreateEmbeddingResponse) : Prop :=
  map item_embedding (data response) = map embed_of inputs.

Inductive Role := system | user.

Record Message := { role : Role; content : string }.

Record ChatRequest := {
  messages : list Message;
  max_tokens : nat;
  temperature : float
}.

(** [response.choices[0]?.message?.content] *)
Record ChatCompletion := { first_choice_content : option string }.

(** [openai.chat.completions.create(request)] *)
Variable createChatCompletion : ChatRequest -> operation ChatCompletion.

Definition newline : string := String (ascii_of_nat 10) EmptyString.

(** The [messages] array that [generateChatCompletion] builds. *)
Definition chat_messages (systemPrompt userQuery : string) (context : option string)
  : list Message :=
  [ {| role := system; content := systemPrompt |} ] ++
  match context with
  | Some c =>
      if JS.truthy c then
        [ {| role := user;
             content := "Context information:" +:+ newline +:+ c +:+ newline +:+ newline
                        +:+ "Question: " +:+ userQuery |} ]
      else [ {| role := user; content := userQuery |} ]
  | None => [ {| role := user; content := userQuery |} ]
  end.

Definition chat_request (systemPrompt userQuery : string) (context : option string)
  : ChatRequest :=
  {| messages := chat_messages systemPrompt userQuery context;
     max_tokens := 1000;
     temperature := 0.7%float |}.

Definition generateChatCompletion (systemPrompt userQuery : string)
           (context : option string) : Call string :=
  let run := withRetries (createChatCompletion (chat_request systemPrompt userQuery context))
                         None in
  {| settled :=
       match outcome run with
       | inr response =>
           match first_choice_content response with
           | Some c =>
               if JS.truthy c then inr (JS.trim c)
               else inl (rethrow (Error "No response generated") "Failed to generate response")
           | None =>
               inl (rethrow (Error "No response generated") "Failed to generate response")
           end
       | inl err => inl (rethrow err "Failed to generate response")
       end;
     provider_calls := invocations run |}.

End Provider.

End OpenAI.

(** ** types/index.ts and the values shared by both vector stores *)

Module Types.

(** The objects handed to either store: [{ id, embedding, text, documentId }]. *)
Record EmbeddingRecord := {
  er_id : string;
  er_embedding : list float;
  er_text : string;
  er_documentId : string
}.

Record VectorSearchResult := {
  vr_id : string;
  vr_text : string;
  vr_score : float;
  vr_metadata : option (gmap string string)
}.

(** [process.env.NAME] used as a condition. *)
Definition env_truthy (env : gmap string string) (name : string) : bool :=
  match env !! name with
  | Some v => JS.truthy v
  | None => false
  end.

(** [x || 0] on a number: [NaN] and both zeros are falsy. *)
Definition or_zero (x : float) : float :=
  if PrimFloat.is_nan x || PrimFloat.is_zero x then 0%float else x.

(** [userId] used as a condition: an absent or empty owner is falsy. *)
Definition owner_filter (userId : option string) : option string :=
  match userId with
  | Some u => if JS.truthy u then Some u else None
  | None => None
  end.

End Types.

(** ** services/pinecone.ts: the remote-index variant *)

Module Pinecone.
Import Types OpenAI.

Record Vector := {
  id : string;
  values : list float;
  metadata : gmap string string
}.

(** What the index keeps under a record id. *)
Record Stored := {
  stored_values : list float;
  stored_metadata : gmap string string
}.

(** The module-level handle [index] together with the external index it
    points to. *)
Record State := {
  handle : bool;                    (* [index] is not null *)
  reachable : bool;                 (* requests to the index succeed *)
  records : gmap string Stored      (* the index content, keyed by record id *)
}.

Definition initializePinecone (env : gmap string string) (st : State) : JsError + State :=
  if env_truthy env "PINECONE_API_KEY"
  then inr {| handle := true; reachable := reachable st; records := records st |}
  else inl (Error "PINECONE_API_KEY is not configured").

(** [if (!index) await initializePinecone()] *)
Definition ensure_index (env : gmap string string) (st : State) : JsError + State :=
  if handle st then inr st else initializePinecone env st.

(** The external index: upsert by id. *)
Definition upsert (vectors : list Vector) (st : State) : option State :=
  if reachable st then
    Some {| handle := handle st; reachable := true;
            records :=
              foldl (fun m v => <[id v := {| stored_values := values v;
                                             stored_metadata := metadata v |}]> m)
                    (records st) vectors |}
  else None.

(** The record that [storeEmbeddings] builds for one chunk. *)
Definition to_vector (item : EmbeddingRecord) : Vector :=
  {| id := er_id item;
     values := er_embedding item;
     metadata := {[ "text" := er_text item; "documentId" := er_documentId item ]} |}.

Definition storeEmbeddings (env : gmap string string) (embeddings : list EmbeddingRecord)
           (st : State) : (JsError + unit) * State :=
  match ensure_index env st with
  | inl _ => (inl (Error "Failed to store embeddings"), st)
  | inr st1 =>
      match upsert (map to_vector embeddings) st1 with
      | Some st2 => (inr tt, st2)
      | None => (inl (Error "Failed to store embeddings"), st1)
      end
  end.

Record QueryRequest := {
  vector : list float;
  topK : nat;
  includeMetadata : bool;
  includeValues : bool;
  filter_eq : option (string * string)   (* [{ field: { $eq: value } }] *)
}.

Record Match := {
  match_id : string;
  match_score : float;
  match_metadata : option (gmap string string)
}.

(** A metadata equality filter keeps the records that carry the field with
    that value; a record without the field does not match. *)
Definition matches_filter (f : option (string * string)) (kv : string * Stored) : bool :=
  match f with
  | None => true
  | Some (field, value) =>
      match stored_metadata (snd kv) !! field with
      | Some x => String.eqb x value
      | None => false
      end
  end.

Definition ranks_before (a b : Match) : Prop :=
  PrimFloat.leb (match_score b) (match_score a) = true.

#[global] Instance ranks_before_dec a b : Decision (ranks_before a b).
Proof. unfold ranks_before. apply _. Defined.

Section Index.

(** The similarity metric the index was created with. *)
Variable metric : list float -> list float -> float.

Definition to_match (req : QueryRequest) (kv : string * Stored) : Match :=
  {| match_id := fst kv;
     match_score := metric (vector req) (stored_values (snd kv));
     match_metadata := if includeMetadata req then Some (stored_metadata (snd kv)) else None |}.

(** The external index: query by vector with an optional metadata equality
    filter; the [topK] best records by score, best first. *)
Definition query (req : QueryRequest) (st : State) : option (list Match) :=
  if reachable st then
    Some (take (topK req)
               (merge_sort ranks_before
                  (map (to_match req)
                       (List.filter (matches_filter (filter_eq req))
                                    (map_to_list (records st))))))
  else None.

Definition search_request (queryEmbedding : list float) (topK : nat)
           (userId : option string) : QueryRequest :=
  {| vector := queryEmbedding;
     topK := topK;
     includeMetadata := true;
     includeValues := false;
     filter_eq := match owner_filter userId with
                  | Some u => Some ("userId", u)
                  | None => None
                  end |}.

Definition to_result (m : Match) : VectorSearchResult :=
  {| vr_id := match_id m;
     vr_text := match match_metadata m ≫= (.!! "text") with
                | Some t => if JS.truthy t then t else EmptyString
                | None => EmptyString
                end;
     vr_score := or_zero (match_score m);
     vr_metadata := match_metadata m |}.

Definition searchSimilarEmbeddings (env : gmap string string) (queryEmbedding : list float)
           (topK : nat) (userId : option string) (st : State)
  : (JsError + list VectorSearchResult) * State :=
  match ensure_index env st with
  | inl _ => (inl (Error "Failed to search embeddings"), st)
  | inr st1 =>
      match query (search_request queryEmbedding topK userId) st1 with
      | Some matches => (inr (map to_result matches), st1)
      | None => (inl (Error "Failed to search embeddings"), st1)
      end
  end.

End Index.

(** The owner tag the index holds for a record id. *)
Definition owner_of (st : State) (record_id : string) : option string :=
  records st !! record_id ≫= fun r => stored_metadata r !! "userId".

End Pinecone.

(** ** services/database.ts: the relational variant *)

Module Database.
Import Types OpenAI.

(** Rows of [documents] and [chunks]; both tables are keyed by their
    primary key [id]. *)
Record DocumentRow := { name : string; userId : string }.

Record ChunkRow := {
  documentId : string;
  text : string;
  embedding : list float
}.

Record State := {
  available : bool;                       (* statements reach the database *)
  documents : gmap string DocumentRow;
  chunks : gmap string ChunkRow
}.

Definition to_row (item : EmbeddingRecord) : ChunkRow :=
  {| documentId := er_documentId item;
     text := er_text item;
     embedding := er_embedding item |}.

(** [prisma.chunk.createMany({ data })]: one statement, so all rows or none;
    it fails on a primary-key clash and on a [documentId] that is no
    document. *)
Fixpoint createMany (rows : list EmbeddingRecord) (docs : gmap string DocumentRow)
         (table : gmap string ChunkRow) : option (gmap string ChunkRow) :=
  match rows with
  | [] => Some table
  | item :: rest =>
      match table !! er_id item, docs !! er_documentId item with
      | None, Some _ => createMany rest docs (<[er_id item := to_row item]> table)
      | _, _ => None
      end
  end.

Definition storeEmbeddingsInDB (embeddings : list EmbeddingRecord) (st : State)
  : (JsError + unit) * State :=
  if available st then
    match createMany embeddings (documents st) (chunks st) with
    | Some table =>
        (inr tt, {| available := true; documents := documents st; chunks := table |})
    | None => (inl (Error "Failed to store embeddings in database"), st)
    end
  else (inl (Error "Failed to store embeddings in database"), st).

(** [SUM(...)] over a set of rows: [NULL] on no rows. *)
Definition sql_sum (l : list float) : option float :=
  match l with
  | [] => None
  | x :: rest => Some (fold_left PrimFloat.add rest x)
  end.

(** [a JOIN b ON a.idx = b.idx] of the two unnested arrays. *)
Fixpoint join_idx (a b : list float) : list (float * float) :=
  match a, b with
  | x :: a', y :: b' => (x, y) :: join_idx a' b'
  | _, _ => []
  end.

(** [sqrt((SELECT SUM(power(value, 2)) FROM unnest(v)))] *)
Definition magnitude (v : list float) : option float :=
  PrimFloat.sqrt <$> sql_sum (map (fun x => PrimFloat.mul x x) v).

(** The [similarity] column: [NULL] when a sum is over no rows, and the
    statement fails on a division by zero ([None]).  The range errors the
    engine raises on overflow are not part of the model: where it raises, the
    search fails and returns no result at all. *)
Definition similarity (q c : list float) : option (option float) :=
  match sql_sum (map (fun p => PrimFloat.mul (fst p) (snd p)) (join_idx q c)),
        magnitude q, magnitude c with
  | Some dot, Some mq, Some mc =>
      let d := PrimFloat.mul mq mc in
      if PrimFloat.is_zero d then None else Some (Some (PrimFloat.div dot d))
  | _, _, _ => Some None
  end.

Record Row := {
  row_id : string;
  row_text : string;
  row_documentId : string;
  row_documentName : string;
  row_similarity : option float
}.

(** [ORDER BY similarity DESC]: [NULL]s first, then [NaN], then by value. *)
Definition orders_before (a b : Row) : Prop :=
  match row_similarity a, row_similarity b with
  | None, _ => True
  | Some _, None => False
  | Some x, Some y => (PrimFloat.is_nan x || PrimFloat.leb y x) = true
  end.

#[global] Instance orders_before_dec a b : Decision (orders_before a b).
Proof. unfold orders_before. destruct (row_similarity a), (row_similarity b); apply _. Defined.

(** [FROM chunks c JOIN documents d ON c."documentId" = d.id], with the
    optional [WHERE d."userId" = $2]. *)
Definition joined (userId : option string) (st : State)
  : list (string * ChunkRow * DocumentRow) :=
  omap (fun kc : string * ChunkRow =>
          match documents st !! documentId (snd kc) with
          | Some d =>
              match owner_filter userId with
              | Some u => if String.eqb (Database.userId d) u
                          then Some (fst kc, snd kc, d) else None
              | None => Some (fst kc, snd kc, d)
              end
          | None => None
          end)
       (map_to_list (chunks st)).

Definition select_row (queryEmbedding : list float) (j : string * ChunkRow * DocumentRow)
  : option Row :=
  let '(cid, c, d) := j in
  (fun sim => {| row_id := cid; row_text := text c; row_documentId := documentId c;
                 row_documentName := name d; row_similarity := sim |})
    <$> similarity queryEmbedding (embedding c).

(** [prisma.$queryRawUnsafe(query, ...params)] for the similarity query. *)
Definition queryRaw (queryEmbedding : list float) (topK : nat) (userId : option string)
           (st : State) : option (list Row) :=
  if available st then
    (fun rows => take topK (merge_sort orders_before rows))
      <$> mapM (select_row queryEmbedding) (joined userId st)
  else None.

Definition to_result (row : Row) : VectorSearchResult :=
  {| vr_id := row_id row;
     vr_text := row_text row;
     vr_score := match row_similarity row with
                 | Some s => or_zero s
                 | None => 0%float
                 end;
     vr_metadata := Some {[ "documentId" := row_documentId row;
                            "documentName" := row_documentName row ]} |}.

Definition searchSimilarEmbeddingsInDB (queryEmbedding : list float) (topK : nat)
           (userId : option string) (st : State) : JsError + list VectorSearchResult :=
  match queryRaw queryEmbedding topK userId st with
  | Some rows => inr (map to_result rows)
  | None => inl (Error "Failed to search embeddings in database")
  end.

(** The owner of a chunk: the [userId] of the document it belongs to. *)
Definition owner_of (st : State) (chunk_id : string) : option string :=
  chunks st !! chunk_id ≫= fun c => userId <$> documents st !! documentId c.

End Database.

(** ** The upload route and routes/chat.ts: store selection, context assembly *)

Module Routes.
Import Types OpenAI.

Record World := {
  env : gmap string string;          (* process.env *)
  pinecone : Pinecone.State;
  database : Database.State
}.

Definition with_pinecone (w : World) (p : Pinecone.State) : World :=
  {| env := env w; pinecone := p; database := database w |}.

Definition with_database (w : World) (d : Database.State) : World :=
  {| env := env w; pinecone := pinecone w; database := d |}.

(** *** POST /api/upload, step 5: pair each embedding with its chunk *)

(** One element of [embeddings]; [pc_text] is [textChunks[index]], which is
    [undefined] past the end of [textChunks]. *)
Record PairedChunk := {
  pc_id : string;
  pc_text : option string;
  pc_embedding : list float;
  pc_documentId : string
}.

Inductive Step (T : Type) :=
| Continue (value : T)
| Respond (status : nat) (message : string).
Arguments Continue {T}.
Arguments Respond {T}.

Section Upload.

Variable createEmbeddings : list string -> operation CreateEmbeddingResponse.

(** [crypto.randomUUID()]: the identifier drawn for the chunk at [index]. *)
Variable randomUUID : nat -> string.

Definition upload_embeddings (textChunks : list string) (documentId : string)
  : Step (list PairedChunk) :=
  match settled (generateEmbeddings createEmbeddings textChunks) with
  | inr embeddingResponses =>
      Continue (imap (fun index response =>
                        {| pc_id := randomUUID index;
                           pc_text := textChunks !! index;
                           pc_embedding := embedding response;
                           pc_documentId := documentId |})
                     embeddingResponses)
  | inl error =>
      if match err_status error with Some z => Z.eqb z 429 | None => false end
         || match err_code error with
            | Some c => String.eqb c "insufficient_quota"
            | None => false
            end
      then Respond 429 "OpenAI quota exceeded. Please check billing or try later."
      else Respond 500 "Failed to generate embeddings"
  end.

End Upload.

(** *** POST /api/upload, step 6: try the remote index, fall back to the database *)

Definition store_in_database (embeddings : list EmbeddingRecord) (w : World)
  : Step string * World :=
  match Database.storeEmbeddingsInDB embeddings (database w) with
  | (inr _, d) => (Continue "database", with_database w d)
  | (inl _, d) => (Respond 500 "Failed to store embeddings", with_database w d)
  end.

(** Returns the [storageMethod] reported to the caller. *)
Definition upload_store (embeddings : list EmbeddingRecord) (w : World)
  : Step string * World :=
  if env_truthy (env w) "PINECONE_API_KEY" then
    match Pinecone.storeEmbeddings (env w) embeddings (pinecone w) with
    | (inr _, p) => (Continue "pinecone", with_pinecone w p)
    | (inl _, p) => store_in_database embeddings (with_pinecone w p)
    end
  else store_in_database embeddings w.

(** *** POST /api/chat, step 2: search *)

Inductive Variant := Remote | Relational.

(** The store the query flow searches. *)
Definition search_variant (w : World) : Variant :=
  if env_truthy (env w) "PINECONE_API_KEY" then Remote else Relational.

Section Chat.

Variable metric : list float -> list float -> float.

Definition chat_search (queryEmbedding : list float) (userId : string) (w : World)
  : Step (list VectorSearchResult) * World :=
  match search_variant w with
  | Remote =>
      match Pinecone.searchSimilarEmbeddings metric (env w) queryEmbedding 5 (Some userId)
                                             (pinecone w) with
      | (inr results, p) => (Continue results, with_pinecone w p)
      | (inl _, p) => (Respond 500 "Failed to search knowledge base", with_pinecone w p)
      end
  | Relational =>
      match Database.searchSimilarEmbeddingsInDB queryEmbedding 5 (Some userId) (database w) with
      | inr results => (Continue results, w)
      | inl _ => (Respond 500 "Failed to search knowledge base", w)
      end
  end.

(** *** POST /api/chat, steps 3 to 5: context, prompt, completion *)

(** [result.score > 0.7] *)
Definition relevant (result : VectorSearchResult) : bool :=
  PrimFloat.ltb 0.7%float (vr_score result).

(** [searchResults.filter(result => result.score > 0.7).slice(0, 5)] *)
Definition retained (searchResults : list VectorSearchResult) : list VectorSearchResult :=
  take 5 (List.filter relevant searchResults).

Definition contextChunks (searchResults : list VectorSearchResult) : list string :=
  map vr_text (retained searchResults).

Definition context_of (searchResults : list VectorSearchResult) : string :=
  JS.join (newline +:+ newline) (contextChunks searchResults).

(** [Number.prototype.toFixed(3)] *)
Variable toFixed3 : float -> string.

Definition references_of (searchResults : list VectorSearchResult) : list string :=
  map (fun result => JS.substring0 100 (vr_text result) +:+ "... (Score: "
                     +:+ toFixed3 (vr_score result) +:+ ")")
      (retained searchResults).

Definition systemPrompt (context : string) : string :=
  "You are a helpful study assistant. Your task is to answer questions based ONLY on the provided context information."
  +:+ newline +:+ newline
  +:+ "Instructions:" +:+ newline
  +:+ "- Use only the information provided in the context to answer questions" +:+ newline
  +:+ "- If the context doesn't contain enough information to answer the question, say "
  +:+ String (ascii_of_nat 34) "I don't have enough information in the provided documents to answer this question."
  +:+ String (ascii_of_nat 34) newline
  +:+ "- Be accurate and concise in your responses" +:+ newline
  +:+ "- If you quote directly from the context, use quotation marks" +:+ newline
  +:+ "- Provide helpful explanations when possible" +:+ newline +:+ newline
  +:+ "Context Information:" +:+ newline
  +:+ context +:+ newline +:+ newline
  +:+ "Remember: Only use the context provided above to answer questions. Do not use any external knowledge.".

Variable createChatCompletion : ChatRequest -> operation ChatCompletion.

(** What steps 3 to 5 produce: the references, the request that goes to the
    completion provider, how many times it was sent, and the answer or the
    500 response. *)
Record Answered := {
  references : list string;
  request : ChatRequest;
  times_sent : nat;
  answer : Step string
}.

Definition chat_answer (searchResults : list VectorSearchResult) (query : string) : Answered :=
  let context := context_of searchResults in
  let call := generateChatCompletion createChatCompletion
                                     (systemPrompt context) query (Some context) in
  {| references := references_of searchResults;
     request := chat_request (systemPrompt context) query (Some context);
     times_sent := provider_calls call;
     answer := match settled call with
               | inr a => Continue a
               | inl _ => Respond 500 "Failed to generate response"
               end |}.

End Chat.

End Routes.

(** ** routes/quiz.ts: validation of the generated questions *)

Module Quiz.
Import Routes.

(** The value [JSON.parse] returns. *)
Inductive json :=
| JNull
| JBool (b : bool)
| JNum (q : Q)
| JStr (s : string)
| JArr (items : list json)
| JObj (fields : gmap string json).

(** A value used as a condition. *)
Definition truthy (v : json) : bool :=
  match v with
  | JNull => false
  | JBool b => b
  | JNum q => negb (Qeq_bool q 0)
  | JStr s => JS.truthy s
  | JArr _ | JObj _ => true
  end.

(** [q.name] on an element [q] of a parsed array: [null] has no properties
    and the access throws; a missing property is [undefined]. *)
Inductive access := Throws | Undefined | Value (v : json).

Definition get (q : json) (name : string) : access :=
  match q with
  | JNull => Throws
  | JObj fields =>
      match fields !! name with
      | Some v => Value v
      | None => Undefined
      end
  | _ => Undefined
  end.

Definition access_truthy (a : access) : bool :=
  match a with
  | Value v => truthy v
  | _ => false
  end.

Definition is_array (a : access) : bool :=
  match a with
  | Value (JArr _) => true
  | _ => false
  end.

Definition array_length_is (a : access) (n : nat) : bool :=
  match a with
  | Value (JArr items) => Nat.eqb (List.length items) n
  | _ => false
  end.

Definition is_number (a : access) : bool :=
  match a with
  | Value (JNum _) => true
  | _ => false
  end.

(** The filter callback
    [q.question && q.options && Array.isArray(q.options)
     && q.options.length === 4 && typeof q.correctAnswer === 'number'];
    [None] when evaluating it throws. *)
Definition well_shaped (q : json) : option bool :=
  match q with
  | JNull => None
  | _ =>
      Some (access_truthy (get q "question")
            && access_truthy (get q "options")
            && is_array (get q "options")
            && array_length_is (get q "options") 4
            && is_number (get q "correctAnswer"))
  end.

(** [Array.prototype.filter] with a callback that may throw. *)
Fixpoint filter_throwing (f : json -> option bool) (l : list json) : option (list json) :=
  match l with
  | [] => Some []
  | q :: rest =>
      match f q with
      | None => None
      | Some keep =>
          match filter_throwing f rest with
          | None => None
          | Some kept => Some (if keep then q :: kept else kept)
          end
      end
  end.

(** [slice(0, n)] for a number [n >= 0]: the count is truncated to an integer. *)
Definition slice0 (n : Q) (l : list json) : list json := take (Z.to_nat (Qfloor n)) l.

(** The request check [!numQuestions || numQuestions < 1 || numQuestions > 20]. *)
Definition bad_numQuestions (numQuestions : Q) : bool :=
  Qeq_bool numQuestions 0
  || negb (Qle_bool 1 numQuestions)
  || negb (Qle_bool numQuestions 20).

(** POST /api/quiz: the request check on [numQuestions], then step 4, from
    the parsed provider output to the [questions] of the response (the steps
    in between fetch the document and call the provider). *)
Definition validate_questions (numQuestions : Q) (quizQuestions : json) : Step (list json) :=
  if bad_numQuestions numQuestions
  then Respond 400 "Number of questions must be between 1 and 20"
  else
    match quizQuestions with
    | JArr [] => Respond 500 "Failed to generate valid quiz questions"
    | JArr items =>
        match filter_throwing well_shaped items with
        | None => Respond 500 "Internal server error during quiz generation"
        | Some kept =>
            match slice0 numQuestions kept with
            | [] => Respond 500 "Generated quiz questions are not in the correct format"
            | validatedQuestions => Continue validatedQuestions
            end
        end
    | _ => Respond 500 "Failed to generate valid quiz questions"
    end.

(** What the specification asks of a returned question. *)
Definition has_four_options (q : json) : Prop :=
  exists items, get q "options" = Value (JArr items) /\ List.length items = 4.

Definition correctAnswer_is_number (q : json) : Prop :=
  exists n, get q "correctAnswer" = Value (JNum n).

Definition correctAnswer_in_range (q : json) : Prop :=
  exists i : Z, get q "correctAnswer" = Value (JNum (inject_Z i)) /\ (0 <= i <= 3)%Z.

End Quiz.

(** ** Concrete inputs used by the examples below *)

Module Fixtures.
Import Types OpenAI.

Definition rate_limit_error : JsError :=
  {| err_status := Some 429%Z; err_response_status := None; err_code := None;
     err_error_code := None; err_response_code := None;
     err_message := Some "Rate limit reached for requests";
     err_error_message := None; err_retry_after := None |}.

Definition quota_error : JsError :=
  {| err_status := Some 429%Z; err_response_status := None;
     err_code := Some "insufficient_quota";
     err_error_code := None; err_response_code := None;
     err_message := Some "You exceeded your current quota, please check your plan and billing details.";
     err_error_message := None; err_retry_after := None |}.

(** An operation that is rate limited twice and then succeeds. *)
Definition flaky : operation string :=
  fun k => match k with
           | 0 | 1 => inl rate_limit_error
           | _ => inr "ok"
           end.

(** An operation that fails on an exhausted quota. *)
Definition exhausted : operation string := fun _ => inl quota_error.

(** A provider that is never reached. *)
Definition unreachable : list string -> operation CreateEmbeddingResponse :=
  fun _ _ => inl (Error "unreachable").

(** A provider whose model maps a text to the vector of its length. *)
Definition length_embedding (text : string) : list float :=
  [PrimFloat.of_uint63 (Uint63.of_nat (String.length text))].

Definition length_provider : list string -> operation CreateEmbeddingResponse :=
  fun inputs _ =>
    inr {| data := map (fun t => {| item_embedding := length_embedding t |}) inputs;
           usage_total_tokens := Some (List.length inputs) |}.

Definition uuid (index : nat) : string :=
  String (ascii_of_nat (97 + index)) EmptyString.

Definition scored (score : float) (text : string) : VectorSearchResult :=
  {| vr_id := text; vr_text := text; vr_score := score; vr_metadata := None |}.


Definition weak_results : list VectorSearchResult :=
  [scored 0.7 "at the threshold"; scored 0.41 "below"].

(** Two owners.  The chunk of owner B is the closest to the query [[1; 0]]. *)
Definition library : Database.State :=
  {| Database.available := true;
     Database.documents :=
       {[ "d1" := {| Database.name := "a.txt"; Database.userId := "A" |};
          "d2" := {| Database.name := "b.txt"; Database.userId := "B" |} ]};
     Database.chunks :=
       {[ "c1" := {| Database.documentId := "d1"; Database.text := "alpha";
                     Database.embedding := [0.9; 0.1]%float |};
          "c2" := {| Database.documentId := "d2"; Database.text := "beta";
                     Database.embedding := [1; 0]%float |};
          "c3" := {| Database.documentId := "d1"; Database.text := "gamma";
                     Database.embedding := [0; 1]%float |} ]} |}.

(** The dot product, as the metric of the remote index. *)
Definition dot (a b : list float) : float :=
  default 0%float
          (Database.sql_sum (map (fun p => PrimFloat.mul (fst p) (snd p))
                                 (Database.join_idx a b))).

(** A remote index whose records carry an owner tag. *)
Definition tagged_index : Pinecone.State :=
  {| Pinecone.handle := true;
     Pinecone.reachable := true;
     Pinecone.records :=
       {[ "c1" := {| Pinecone.stored_values := [0.9; 0.1]%float;
                     Pinecone.stored_metadata := {[ "text" := "alpha"; "userId" := "A" ]} |};
          "c2" := {| Pinecone.stored_values := [1; 0]%float;
                     Pinecone.stored_metadata := {[ "text" := "beta"; "userId" := "B" ]} |} ]} |}.

Definition configured : gmap string string := {[ "PINECONE_API_KEY" := "key" ]}.

(** The identifiers of the chunks a search returned. *)
Definition ids_of (found : JsError + list VectorSearchResult) : list string :=
  match found with
  | inr results => map vr_id results
  | inl _ => []
  end.

(** A chunk of a document of owner A, as the ingestion flow hands it to a
    store. *)
Definition chunk_of_A : EmbeddingRecord :=
  {| er_id := "c1"; er_embedding := [1; 0]%float; er_text := "alpha";
     er_documentId := "d1" |}.

Definition fresh_index : Pinecone.State :=
  {| Pinecone.handle := false; Pinecone.reachable := true; Pinecone.records := ∅ |}.

(** The remote index is configured but does not answer; the database holds
    the document of owner A and no chunk yet. *)
Definition outage : Routes.World :=
  {| Routes.env := configured;
     Routes.pinecone :=
       {| Pinecone.handle := true; Pinecone.reachable := false; Pinecone.records := ∅ |};
     Routes.database :=
       {| Database.available := true;
          Database.documents :=
            {[ "d1" := {| Database.name := "a.txt"; Database.userId := "A" |} ]};
          Database.chunks := ∅ |} |}.



(** A generated question of the right shape whose [correctAnswer] points
    at no option. *)
Definition stray_question : Quiz.json :=
  Quiz.JObj {[ "question" := Quiz.JStr "Which one?";
               "options" := Quiz.JArr [Quiz.JStr "a"; Quiz.JStr "b"; Quiz.JStr "c"; Quiz.JStr "d"];
               "correctAnswer" := Quiz.JNum 7;
               "explanation" := Quiz.JStr "none of them" ]}.

Definition sound_question : Quiz.json :=
  Quiz.JObj {[ "question" := Quiz.JStr "Which one?";
               "options" := Quiz.JArr [Quiz.JStr "a"; Quiz.JStr "b"; Quiz.JStr "c"; Quiz.JStr "d"];
               "correctAnswer" := Quiz.JNum 2 ]}.

(** A stand-in for [toFixed(3)] where no score is printed. *)
Definition unprinted : float -> string := fun _ => "?".

Definition silent : ChatRequest -> operation ChatCompletion :=
  fun _ _ => inr {| first_choice_content := Some "I don't have enough information." |}.

End Fixtures.

(** ** services/openai.ts: the classes of failure the retry wrapper tells apart *)

Module Policy.
Import OpenAI.

(** A failure the wrapper retries: not a quota failure, with status 429 or
    a status from 500 to 599. *)
Definition retryable (err : JsError) : Prop :=
  is_quota err = false /\ (status_is_429 err || status_is_5xx err) = true.

(** A failure the wrapper rethrows as it is, whatever the attempt. *)
Definition fatal (err : JsError) : Prop :=
  is_quota err = false /\ status_is_429 err = false /\ status_is_5xx err = false.

(** The delay slept after the failure [err] of attempt [attempt]. *)
Definition retry_delay (err : JsError) (base : Q) (attempt : nat) : Q :=
  if status_is_429 err then rate_limit_delay err base attempt else backoff base attempt.

(** The operation fails with [errs], in this order, on its first invocations. *)
Definition fails_with {T : Type} (fn : operation T) (errs : list JsError) : Prop :=
  forall i err, errs !! i = Some err -> fn i = inl err.

Definition total (delays : list Q) : Q := fold_right Qplus 0%Q delays.

Definition server_error : JsError :=
  {| err_status := None; err_response_status := Some 503%Z; err_code := None;
     err_error_code := None; err_response_code := None;
     err_message := Some "Service unavailable";
     err_error_message := None; err_retry_after := None |}.

Definition throttled : JsError :=
  {| err_status := Some 429%Z; err_response_status := None; err_code := None;
     err_error_code := None; err_response_code := None;
     err_message := Some "Too many requests";
     err_error_message := None; err_retry_after := Some 2%Q |}.

Definition bad_request : JsError :=
  {| err_status := Some 400%Z; err_response_status := None;
     err_code := Some "invalid_request_error";
     err_error_code := None; err_response_code := None;
     err_message := Some "Invalid input";
     err_error_message := None; err_retry_after := None |}.

(** A failure whose only sign of an exhausted quota is its message. *)
Definition quota_by_message : JsError :=
  {| err_status := None; err_response_status := None; err_code := None;
     err_error_code := None; err_response_code := None;
     err_message := None;
     err_error_message := Some "Monthly QUOTA reached"; err_retry_after := None |}.

(** Fails as [errs] says, then settles to [last] for ever. *)
Definition scripted {T : Type} (errs : list JsError) (last : JsError + T) : operation T :=
  fun k => match errs !! k with
           | Some err => inl err
           | None => last
           end.

(** What the wrapper throws for the failure [err] it does not retry. *)
Definition rethrown (err : JsError) : JsError :=
  if is_quota err then QuotaExceededError else err.

(** The delay slept after attempt [attempt], which failed. *)
Definition sleep_after {T : Type} (fn : operation T) (base : Q) (attempt : nat) : Q :=
  match fn attempt with
  | inl err => retry_delay err base attempt
  | inr _ => 0%Q
  end.

(** The invocation that decides a run: every invocation before it failed
    with a failure the wrapper retries, and its own outcome is a result, a
    failure the wrapper does not retry, or the failure of the last attempt
    of the budget. *)
Definition decisive {T : Type} (fn : operation T) (maxRetries k : nat) : Prop :=
  k <= maxRetries
  /\ (forall j, j < k -> exists err, fn j = inl err /\ retryable err)
  /\ (forall err, fn k = inl err -> retryable err -> k = maxRetries).

(** How the wrapper settles when invocation [k] decides. *)
Definition settled_by {T : Type} (fn : operation T) (k : nat) : JsError + T :=
  match fn k with
  | inr v => inr v
  | inl err => inl (rethrown err)
  end.

End Policy.

(** ** utils/textProcessing.ts: what the chunker does to the sentences *)

Module Chunks.
Import TextProcessing.

(** The sentences the loop does not skip, trimmed, in source order. *)
Definition spoken (sentences : list string) : list string :=
  List.filter JS.truthy (map JS.trim sentences).

(** The chunks made so far, the running one included. *)
Definition pieces (st : LoopState) : list string :=
  (chunks st ++ (if JS.truthy (currentChunk st) then [currentChunk st] else []))%list.

(** A string that is not empty and that [trim] leaves as it is. *)
Definition tidy (s : string) : Prop := JS.trim s = s /\ s <> EmptyString.

(** The state of the loop after the sentences [done]. *)
Definition after (maxTokens : Q) (done : list string) : LoopState :=
  fold_left (step maxTokens) done {| chunks := []; currentChunk := EmptyString |}.

(** What the loop has built after the sentences [done]: its pieces are tidy,
    there are at most as many of them as sentences were spoken, and joining
    the pieces gives back the spoken sentences joined. *)
Definition content_invariant (maxTokens : Q) (done : list string) : Prop :=
  let st := after maxTokens done in
  Forall tidy (pieces st)
  /\ (currentChunk st = EmptyString -> chunks st = [] /\ spoken done = [])
  /\ (currentChunk st <> EmptyString -> spoken done <> [])
  /\ JS.join ". " (pieces st) = JS.join ". " (spoken done)
  /\ List.length (pieces st) <= List.length (spoken done).

End Chunks.

(** ** services/openai.ts: the single-text embedding call *)

Module Embedding.
Import OpenAI.

(** The message of the [TypeError] that reading [.embedding] off
    [response.data[0]] raises when [data] is empty. *)
Definition no_first_item : string :=
  "Cannot read properties of undefined (reading 'embedding')".

Section Provider.

(** [openai.embeddings.create({ model, input: text })] for one text. *)
Variable createEmbedding : string -> operation CreateEmbeddingResponse.

Definition generateEmbedding (text : string) : Call EmbeddingResponse :=
  if negb (JS.truthy (JS.trim text)) then
    {| settled := inl (rethrow (Error "Text cannot be empty") "Failed to generate embedding");
       provider_calls := 0 |}
  else
    let run := withRetries (createEmbedding text) None in
    {| settled :=
         match outcome run with
         | inr response =>
             match data response with
             | item :: _ =>
                 inr {| embedding := item_embedding item;
                        tokens := default 0 (usage_total_tokens response) |}
             | [] => inl (rethrow (Error no_first_item) "Failed to generate embedding")
             end
         | inl err => inl (rethrow err "Failed to generate embedding")
         end;
       provider_calls := invocations run |}.

End Provider.

(** A provider that answers a batch of one text as it answers that text. *)
Definition same_provider (createEmbedding : string -> operation CreateEmbeddingResponse)
           (createEmbeddings : list string -> operation CreateEmbeddingResponse)
           (text : string) : Prop :=
  createEmbeddings [text] = createEmbedding text.

Definition single_provider : string -> operation CreateEmbeddingResponse :=
  fun text _ =>
    inr {| data := [ {| item_embedding := Fixtures.length_embedding text |} ];
           usage_total_tokens := Some 7 |}.

End Embedding.

(** ** utils/textProcessing.ts: cleaning, file types and extraction *)

Module TextExtraction.
Import OpenAI.

Definition starts_with (p : ascii -> bool) (s : string) : bool :=
  match s with
  | EmptyString => false
  | String c _ => p c
  end.

(** [s.replace(/[class]+/g, ' ')]: every maximal run of characters of the
    class becomes one space. *)
Fixpoint collapse (p : ascii -> bool) (s : string) : string :=
  match s with
  | EmptyString => EmptyString
  | String c r =>
      if p c then
        if starts_with p r then collapse p r else String " " (collapse p r)
      else String c (collapse p r)
  end.

(** [s.replace(/[^class]/g, '')]: only the characters of the class stay. *)
Fixpoint keep (p : ascii -> bool) (s : string) : string :=
  match s with
  | EmptyString => EmptyString
  | String c r => if p c then String c (keep p r) else keep p r
  end.

Definition is_newline (c : ascii) : bool := Nat.eqb (nat_of_ascii c) 10.

(** The class [\w]: letters, digits and the underscore. *)
Definition is_word (c : ascii) : bool :=
  let n := nat_of_ascii c in
  (Nat.leb 65 n && Nat.leb n 90) || (Nat.leb 97 n && Nat.leb n 122)
  || (Nat.leb 48 n && Nat.leb n 57) || Nat.eqb n 95.

Definition is_basic_punctuation (c : ascii) : bool :=
  Ascii.eqb c "." || Ascii.eqb c "," || Ascii.eqb c "!" || Ascii.eqb c "?"
  || Ascii.eqb c "-".

(** The class [[\w\s.,!?-]]. *)
Definition is_kept (c : ascii) : bool :=
  is_word c || JS.is_white_space c || is_basic_punctuation c.

Definition cleanText (text : string) : string :=
  JS.trim (keep is_kept (collapse is_newline (collapse JS.is_white_space text))).

(** Every character of the string satisfies [P]. *)
Fixpoint all_chars (P : ascii -> Prop) (s : string) : Prop :=
  match s with
  | EmptyString => True
  | String c r => P c /\ all_chars P r
  end.

(** A character of cleaned text. *)
Definition is_clean (c : ascii) : Prop :=
  is_word c = true \/ c = " "%char \/ is_basic_punctuation c = true.

Definition pdf_type : string := "application/pdf".
Definition docx_type : string :=
  "application/vnd.openxmlformats-officedocument.wordprocessingml.document".
Definition plain_type : string := "text/plain".

Definition allowedTypes : list string := [pdf_type; docx_type; plain_type].

(** [allowedTypes.includes(mimetype)] *)
Definition isValidFileType (mimetype : string) : bool :=
  existsb (String.eqb mimetype) allowedTypes.

Definition mimeToExt : list (string * string) :=
  [(pdf_type, "pdf"); (docx_type, "docx"); (plain_type, "txt")].

(** The properties every object literal inherits from [Object.prototype];
    each of them is a truthy value that is not a string. *)
Definition inherited : list string :=
  ["constructor"; "hasOwnProperty"; "isPrototypeOf"; "propertyIsEnumerable";
   "toLocaleString"; "toString"; "valueOf"; "__defineGetter__"; "__defineSetter__";
   "__lookupGetter__"; "__lookupSetter__"; "__proto__"].

(** What [mimeToExt[mimetype] || 'unknown'] evaluates to. *)
Inductive Extension :=
| Ext (extension : string)
| Member (name : string).

Fixpoint own (table : list (string * string)) (key : string) : option string :=
  match table with
  | [] => None
  | (k, v) :: rest => if String.eqb k key then Some v else own rest key
  end.

Definition getFileExtension (mimetype : string) : Extension :=
  match own mimeToExt mimetype with
  | Some ext => if JS.truthy ext then Ext ext else Ext "unknown"
  | None =>
      if existsb (String.eqb mimetype) inherited then Member mimetype else Ext "unknown"
  end.

(** *** The text runs of a word-processing document *)

Fixpoint strip_prefix (p s : string) : option string :=
  match p, s with
  | EmptyString, _ => Some s
  | String a p', String b s' => if Ascii.eqb a b then strip_prefix p' s' else None
  | String _ _, EmptyString => None
  end.

(** The part of [s] before the first [stop] and the part after it. *)
Fixpoint cut_at (stop : ascii) (s : string) : option (string * string) :=
  match s with
  | EmptyString => None
  | String c r =>
      if Ascii.eqb c stop then Some (EmptyString, r)
      else match cut_at stop r with
           | Some (before, rest) => Some (String c before, rest)
           | None => None
           end
  end.

(** The longest prefix of [s] without [stop], and what follows it. *)
Fixpoint span_before (stop : ascii) (s : string) : string * string :=
  match s with
  | EmptyString => (EmptyString, EmptyString)
  | String c r =>
      if Ascii.eqb c stop then (EmptyString, s)
      else let '(before, rest) := span_before stop r in (String c before, rest)
  end.

(** A match, at the start of [s], of the pattern of [extractDocxText]: an
    opening [<w:t], any characters but [>], a [>], the captured characters,
    none of them [<], and the closing [</w:t>].  Returns the attributes and
    the captured text. *)
Definition run_at (s : string) : option (string * string) :=
  match strip_prefix "<w:t" s with
  | Some r1 =>
      match cut_at ">" r1 with
      | Some (attributes, r2) =>
          let '(captured, r3) := span_before "<" r2 in
          match strip_prefix "</w:t>" r3 with
          | Some _ => Some (attributes, captured)
          | None => None
          end
      | None => None
      end
  | None => None
  end.

(** The text a match spans. *)
Definition whole_match (m : string * string) : string :=
  "<w:t" +:+ fst m +:+ ">" +:+ snd m +:+ "</w:t>".

(** [text.match(regex)] with the [g] flag: all the matches, from left to
    right, each search resuming where the previous match ended; [skip] counts
    the characters of the last match still to pass. *)
Fixpoint matches_from (s : string) (skip : nat) : list (string * string) :=
  match s with
  | EmptyString => []
  | String _ r =>
      match skip with
      | S k => matches_from r k
      | O =>
          match run_at s with
          | Some m => m :: matches_from r (String.length (whole_match m) - 1)
          | None => matches_from r 0
          end
      end
  end.

(** The number of characters of [s] before its first [stop]. *)
Fixpoint index_of (stop : ascii) (s : string) : option nat :=
  match s with
  | EmptyString => None
  | String c r => if Ascii.eqb c stop then Some 0 else S <$> index_of stop r
  end.

(** [m.replace(/<[^>]*>/g, '')] *)
Fixpoint strip_tags (s : string) (skip : nat) : string :=
  match s with
  | EmptyString => EmptyString
  | String c r =>
      match skip with
      | S k => strip_tags r k
      | O =>
          if Ascii.eqb c "<" then
            match index_of ">" r with
            | Some n => strip_tags r (S n)
            | None => String c (strip_tags r 0)
            end
          else String c (strip_tags r 0)
      end
  end.

Section Extraction.

(** The uploaded bytes, [buffer.toString('utf-8')] and the external PDF
    parser, [pdfParse(buffer)] followed by [.text]. *)
Variable Buffer : Type.
Variable utf8 : Buffer -> string.
Variable pdfParse : Buffer -> JsError + string.

Definition extractPdfText (buffer : Buffer) : JsError + string :=
  match pdfParse buffer with
  | inr text => inr text
  | inl _ => inl (Error "Failed to extract text from PDF")
  end.

Definition extractDocxText (buffer : Buffer) : JsError + string :=
  let text := utf8 buffer in
  match matches_from text 0 with
  | [] => inr EmptyString
  | matches =>
      inr (JS.trim (JS.join " " (map (fun m => strip_tags (whole_match m) 0) matches)))
  end.

Definition extractText (buffer : Buffer) (mimetype : string) : JsError + string :=
  let extracted :=
    if String.eqb mimetype pdf_type then extractPdfText buffer
    else if String.eqb mimetype docx_type then extractDocxText buffer
    else if String.eqb mimetype plain_type then inr (utf8 buffer)
    else inl (Error ("Unsupported file type: " +:+ mimetype)) in
  match extracted with
  | inr text => inr text
  | inl _ => inl (Error "Failed to extract text from document")
  end.

End Extraction.

End TextExtraction.

(** ** services/database.ts: reading and deleting chunks, documents *)

Module Records.
Import Types OpenAI Database.

(** One element of what [getChunksByDocumentId] returns:
    [{ id, text, document: { name } }]. *)
Record ChunkView := {
  view_id : string;
  view_text : string;
  view_document_name : string
}.

Definition of_document (documentId : string) (kc : string * ChunkRow) : bool :=
  String.eqb (Database.documentId (snd kc)) documentId.

(** [prisma.chunk.findMany({ where: { documentId }, select })]; the selected
    document is a required relation, and a chunk without its document fails
    the query. *)
Definition getChunksByDocumentId (documentId : string) (st : State)
  : JsError + list ChunkView :=
  if available st then
    match mapM (fun kc : string * ChunkRow =>
                  (fun d => {| view_id := fst kc; view_text := text (snd kc);
                               view_document_name := name d |})
                    <$> documents st !! Database.documentId (snd kc))
               (List.filter (of_document documentId) (map_to_list (chunks st))) with
    | Some views => inr views
    | None => inl (Error "Failed to fetch chunks")
    end
  else inl (Error "Failed to fetch chunks").

(** [prisma.chunk.deleteMany({ where: { documentId } })] *)
Definition deleteEmbeddingsByDocumentIdInDB (documentId : string) (st : State)
  : (JsError + unit) * State :=
  if available st then
    (inr tt,
     {| available := true;
        documents := documents st;
        chunks := filter (fun kc : string * ChunkRow =>
                            Database.documentId (snd kc) <> documentId)
                         (chunks st) |})
  else (inl (Error "Failed to delete embeddings from database"), st).

(** [prisma.document.create({ data: { userId, name } })]; [id] is the
    identifier the client draws for the new row.  The table of users, which
    [userId] refers to, is outside the model. *)
Definition createDocument (id userId name : string) (st : State)
  : (JsError + string) * State :=
  if available st then
    match documents st !! id with
    | None =>
        (inr id,
         {| available := true;
            documents := <[id := {| Database.name := name; Database.userId := userId |}]>
                           (documents st);
            chunks := chunks st |})
    | Some _ => (inl (Error "Failed to create document"), st)
    end
  else (inl (Error "Failed to create document"), st).

(** [prisma.document.findFirst({ where: { id, userId } })]; [None] when the
    call throws. *)
Definition findDocument (id userId : string) (st : State) : option (option DocumentRow) :=
  if available st then
    Some (match documents st !! id with
          | Some d => if String.eqb (Database.userId d) userId then Some d else None
          | None => None
          end)
  else None.

(** [prisma.document.delete({ where: { id } })], with the cascade of the
    schema on the chunks of the document; [None] when the call throws. *)
Definition deleteDocument (id : string) (st : State) : option State :=
  if available st then
    match documents st !! id with
    | Some _ =>
        Some {| available := true;
                documents := delete id (documents st);
                chunks := filter (fun kc : string * ChunkRow =>
                                    Database.documentId (snd kc) <> id)
                                 (chunks st) |}
    | None => None
    end
  else None.

End Records.

(** ** services/pinecone.ts: deleting records *)

Module PineconeAdmin.
Import Types OpenAI Pinecone.

(** The external index: [deleteMany({ filter: { field: { $eq: value } } })]
    removes the records that carry the field with that value. *)
Definition deleteMany (field value : string) (st : State) : option State :=
  if reachable st then
    Some {| handle := handle st; reachable := true;
            records := filter (fun kr : string * Stored =>
                                 stored_metadata (snd kr) !! field <> Some value)
                              (records st) |}
  else None.

Definition deleteEmbeddingsByDocumentId (env : gmap string string) (documentId : string)
           (st : State) : (JsError + unit) * State :=
  match ensure_index env st with
  | inl _ => (inl (Error "Failed to delete embeddings"), st)
  | inr st1 =>
      match deleteMany "documentId" documentId st1 with
      | Some st2 => (inr tt, st2)
      | None => (inl (Error "Failed to delete embeddings"), st1)
      end
  end.

Definition deleteEmbeddingsByUserId (env : gmap string string) (userId : string)
           (st : State) : (JsError + unit) * State :=
  match ensure_index env st with
  | inl _ => (inl (Error "Failed to delete user embeddings"), st)
  | inr st1 =>
      match deleteMany "userId" userId st1 with
      | Some st2 => (inr tt, st2)
      | None => (inl (Error "Failed to delete user embeddings"), st1)
      end
  end.

End PineconeAdmin.

(** ** middleware/auth.ts: the guard of the protected routes *)

Module Auth.
Import Types.

(** [s.split(' ')] *)
Fixpoint split_spaces (s : string) : list string :=
  match s with
  | EmptyString => [EmptyString]
  | String c r =>
      let pieces := split_spaces r in
      if Ascii.eqb c " " then EmptyString :: pieces
      else match pieces with
           | p :: ps => String c p :: ps
           | [] => [String c EmptyString]
           end
  end.

(** [req.headers.authorization?.split(' ')[1]] *)
Definition token_of (authorization : option string) : option string :=
  authorization ≫= fun header => split_spaces header !! 1.

(** The middleware answers itself, or sets [req.user] and calls [next()]. *)
Inductive Verdict :=
| Reject (status : nat) (message : string)
| Next (userId : string).

Section Middleware.

(** [jwt.verify(token, jwtSecret)] followed by [.id]: the identifier in the
    payload of a token that verifies, [None] when the verification throws.
    The tokens that verify are the ones [generateToken] signed, over a
    payload whose [id] is a string. *)
Variable jwt_verify : string -> string -> option string.

Definition verifyJWT (env : gmap string string) (authorization : option string) : Verdict :=
  match token_of authorization with
  | Some token =>
      if JS.truthy token then
        if env_truthy env "JWT_SECRET" then
          match jwt_verify token (default EmptyString (env !! "JWT_SECRET")) with
          | Some id => Next id
          | None => Reject 403 "Invalid or expired token"
          end
        else Reject 403 "Invalid or expired token"
      else Reject 401 "Access token is required"
  | None => Reject 401 "Access token is required"
  end.

End Middleware.

End Auth.

(** ** routes/chat.ts: POST /api/chat from the request to the response *)

Module ChatRoute.
Import Types OpenAI Routes.

(** A row of [chats], keyed by its primary key [id]. *)
Record ChatRow := { cr_userId : string; cr_query : string; cr_answer : string }.

Record Chats := {
  writable : bool;                        (* statements reach the table *)
  rows : gmap string ChatRow
}.

(** [prisma.chat.create({ data: { userId, query, answer } })]; [id] is the
    identifier the client draws for the new row.  The table of users, which
    [userId] refers to, is outside the model. *)
Definition createChatRecord (id userId query answer : string) (c : Chats)
  : (JsError + string) * Chats :=
  if writable c then
    match rows c !! id with
    | None =>
        (inr id,
         {| writable := true;
            rows := <[id := {| cr_userId := userId; cr_query := query;
                               cr_answer := answer |}]> (rows c) |})
    | Some _ => (inl (Error "Failed to create chat record"), c)
    end
  else (inl (Error "Failed to create chat record"), c).

(** The [data] of a successful response. *)
Record ChatResponse := {
  res_answer : string;
  res_references : list string;
  res_chatId : string
}.

Record Reply := { status : nat; message : string; data : option ChatResponse }.

(** What one request leaves behind: the reply, both stores, the table of
    chats, and how many times each provider endpoint was invoked. *)
Record Outcome := {
  reply : Reply;
  world : World;
  chats : Chats;
  embedding_calls : nat;
  completion_calls : nat
}.

Definition refuse (status : nat) (message : string) (w : World) (c : Chats)
           (embedding_calls completion_calls : nat) : Outcome :=
  {| reply := {| status := status; message := message; data := None |};
     world := w; chats := c;
     embedding_calls := embedding_calls; completion_calls := completion_calls |}.

(** The stores as a request leaves them, next to how it found them. *)
Definition only_read (w w1 : World) : Prop :=
  env w1 = env w /\ database w1 = database w
  /\ Pinecone.records (pinecone w1) = Pinecone.records (pinecone w).

(** [!query || query.trim().length === 0] on a string. *)
Definition query_missing (query : string) : bool :=
  negb (JS.truthy query) || Nat.eqb (String.length (JS.trim query)) 0.

(** [query.length > 1000] *)
Definition query_too_long (query : string) : bool :=
  Nat.ltb 1000 (String.length query).

(** What lines 21 to 31 make of the parsed body [req.body], whose field
    [query] is any value or is absent: destructuring a body that is [null]
    throws, as does [query.trim()] on a truthy value that is no string; both
    end in the [catch] of the handler. *)
Inductive Query :=
| NoBody
| Missing
| NotAString
| TooLong
| Accepted (query : string).

Definition query_of (body : Quiz.json) : Query :=
  match Quiz.get body "query" with
  | Quiz.Throws => NoBody
  | Quiz.Undefined => Missing
  | Quiz.Value v =>
      if negb (Quiz.truthy v) then Missing
      else
        match v with
        | Quiz.JStr query =>
            if query_missing query then Missing
            else if query_too_long query then TooLong
            else Accepted query
        | _ => NotAString
        end
  end.

Section Route.

Variable metric : list float -> list float -> float.
Variable toFixed3 : float -> string.
Variable createEmbedding : string -> operation CreateEmbeddingResponse.
Variable createChatCompletion : ChatRequest -> operation ChatCompletion.

(** The identifier drawn for the chat record of this request. *)
Variable newChatId : string.

(** Steps 1 to 7, for a query that passed the checks. *)
Definition chat_accepted (userId query : string) (w : World) (c : Chats) : Outcome :=
  let embedded := Embedding.generateEmbedding createEmbedding query in
  match settled embedded with
  | inl _ => refuse 500 "Failed to process query" w c (provider_calls embedded) 0
  | inr embeddingResponse =>
      match chat_search metric (embedding embeddingResponse) userId w with
      | (Respond status message, w1) =>
          refuse status message w1 c (provider_calls embedded) 0
      | (Continue searchResults, w1) =>
          let answered := chat_answer toFixed3 createChatCompletion searchResults query in
          match answer answered with
          | Respond status message =>
              refuse status message w1 c (provider_calls embedded) (times_sent answered)
          | Continue reply_text =>
              let saved := createChatRecord newChatId userId query reply_text c in
              {| reply :=
                   {| status := 200;
                      message := "Chat processed successfully";
                      data :=
                        Some {| res_answer := reply_text;
                                res_references := references answered;
                                res_chatId :=
                                  match fst saved with
                                  | inr id => if JS.truthy id then id else "unknown"
                                  | inl _ => "unknown"
                                  end |} |};
                 world := w1;
                 chats := snd saved;
                 embedding_calls := provider_calls embedded;
                 completion_calls := times_sent answered |}
          end
      end
  end.

(** The handler.  [user] is [req.user?.id] and [body] is [req.body]. *)
Definition chat (user : option string) (body : Quiz.json) (w : World) (c : Chats)
  : Outcome :=
  match user with
  | None => refuse 401 "User not authenticated" w c 0 0
  | Some userId =>
      match query_of body with
      | NoBody | NotAString =>
          refuse 500 "Internal server error during chat processing" w c 0 0
      | Missing => refuse 400 "Query is required" w c 0 0
      | TooLong => refuse 400 "Query is too long. Maximum 1000 characters." w c 0 0
      | Accepted query => chat_accepted userId query w c
      end
  end.

(** [jwt.verify], as the middleware uses it. *)
Variable jwt_verify : string -> string -> option string.

(** The route: [verifyJWT], then the handler.  [authorization] is the
    header of that name. *)
Definition chat_route (authorization : option string) (body : Quiz.json)
           (w : World) (c : Chats) : Outcome :=
  match Auth.verifyJWT jwt_verify (env w) authorization with
  | Auth.Reject status message => refuse status message w c 0 0
  | Auth.Next userId => chat (Some userId) body w c
  end.

End Route.

End ChatRoute.

(** ** The upload route: DELETE /api/upload/documents/:id *)

Module DocumentRoute.
Import Types OpenAI Routes.

(** The vector-store step, whose failure is logged and otherwise ignored. *)
Definition delete_embeddings (documentId : string) (w : World) : World :=
  if env_truthy (env w) "PINECONE_API_KEY"
  then with_pinecone w (snd (PineconeAdmin.deleteEmbeddingsByDocumentId
                               (env w) documentId (pinecone w)))
  else with_database w (snd (Records.deleteEmbeddingsByDocumentIdInDB
                               documentId (database w))).

(** [user] is [req.user?.id], [documentId] is [req.params.id]; the result is
    the status and the message of the response. *)
Definition delete_document (user : option string) (documentId : string) (w : World)
  : nat * string * World :=
  match user with
  | None => (401, "User not authenticated", w)
  | Some userId =>
      match Records.findDocument documentId userId (database w) with
      | None => (500, "Internal server error", w)
      | Some None => (404, "Document not found or access denied", w)
      | Some (Some _) =>
          let w1 := delete_embeddings documentId w in
          match Records.deleteDocument documentId (database w1) with
          | Some d => (200, "Document deleted successfully", with_database w1 d)
          | None => (500, "Internal server error", w1)
          end
      end
  end.

End DocumentRoute.

(** ** Worlds for the route examples *)

Module Scenarios.
Import Types OpenAI.

(** No remote index is configured; the database holds the two owners'
    documents. *)
Definition relational_world : Routes.World :=
  {| Routes.env := ∅;
     Routes.pinecone := Fixtures.fresh_index;
     Routes.database := Fixtures.library |}.

(** The remote index is configured and does not answer. *)
Definition remote_outage : Routes.World :=
  {| Routes.env := Fixtures.configured;
     Routes.pinecone :=
       {| Pinecone.handle := true; Pinecone.reachable := false;
          Pinecone.records := Pinecone.records Fixtures.tagged_index |};
     Routes.database := Fixtures.library |}.

Definition no_chats : ChatRoute.Chats :=
  {| ChatRoute.writable := true; ChatRoute.rows := ∅ |}.






End Scenarios.

(** ** The upload route: POST /api/upload, steps 1 to 5 *)

Module UploadRoute.
Import Types OpenAI Routes TextProcessing TextExtraction.

(** A character of a chunk: a character of cleaned text that ends no
    sentence, or the full stop of the joiner. *)
Definition is_chunk_char (c : ascii) : Prop :=
  is_word c = true \/ c = " "%char \/ c = ","%char \/ c = "-"%char \/ c = "."%char.

Section Route.

Variable Buffer : Type.
Variable utf8 : Buffer -> string.
Variable pdfParse : Buffer -> JsError + string.
Variable createEmbeddings : list string -> operation CreateEmbeddingResponse.
Variable randomUUID : nat -> string.

(** The identifier drawn for the document record of this request. *)
Variable newDocumentId : string.

(** Steps 1 to 3: extract, clean and split; the result is [cleanedText] and
    [textChunks]. *)
Definition upload_text (buffer : Buffer) (mimetype : string) : Step (string * list string) :=
  match extractText Buffer utf8 pdfParse buffer mimetype with
  | inl _ => Respond 400 "Failed to extract text from file"
  | inr extractedText =>
      if negb (JS.truthy (JS.trim extractedText))
      then Respond 400 "No text content found in the file"
      else
        let cleanedText := cleanText extractedText in
        let textChunks := splitTextIntoChunks cleanedText 500 in
        match textChunks with
        | [] => Respond 400 "No text chunks could be created from the file"
        | _ => Continue (cleanedText, textChunks)
        end
  end.

(** Steps 4 and 5: create the document record, then embed the chunks; the
    result is [document.id] and [embeddings]. *)
Definition upload_document (userId originalname : string) (textChunks : list string)
           (w : World) : Step (string * list PairedChunk) * World :=
  match Records.createDocument newDocumentId userId originalname (database w) with
  | (inl _, _) => (Respond 500 "Internal server error during file processing", w)
  | (inr id, d) =>
      (match upload_embeddings createEmbeddings randomUUID textChunks id with
       | Continue embeddings => Continue (id, embeddings)
       | Respond status message => Respond status message
       end,
       with_database w d)
  end.

End Route.

End UploadRoute.

(** ** services/openai.ts and routes/quiz.ts: generating a quiz *)

Module QuizRoute.
Import Types OpenAI Routes Quiz.




(** The [data] of a successful response. *)
Record QuizResponse := { questions : list json; documentName : string }.

Record Reply := { status : nat; message : string; data : option QuizResponse }.

(** The reply and how many times the completion provider was invoked. *)
Record Outcome := { reply : Reply; completion_calls : nat }.

Definition refuse (status : nat) (message : string) (completion_calls : nat) : Outcome :=
  {| reply := {| status := status; message := message; data := None |};
     completion_calls := completion_calls |}.

Section Route.

Variable createChatCompletion : ChatRequest -> operation ChatCompletion.

(** [JSON.parse]; [None] when it throws. *)
Variable JSON_parse : string -> option json.

(** A number as a template literal prints it. *)
Variable Number_toString : Q -> string.





End Route.

(** *** POST /api/quiz/validate *)









End QuizRoute.

(** ** utils/textProcessing.ts: documents made of text runs *)

Module DocxRuns.
Import TextExtraction.


(** A text run of a document: the attributes of its [<w:t ...>] tag, its
    text, and the markup that follows its closing tag. *)
Record Run := { attributes : string; run_text : string; trailer : string }.





End DocxRuns.

(** * Properties *)

(** ** Strings *)

Lemma truthy_false (s : string) : JS.truthy s = false <-> s = EmptyString.
Proof.
  unfold JS.truthy. rewrite negb_false_iff. apply String.eqb_eq.
Qed.

Lemma truthy_true (s : string) : JS.truthy s = true <-> s <> EmptyString.
Proof.
  unfold JS.truthy. rewrite negb_true_iff. apply String.eqb_neq.
Qed.

Lemma length_append (s1 s2 : string) :
  String.length (s1 +:+ s2) = String.length s1 + String.length s2.
Proof.
  induction s1 as [|c s1 IH]; simpl; [reflexivity | now rewrite IH].
Qed.

Lemma trimStart_length (s : string) : String.length (JS.trimStart s) <= String.length s.
Proof.
  induction s as [|c s IH]; simpl; [lia |].
  destruct (JS.is_white_space c); simpl; lia.
Qed.

Lemma trimEnd_length (s : string) : String.length (JS.trimEnd s) <= String.length s.
Proof.
  induction s as [|c s IH]; simpl; [lia |].
  destruct (JS.is_white_space c && String.eqb (JS.trimEnd s) EmptyString); simpl; lia.
Qed.

Lemma trim_length (s : string) : String.length (JS.trim s) <= String.length s.
Proof.
  unfold JS.trim. pose proof (trimEnd_length (JS.trimStart s)).
  pose proof (trimStart_length s). lia.
Qed.

Lemma trimStart_idempotent (s : string) : JS.trimStart (JS.trimStart s) = JS.trimStart s.
Proof.
  induction s as [|c s IH]; simpl; [reflexivity |].
  destruct (JS.is_white_space c) eqn:E; [exact IH |].
  simpl. now rewrite E.
Qed.

Lemma trimEnd_idempotent (s : string) : JS.trimEnd (JS.trimEnd s) = JS.trimEnd s.
Proof.
  induction s as [|c s IH]; simpl; [reflexivity |].
  destruct (JS.is_white_space c && String.eqb (JS.trimEnd s) EmptyString) eqn:E;
    [reflexivity |].
  simpl. rewrite IH, E. reflexivity.
Qed.

(** A string with no leading white space keeps its head under [trimEnd]. *)
Lemma trimStart_trimEnd (s : string) :
  JS.trimStart s = s -> JS.trimStart (JS.trimEnd s) = JS.trimEnd s.
Proof.
  destruct s as [|c s]; simpl; [reflexivity |].
  destruct (JS.is_white_space c) eqn:E.
  - intros H. pose proof (trimStart_length s) as L. rewrite H in L. simpl in L. lia.
  - intros _. simpl. now rewrite E.
Qed.

Lemma trim_idempotent (s : string) : JS.trim (JS.trim s) = JS.trim s.
Proof.
  unfold JS.trim.
  rewrite (trimStart_trimEnd (JS.trimStart s)) by apply trimStart_idempotent.
  apply trimEnd_idempotent.
Qed.

Lemma trim_empty : JS.trim EmptyString = EmptyString.
Proof. reflexivity. Qed.

(** ** The chunker *)

Section Chunker.
Import TextProcessing.

Lemma qlen_append (a b : string) : (qlen (a +:+ b) == qlen a + qlen b)%Q.
Proof.
  unfold qlen. rewrite length_append, Nat2Z.inj_add, inject_Z_plus. reflexivity.
Qed.

Lemma qlen_le (a b : string) :
  String.length a <= String.length b -> (qlen a <= qlen b)%Q.
Proof.
  intros H. unfold qlen. rewrite <- Zle_Qle. lia.
Qed.

Lemma qlen_trim (s : string) : (qlen (JS.trim s) <= qlen s)%Q.
Proof. apply qlen_le, trim_length. Qed.

Lemma qlen_joiner : (qlen ". " == 2)%Q.
Proof. reflexivity. Qed.

Lemma Qgtb_false (a b : Q) : Qgtb a b = false -> (a <= b)%Q.
Proof.
  unfold Qgtb. rewrite negb_false_iff. apply Qle_bool_iff.
Qed.

(** Division by four as a multiplication, which linear arithmetic handles. *)
Ltac quarter := unfold Qdiv in *; change (/ 4)%Q with (1 # 4)%Q in *.

Variable sentences : list string.
Variable maxTokens : Q.

Lemma flush_ok (c : string) :
  current_ok sentences maxTokens c -> c <> EmptyString ->
  chunk_ok sentences maxTokens (JS.trim c).
Proof.
  unfold current_ok, chunk_ok, one_sentence, single_long_sentence, bounded.
  intros [E | [[s [Hin Hs]] | B]] Hne; [contradiction | |].
  - subst c. rewrite trim_idempotent.
    destruct (Qlt_le_dec maxTokens (qlen (JS.trim s) / 4)) as [L | L].
    + right. exists s. auto.
    + left. quarter. lra.
  - left. pose proof (qlen_trim c). quarter. lra.
Qed.

Lemma step_invariant (st : LoopState) (sentence : string) :
  In sentence sentences ->
  loop_invariant sentences maxTokens st ->
  loop_invariant sentences maxTokens (step maxTokens st sentence).
Proof.
  intros Hin [Hchunks Hcur]. unfold step.
  assert (current_ok sentences maxTokens (JS.trim sentence)) as Hone.
  { right. left. exists sentence. auto. }
  destruct (negb (JS.truthy (JS.trim sentence))); [split; assumption |].
  destruct (Qgtb (qlen (currentChunk st +:+ JS.trim sentence) / 4) maxTokens) eqn:G;
    destruct (JS.truthy (currentChunk st)) eqn:T; simpl.
  - split; simpl; [| exact Hone].
    apply Forall_app. split; [assumption |].
    constructor; [| constructor].
    apply flush_ok; [assumption | now apply truthy_true].
  - apply truthy_false in T. split; simpl; [assumption |].
    rewrite T. exact Hone.
  - split; simpl; [assumption |].
    right. right. unfold bounded.
    apply Qgtb_false in G.
    rewrite qlen_append in G.
    rewrite !qlen_append, qlen_joiner. quarter. lra.
  - apply truthy_false in T. split; simpl; [assumption |].
    rewrite T. exact Hone.
Qed.

Lemma loop_invariant_fold (l : list string) (st : LoopState) :
  (forall s, In s l -> In s sentences) ->
  loop_invariant sentences maxTokens st ->
  loop_invariant sentences maxTokens (fold_left (step maxTokens) l st).
Proof.
  revert st. induction l as [|s l IH]; intros st Hl Hst; simpl; [assumption |].
  apply IH.
  - intros s' Hs'. apply Hl. now right.
  - apply step_invariant; [apply Hl; now left | assumption].
Qed.

Lemma chunk_sentences_ok :
  Forall (chunk_ok sentences maxTokens) (chunk_sentences sentences maxTokens).
Proof.
  unfold chunk_sentences.
  assert (loop_invariant sentences maxTokens
            (fold_left (step maxTokens) sentences
                       {| chunks := []; currentChunk := EmptyString |}))
    as [Hchunks Hcur].
  { apply loop_invariant_fold; [auto |]. split; simpl; [constructor | now left]. }
  destruct (JS.truthy (JS.trim _)) eqn:T; [| assumption].
  apply Forall_app. split; [assumption |].
  constructor; [| constructor].
  apply flush_ok; [assumption |].
  intros E. rewrite E in T. discriminate T.
Qed.

End Chunker.

(** Every chunk is a text the embedding client accepts: its trimmed form is
    not empty. *)
Section ChunkValidity.
Import TextProcessing.

Lemma trimStart_headed (s : string) :
  JS.trimStart s <> EmptyString -> JS.headed (JS.trimStart s).
Proof.
  induction s as [|c s IH]; simpl; [congruence |].
  destruct (JS.is_white_space c) eqn:E; [exact IH |].
  intros _. exact E.
Qed.

Lemma trimEnd_headed (s : string) : JS.headed s -> JS.headed (JS.trimEnd s).
Proof.
  destruct s as [|c s]; simpl; [tauto |].
  intros E. rewrite E. exact E.
Qed.

Lemma trim_headed (s : string) : JS.trim s <> EmptyString -> JS.headed (JS.trim s).
Proof.
  unfold JS.trim. intros H. apply trimEnd_headed, trimStart_headed.
  intros E. rewrite E in H. apply H. reflexivity.
Qed.

Lemma headed_append (a b : string) : JS.headed a -> JS.headed (a +:+ b).
Proof. destruct a; simpl; tauto. Qed.

Lemma headed_trim (s : string) : JS.headed s -> JS.trim s <> EmptyString.
Proof.
  destruct s as [|c s]; simpl; [tauto |].
  intros E. unfold JS.trim. simpl. rewrite E. simpl. rewrite E. discriminate.
Qed.

Lemma headed_valid (s : string) : JS.headed s -> OpenAI.is_valid_text (JS.trim s) = true.
Proof.
  intros H. unfold OpenAI.is_valid_text. rewrite trim_idempotent.
  apply headed_trim in H. apply Nat.ltb_lt.
  destruct (JS.trim s); [congruence | simpl; lia].
Qed.

Lemma step_headed (maxTokens : Q) (st : LoopState) (sentence : string) :
  Forall (fun c => OpenAI.is_valid_text c = true) (chunks st) ->
  (currentChunk st = EmptyString \/ JS.headed (currentChunk st)) ->
  Forall (fun c => OpenAI.is_valid_text c = true) (chunks (step maxTokens st sentence))
  /\ (currentChunk (step maxTokens st sentence) = EmptyString
      \/ JS.headed (currentChunk (step maxTokens st sentence))).
Proof.
  intros Hchunks Hcur. unfold step.
  destruct (JS.truthy (JS.trim sentence)) eqn:S; simpl; [| auto].
  apply truthy_true, trim_headed in S.
  destruct (Qgtb _ maxTokens); destruct (JS.truthy (currentChunk st)) eqn:T; simpl.
  - split; [| right; exact S].
    apply Forall_app. split; [assumption |].
    constructor; [| constructor]. apply headed_valid.
    apply truthy_true in T. destruct Hcur; [contradiction | assumption].
  - split; [assumption | right]. apply truthy_false in T. rewrite T. exact S.
  - split; [assumption | right]. apply headed_append.
    apply truthy_true in T. destruct Hcur; [contradiction | assumption].
  - split; [assumption | right]. apply truthy_false in T. rewrite T. exact S.
Qed.

Lemma chunks_are_valid_texts (text : string) (maxTokens : Q) :
  Forall (fun c => OpenAI.is_valid_text c = true) (splitTextIntoChunks text maxTokens).
Proof.
  unfold splitTextIntoChunks, chunk_sentences.
  generalize (sentences_of text). intros sentences.
  assert (forall st,
             Forall (fun c => OpenAI.is_valid_text c = true) (chunks st) ->
             (currentChunk st = EmptyString \/ JS.headed (currentChunk st)) ->
             let final := fold_left (step maxTokens) sentences st in
             Forall (fun c => OpenAI.is_valid_text c = true) (chunks final)
             /\ (currentChunk final = EmptyString \/ JS.headed (currentChunk final)))
    as Hfold.
  { induction sentences as [|s l IH]; intros st H1 H2; simpl; [auto |].
    destruct (step_headed maxTokens st s H1 H2) as [H1' H2']. apply IH; assumption. }
  destruct (Hfold {| chunks := []; currentChunk := EmptyString |}) as [Hchunks Hcur];
    [constructor | left; reflexivity |].
  destruct (JS.truthy (JS.trim _)) eqn:T; [| assumption].
  apply Forall_app. split; [assumption |].
  constructor; [| constructor].
  destruct Hcur as [E | Hh]; [rewrite E in T; discriminate T |].
  apply headed_valid. exact Hh.
Qed.

End ChunkValidity.

(** C6, as the specification states it, fails: with a limit of one token the
    text [ab. cd] stays in one chunk, because the estimate [(2 + 2) / 4] is
    taken before the joiner is added; the chunk has six characters, an
    estimate of one and a half, and is made of two sentences. *)
Lemma chunk_limit_counterexample :
  ~ (forall text maxTokens,
        Forall (TextProcessing.within_limit text maxTokens)
               (TextProcessing.splitTextIntoChunks text maxTokens)).
Proof.
  intros H. specialize (H "ab. cd" 1%Q).
  assert (TextProcessing.splitTextIntoChunks "ab. cd" 1 = ["ab. cd"]) as E
      by (vm_compute; reflexivity).
  rewrite E in H. apply Forall_cons in H as [[B | [s [Hin [Hs _]]]] _].
  - vm_compute in B. apply B. reflexivity.
  - assert (TextProcessing.sentences_of "ab. cd" = ["ab"; " cd"]) as E'
        by (vm_compute; reflexivity).
    rewrite E' in Hin. simpl in Hin.
    destruct Hin as [<- | [<- | []]]; vm_compute in Hs; discriminate Hs.
Qed.

(** At the default limit of 500 tokens too: two sentences of a thousand
    characters each are joined into one chunk of 2002 characters. *)
Example default_limit_exceeded :
  let sentence := string_of_list_ascii (repeat "a"%char 1000) in
  map String.length
      (TextProcessing.splitTextIntoChunks_default (sentence +:+ ". " +:+ sentence))
  = [2002].
Proof. vm_compute. reflexivity. Qed.

(** C6, amended: every chunk produced by [splitTextIntoChunks] has an
    estimate [length / 4] of at most [maxTokens + 1/2] (the two characters of
    the joiner are not counted when the loop decides to flush), except a chunk
    that consists of a single sentence whose own estimate exceeds the limit. *)
Theorem chunk_limit_with_joiner (text : string) (maxTokens : Q) :
  Forall (TextProcessing.within_limit_joiner text maxTokens)
         (TextProcessing.splitTextIntoChunks text maxTokens).
Proof.
  unfold TextProcessing.within_limit_joiner, TextProcessing.splitTextIntoChunks.
  apply chunk_sentences_ok.
Qed.

(** ** The retry wrapper *)

Section Retry.
Import OpenAI.

Context {T : Type}.

Lemma retry_loop_success (fn : operation T) base remaining attempt slept v :
  fn attempt = inr v ->
  retry_loop fn base remaining attempt slept
  = {| outcome := inr v; invocations := S attempt; delays := slept |}.
Proof. intros H. destruct remaining; simpl; rewrite H; reflexivity. Qed.

Lemma retry_loop_quota (fn : operation T) base remaining attempt slept err :
  fn attempt = inl err -> is_quota err = true ->
  retry_loop fn base remaining attempt slept
  = {| outcome := inl QuotaExceededError; invocations := S attempt; delays := slept |}.
Proof. intros H Q. destruct remaining; simpl; rewrite H, Q; reflexivity. Qed.

Lemma retry_loop_rate_limited (fn : operation T) base remaining attempt slept err :
  fn attempt = inl err -> rate_limited err ->
  retry_loop fn base (S remaining) attempt slept
  = retry_loop fn base remaining (S attempt)
               (slept ++ [rate_limit_delay err base attempt]).
Proof.
  intros H [St Q]. simpl. rewrite H, Q.
  unfold status_is_429. rewrite St. reflexivity.
Qed.

(** The wrapper invokes the operation at least once and at most
    [maxRetries + 1] times. *)
Lemma retry_loop_invocations (fn : operation T) base remaining attempt slept :
  S attempt <= invocations (retry_loop fn base remaining attempt slept)
  <= S (attempt + remaining).
Proof.
  revert attempt slept. induction remaining as [|r IH]; intros attempt slept; simpl.
  - destruct (fn attempt) as [err | v]; [destruct (is_quota err) |]; simpl; lia.
  - destruct (fn attempt) as [err | v]; [| simpl; lia].
    destruct (is_quota err); [simpl; lia |].
    destruct (status_is_429 err); [specialize (IH (S attempt)); 
      match goal with |- context [retry_loop _ _ _ _ ?s] => specialize (IH s) end; lia |].
    destruct (status_is_5xx err); [| simpl; lia].
    specialize (IH (S attempt)).
    match goal with |- context [retry_loop _ _ _ _ ?s] => specialize (IH s) end. lia.
Qed.

Lemma withRetries_invocations (fn : operation T) options :
  1 <= invocations (withRetries fn options) <= S (maxRetries_of options).
Proof. unfold withRetries. apply retry_loop_invocations. Qed.

End Retry.

(** *** The invocation that decides a run *)

Section Decisive.
Import OpenAI Policy.

Context {T : Type}.

Lemma retry_loop_decisive (fn : operation T) (base : Q) :
  forall remaining attempt slept,
    exists k,
      attempt <= k <= attempt + remaining
      /\ (forall j, attempt <= j < k -> exists err, fn j = inl err /\ retryable err)
      /\ (forall err, fn k = inl err -> retryable err -> k = attempt + remaining)
      /\ retry_loop fn base remaining attempt slept
         = {| outcome := settled_by fn k;
              invocations := S k;
              delays := (slept ++ map (sleep_after fn base) (seq attempt (k - attempt)))%list |}.
Proof.
  induction remaining as [|r IH]; intros attempt slept.
  - exists attempt. split; [lia |]. split; [intros j Hj; lia |]. split; [intros; lia |].
    rewrite Nat.sub_diag, app_nil_r. unfold settled_by, rethrown. simpl.
    destruct (fn attempt) as [err | v]; [destruct (is_quota err) |]; reflexivity.
  - simpl. destruct (fn attempt) as [err | v] eqn:Hfn.
    2: { exists attempt. split; [lia |]. split; [intros j Hj; lia |].
         split; [intros e He; rewrite Hfn in He; discriminate He |].
         rewrite Nat.sub_diag, app_nil_r. unfold settled_by. rewrite Hfn. reflexivity. }
    destruct (is_quota err) eqn:Hquota.
    { exists attempt. split; [lia |]. split; [intros j Hj; lia |].
      split; [intros e He [Hq _]; rewrite Hfn in He; injection He as <-; congruence |].
      rewrite Nat.sub_diag, app_nil_r. unfold settled_by, rethrown. rewrite Hfn, Hquota.
      reflexivity. }
    assert (forall delay,
               (status_is_429 err || status_is_5xx err) = true ->
               delay = sleep_after fn base attempt ->
               exists k,
                 attempt <= k <= attempt + S r
                 /\ (forall j, attempt <= j < k -> exists e, fn j = inl e /\ retryable e)
                 /\ (forall e, fn k = inl e -> retryable e -> k = attempt + S r)
                 /\ retry_loop fn base r (S attempt) (slept ++ [delay])
                    = {| outcome := settled_by fn k;
                         invocations := S k;
                         delays := (slept ++ map (sleep_after fn base)
                                                 (seq attempt (k - attempt)))%list |})
      as Hretry.
    { intros delay Hstatus ->.
      destruct (IH (S attempt) (slept ++ [sleep_after fn base attempt])%list)
        as (k & Hk & Hbefore & Hlast & ->).
      exists k. split; [lia |]. split; [| split; [intros e He Hr; rewrite (Hlast e He Hr); lia |]].
      - intros j Hj. destruct (Nat.eq_dec j attempt) as [-> | Hne].
        + exists err. split; [exact Hfn | split; assumption].
        + apply Hbefore. lia.
      - replace (k - attempt) with (S (k - S attempt)) by lia.
        simpl. rewrite <- app_assoc. reflexivity. }
    destruct (status_is_429 err) eqn:H429.
    { apply Hretry; [reflexivity |].
      unfold sleep_after, retry_delay. rewrite Hfn, H429. reflexivity. }
    destruct (status_is_5xx err) eqn:H5xx.
    { apply Hretry; [reflexivity |].
      unfold sleep_after, retry_delay. rewrite Hfn, H429. reflexivity. }
    exists attempt. split; [lia |]. split; [intros j Hj; lia |].
    split.
    + intros e He [_ Hstatus]. rewrite Hfn in He. injection He as <-.
      rewrite H429, H5xx in Hstatus. discriminate Hstatus.
    + rewrite Nat.sub_diag, app_nil_r. unfold settled_by, rethrown. rewrite Hfn, Hquota.
      reflexivity.
Qed.

(** The wrapper settles as the deciding invocation does. *)
Lemma withRetries_decisive (fn : operation T) (options : option RetryOptions) :
  exists k,
    decisive fn (maxRetries_of options) k
    /\ withRetries fn options
       = {| outcome := settled_by fn k;
            invocations := S k;
            delays := map (sleep_after fn (baseDelayMs_of options)) (seq 0 k) |}.
Proof.
  unfold withRetries.
  destruct (retry_loop_decisive fn (baseDelayMs_of options) (maxRetries_of options) 0 [])
    as (k & Hk & Hbefore & Hlast & Hrun).
  exists k. split.
  - split; [lia |]. split; [intros j Hj; apply Hbefore; lia | exact Hlast].
  - rewrite Hrun, Nat.sub_0_r. reflexivity.
Qed.

End Decisive.

(** C4: when the operation fails twice with a non-quota HTTP 429 and then
    succeeds, the wrapper (with its default of five retries, or any setting
    that allows two) returns that result after exactly three invocations; when
    the first invocation fails with a quota error (the code
    [insufficient_quota], or a message matching [quota]), it invokes the
    operation exactly once and fails with the quota error: status 429, code
    [insufficient_quota]. *)
Theorem withRetries_policy {T : Type} (fn : OpenAI.operation T)
        (options : option OpenAI.RetryOptions) :
  (forall e1 e2 v,
      2 <= OpenAI.maxRetries_of options ->
      fn 0 = inl e1 -> OpenAI.rate_limited e1 ->
      fn 1 = inl e2 -> OpenAI.rate_limited e2 ->
      fn 2 = inr v ->
      OpenAI.outcome (OpenAI.withRetries fn options) = inr v
      /\ OpenAI.invocations (OpenAI.withRetries fn options) = 3)
  /\ (forall e,
         fn 0 = inl e -> OpenAI.is_quota e = true ->
         OpenAI.outcome (OpenAI.withRetries fn options) = inl OpenAI.QuotaExceededError
         /\ OpenAI.invocations (OpenAI.withRetries fn options) = 1
         /\ OpenAI.err_status OpenAI.QuotaExceededError = Some 429%Z
         /\ OpenAI.err_code OpenAI.QuotaExceededError = Some "insufficient_quota").
Proof.
  split.
  - intros e1 e2 v Hmax H0 R0 H1 R1 H2. unfold OpenAI.withRetries.
    destruct (OpenAI.maxRetries_of options) as [|[|r]]; [lia | lia |].
    rewrite (retry_loop_rate_limited _ _ _ _ _ _ H0 R0).
    rewrite (retry_loop_rate_limited _ _ _ _ _ _ H1 R1).
    rewrite (retry_loop_success _ _ _ _ _ _ H2). simpl. auto.
  - intros e H0 Q. unfold OpenAI.withRetries.
    rewrite (retry_loop_quota _ _ _ _ _ _ H0 Q). simpl. auto.
Qed.

Lemma withRetries_policy_witness :
  (OpenAI.outcome (OpenAI.withRetries Fixtures.flaky None) = inr "ok"
   /\ OpenAI.invocations (OpenAI.withRetries Fixtures.flaky None) = 3)
  /\ (OpenAI.outcome (OpenAI.withRetries Fixtures.exhausted None)
      = inl OpenAI.QuotaExceededError
      /\ OpenAI.invocations (OpenAI.withRetries Fixtures.exhausted None) = 1).
Proof.
  split.
  - apply (proj1 (withRetries_policy Fixtures.flaky None)
                 Fixtures.rate_limit_error Fixtures.rate_limit_error "ok").
    + vm_compute. lia.
    + reflexivity.
    + split; reflexivity.
    + reflexivity.
    + split; reflexivity.
    + reflexivity.
  - destruct (proj2 (withRetries_policy Fixtures.exhausted None)
                    Fixtures.quota_error eq_refl eq_refl) as (Ho & Hi & _).
    split; assumption.
Defined.

(** ** The embedding client *)

Section Embeddings.
Import OpenAI Routes.

Variable createEmbeddings : list string -> operation CreateEmbeddingResponse.

Lemma filter_valid_all (texts : list string) :
  Forall (fun t => is_valid_text t = true) texts ->
  List.filter is_valid_text texts = texts.
Proof.
  induction 1 as [|t texts Ht _ IH]; simpl; [reflexivity |].
  rewrite Ht, IH. reflexivity.
Qed.

Lemma filter_valid_none (texts : list string) :
  Forall (fun t => is_valid_text t = false) texts ->
  List.filter is_valid_text texts = [].
Proof.
  induction 1 as [|t texts Ht _ IH]; simpl; [reflexivity |].
  rewrite Ht. exact IH.
Qed.

Lemma generateEmbeddings_success (texts : list string) response :
  texts <> [] ->
  Forall (fun t => is_valid_text t = true) texts ->
  outcome (withRetries (createEmbeddings texts) None) = inr response ->
  exists tokens,
    settled (generateEmbeddings createEmbeddings texts)
    = inr (map (fun item => {| embedding := item_embedding item; tokens := tokens |})
               (data response)).
Proof.
  intros Hne Hvalid Hrun. unfold generateEmbeddings.
  rewrite (filter_valid_all _ Hvalid).
  destruct texts as [|t rest]; [contradiction |].
  rewrite Hrun. simpl. eexists. reflexivity.
Qed.

End Embeddings.

(** C5, as the specification states it, fails: a batch holding one blank
    text does not fail, it returns the empty list. *)
Lemma blank_batch_counterexample :
  ~ (forall createEmbeddings texts,
        texts <> [] ->
        Forall (fun t => OpenAI.is_valid_text t = false) texts ->
        exists e,
          OpenAI.settled (OpenAI.generateEmbeddings createEmbeddings texts) = inl e).
Proof.
  intros H.
  destruct (H Fixtures.unreachable [" "]) as [e He].
  - discriminate.
  - repeat constructor.
  - vm_compute in He. discriminate He.
Qed.

(** C5, amended: for every list of texts that are all empty or
    whitespace-only, [generateEmbeddings] returns the empty list of vectors
    and does not call the provider; it does not fail. *)
Theorem blank_batch_returns_empty
        (createEmbeddings : list string -> OpenAI.operation OpenAI.CreateEmbeddingResponse)
        (texts : list string) :
  Forall (fun t => OpenAI.is_valid_text t = false) texts ->
  OpenAI.generateEmbeddings createEmbeddings texts
  = {| OpenAI.settled := inr []; OpenAI.provider_calls := 0 |}.
Proof.
  intros Hblank. unfold OpenAI.generateEmbeddings.
  rewrite (filter_valid_none _ Hblank).
  destruct texts; reflexivity.
Qed.

Lemma blank_batch_returns_empty_witness :
  OpenAI.generateEmbeddings Fixtures.unreachable [EmptyString; " "; "   "]
  = {| OpenAI.settled := inr []; OpenAI.provider_calls := 0 |}.
Proof.
  apply (blank_batch_returns_empty Fixtures.unreachable [EmptyString; " "; "   "]).
  repeat constructor.
Defined.

(** C7: a batch of [N] chunk texts, none of them blank (as is every chunk
    the chunker produces), goes to the provider unchanged; when the provider answers with one vector per input in input
    order, the client returns exactly [N] vectors, the one at index [i] being
    the embedding of the chunk at index [i], and the ingestion flow pairs the
    chunk at index [i] with that vector.  The empty batch returns the empty
    list. *)
Theorem embeddings_index_aligned
        (createEmbeddings : list string -> OpenAI.operation OpenAI.CreateEmbeddingResponse)
        (randomUUID : nat -> string) (embed_of : string -> list float)
        (textChunks : list string) (documentId : string)
        (response : OpenAI.CreateEmbeddingResponse) :
  OpenAI.settled (OpenAI.generateEmbeddings createEmbeddings []) = inr []
  /\ (forall text maxTokens,
         Forall (fun t => OpenAI.is_valid_text t = true)
                (TextProcessing.splitTextIntoChunks text maxTokens))
  /\ (Forall (fun t => OpenAI.is_valid_text t = true) textChunks ->
      OpenAI.outcome (OpenAI.withRetries (createEmbeddings textChunks) None) = inr response ->
      OpenAI.aligned embed_of textChunks response ->
      exists vectors paired,
        OpenAI.settled (OpenAI.generateEmbeddings createEmbeddings textChunks) = inr vectors
        /\ List.length vectors = List.length textChunks
        /\ (forall i t, textChunks !! i = Some t ->
                        OpenAI.embedding <$> vectors !! i = Some (embed_of t))
        /\ Routes.upload_embeddings createEmbeddings randomUUID textChunks documentId
           = Routes.Continue paired
        /\ List.length paired = List.length textChunks
        /\ (forall i t, textChunks !! i = Some t ->
                        exists p, paired !! i = Some p
                                  /\ Routes.pc_text p = Some t
                                  /\ Routes.pc_embedding p = embed_of t
                                  /\ Routes.pc_documentId p = documentId)).
Proof.
  split; [reflexivity |].
  split; [apply chunks_are_valid_texts |].
  intros Hvalid Hrun Haligned.
  destruct textChunks as [|t0 rest] eqn:Etexts.
  - (* the empty batch: no call, and the pairing is empty *)
    exists [], []. unfold Routes.upload_embeddings. simpl.
    repeat split; intros i t Hi; rewrite lookup_nil in Hi; discriminate Hi.
  - rewrite <- Etexts in *.
    assert (textChunks <> []) as Hne by (rewrite Etexts; discriminate).
    destruct (generateEmbeddings_success createEmbeddings textChunks response Hne Hvalid Hrun)
      as [tokens Hsettled].
    set (vectors := map (fun item => {| OpenAI.embedding := OpenAI.item_embedding item;
                                        OpenAI.tokens := tokens |})
                        (OpenAI.data response)) in *.
    assert (map OpenAI.embedding vectors = map embed_of textChunks) as Hmap.
    { unfold vectors. rewrite map_map. simpl. exact Haligned. }
    assert (List.length vectors = List.length textChunks) as Hlen.
    { rewrite <- (length_map OpenAI.embedding vectors), Hmap. apply length_map. }
    assert (forall i t, textChunks !! i = Some t ->
                        OpenAI.embedding <$> vectors !! i = Some (embed_of t)) as Hlookup.
    { intros i t Hi. rewrite <- list_lookup_fmap.
      change (fmap OpenAI.embedding vectors) with (map OpenAI.embedding vectors).
      rewrite Hmap. change (map embed_of textChunks) with (fmap embed_of textChunks).
      rewrite list_lookup_fmap, Hi. reflexivity. }
    eexists vectors, _. split; [exact Hsettled |].
    split; [exact Hlen |]. split; [exact Hlookup |].
    unfold Routes.upload_embeddings. rewrite Hsettled.
    split; [reflexivity |]. split.
    + rewrite length_imap. exact Hlen.
    + intros i t Hi. rewrite list_lookup_imap.
      specialize (Hlookup i t Hi).
      destruct (vectors !! i) as [v |]; [| discriminate Hlookup].
      simpl in *. eexists. split; [reflexivity |]. simpl.
      repeat split; [exact Hi | congruence].
Qed.

Lemma embeddings_index_aligned_witness :
  exists vectors paired,
    OpenAI.settled (OpenAI.generateEmbeddings Fixtures.length_provider ["ab"; "cde"])
    = inr vectors
    /\ map OpenAI.embedding vectors = [[2%float]; [3%float]]
    /\ Routes.upload_embeddings Fixtures.length_provider Fixtures.uuid ["ab"; "cde"] "d1"
       = Routes.Continue paired
    /\ map (fun p => (Routes.pc_text p, Routes.pc_embedding p)) paired
       = [(Some "ab", [2%float]); (Some "cde", [3%float])].
Proof.
  destruct (proj2 (proj2 (embeddings_index_aligned
                     Fixtures.length_provider Fixtures.uuid Fixtures.length_embedding
                     ["ab"; "cde"] "d1"
                     {| OpenAI.data := [ {| OpenAI.item_embedding := [2%float] |};
                                         {| OpenAI.item_embedding := [3%float] |} ];
                        OpenAI.usage_total_tokens := Some 2 |})))
    as (vectors & paired & Hs & _ & _ & Hu & _).
  - repeat constructor.
  - reflexivity.
  - reflexivity.
  - exists vectors, paired.
    split; [exact Hs |].
    vm_compute in Hs. injection Hs as <-.
    vm_compute in Hu. injection Hu as <-.
    repeat split; reflexivity.
Defined.

(** ** Comparisons of binary64 values *)

Lemma SFcompare_antisym (a b : SpecFloat.spec_float) :
  SpecFloat.SFcompare b a = option_map CompOpp (SpecFloat.SFcompare a b).
Proof.
  destruct a as [sa | sa | | sa ma ea], b as [sb | sb | | sb mb eb]; simpl;
    try reflexivity;
    try (destruct sa; reflexivity); try (destruct sb; reflexivity);
    try (destruct sa, sb; reflexivity).
  destruct sa, sb; simpl; try reflexivity;
    rewrite (Z.compare_antisym ea eb);
    destruct (ea ?= eb)%Z; simpl; try reflexivity;
    rewrite (ZC4 mb ma); reflexivity.
Qed.

(** [x <= y] excludes [y < x]; neither holds when one side is [NaN]. *)
Lemma leb_not_ltb (x y : float) :
  PrimFloat.leb x y = true -> PrimFloat.ltb y x = false.
Proof.
  rewrite leb_spec, ltb_spec. unfold SpecFloat.SFleb, SpecFloat.SFltb.
  rewrite (SFcompare_antisym (Prim2SF x) (Prim2SF y)).
  destruct (SpecFloat.SFcompare (Prim2SF x) (Prim2SF y)) as [[| |] |]; simpl; congruence.
Qed.

(** ** Context assembly in the query flow *)

Section Context.
Import Types OpenAI Routes.



Lemma retained_none (searchResults : list VectorSearchResult) :
  Forall (fun r => PrimFloat.leb (vr_score r) 0.7 = true) searchResults ->
  retained searchResults = [].
Proof.
  intros H. unfold retained.
  replace (List.filter relevant searchResults) with (@nil VectorSearchResult);
    [reflexivity |].
  symmetry. induction H as [|r l Hr _ IH]; simpl; [reflexivity |].
  unfold relevant at 1. rewrite (leb_not_ltb _ _ Hr). exact IH.
Qed.

End Context.



(** ** The completion call of the query flow *)

Section Completion.
Import Types OpenAI Routes.

Variable createChatCompletion : ChatRequest -> operation ChatCompletion.

(** An empty context is sent exactly as an absent one. *)
Lemma empty_context_is_absent (prompt userQuery : string) :
  generateChatCompletion createChatCompletion prompt userQuery (Some EmptyString)
  = generateChatCompletion createChatCompletion prompt userQuery None.
Proof. reflexivity. Qed.

Lemma generateChatCompletion_calls (prompt userQuery : string) (context : option string) :
  provider_calls (generateChatCompletion createChatCompletion prompt userQuery context)
  = invocations (withRetries (createChatCompletion (chat_request prompt userQuery context))
                             None).
Proof. reflexivity. Qed.

(** The completion client settles as the deciding invocation of the provider
    does. *)
Lemma generateChatCompletion_decisive (prompt userQuery : string) (context : option string) :
  let request := chat_request prompt userQuery context in
  exists k,
    Policy.decisive (createChatCompletion request) 5 k
    /\ provider_calls (generateChatCompletion createChatCompletion prompt userQuery context)
       = S k
    /\ settled (generateChatCompletion createChatCompletion prompt userQuery context)
       = match createChatCompletion request k with
         | inr reply =>
             match first_choice_content reply with
             | Some content =>
                 if JS.truthy content then inr (JS.trim content)
                 else inl (Error "No response generated")
             | None => inl (Error "No response generated")
             end
         | inl err => inl (rethrow (Policy.rethrown err) "Failed to generate response")
         end.
Proof.
  intros request.
  destruct (withRetries_decisive (createChatCompletion request) None) as (k & Hk & Hrun).
  exists k. split; [exact Hk |].
  unfold generateChatCompletion. fold request. rewrite Hrun. simpl.
  split; [reflexivity |]. unfold Policy.settled_by.
  destruct (createChatCompletion request k) as [err | reply]; [reflexivity |].
  destruct (first_choice_content reply) as [content |]; [| reflexivity].
  destruct (JS.truthy content); reflexivity.
Qed.

End Completion.

(** C10: when every search result has a score of at most 0.7, the query flow
    goes on to the completion provider: the context is the empty string, the
    references are empty, the request carries the system prompt and, as user
    message, the raw query without the [Context information:] framing, exactly
    as when no context is given, and the provider is invoked at least once
    with that request.  The provider is invoked with it until an invocation
    decides, every earlier one having failed with a failure that is retried,
    and the reply of the route is the one of that invocation: the trimmed
    content of its first choice, or status 500 when it failed or returned no
    content. *)
Theorem no_relevant_result_still_completes
        (toFixed3 : float -> string)
        (createChatCompletion : OpenAI.ChatRequest -> OpenAI.operation OpenAI.ChatCompletion)
        (searchResults : list Types.VectorSearchResult) (query : string) :
  Forall (fun r => PrimFloat.leb (Types.vr_score r) 0.7 = true) searchResults ->
  let answered := Routes.chat_answer toFixed3 createChatCompletion searchResults query in
  let sent :=
    {| OpenAI.messages :=
         [ {| OpenAI.role := OpenAI.system;
              OpenAI.content := Routes.systemPrompt EmptyString |};
           {| OpenAI.role := OpenAI.user; OpenAI.content := query |} ];
       OpenAI.max_tokens := 1000;
       OpenAI.temperature := 0.7%float |} in
  Routes.context_of searchResults = EmptyString
  /\ Routes.references answered = []
  /\ Routes.request answered = sent
  /\ Routes.times_sent answered
     = OpenAI.invocations (OpenAI.withRetries (createChatCompletion sent) None)
  /\ 1 <= Routes.times_sent answered
  /\ Routes.answer answered
     = match OpenAI.settled
               (OpenAI.generateChatCompletion createChatCompletion
                                              (Routes.systemPrompt EmptyString) query None) with
       | inr a => Routes.Continue a
       | inl _ => Routes.Respond 500 "Failed to generate response"
       end
  /\ exists k,
      Policy.decisive (createChatCompletion sent) 5 k
      /\ Routes.times_sent answered = S k
      /\ Routes.answer answered
         = match createChatCompletion sent k with
           | inr reply =>
               match OpenAI.first_choice_content reply with
               | Some content =>
                   if JS.truthy content then Routes.Continue (JS.trim content)
                   else Routes.Respond 500 "Failed to generate response"
               | None => Routes.Respond 500 "Failed to generate response"
               end
           | inl _ => Routes.Respond 500 "Failed to generate response"
           end.
Proof.
  intros Hweak answered sent.
  assert (Routes.context_of searchResults = EmptyString) as Hcontext.
  { unfold Routes.context_of, Routes.contextChunks.
    rewrite (retained_none _ Hweak). reflexivity. }
  subst answered. unfold Routes.chat_answer, Routes.references_of.
  rewrite Hcontext, (retained_none _ Hweak).
  cbn [Routes.references Routes.request Routes.times_sent Routes.answer map].
  split; [reflexivity |]. split; [reflexivity |]. split; [reflexivity |].
  split; [reflexivity |].
  split; [apply (withRetries_invocations (createChatCompletion sent) None) |].
  split; [reflexivity |].
  destruct (generateChatCompletion_decisive
              createChatCompletion (Routes.systemPrompt EmptyString) query (Some EmptyString))
    as (k & Hk & Hcalls & Hsettled).
  exists k. split; [exact Hk |]. split; [exact Hcalls |].
  rewrite Hsettled.
  change (OpenAI.chat_request (Routes.systemPrompt EmptyString) query (Some EmptyString))
    with sent.
  destruct (createChatCompletion sent k) as [err | reply]; [reflexivity |].
  destruct (OpenAI.first_choice_content reply) as [content |]; [| reflexivity].
  destruct (JS.truthy content); reflexivity.
Qed.

Lemma no_relevant_result_still_completes_witness :
  Routes.context_of Fixtures.weak_results = EmptyString
  /\ Routes.references
       (Routes.chat_answer Fixtures.unprinted Fixtures.silent Fixtures.weak_results
                           "What is a monad?") = []
  /\ map OpenAI.content
         (OpenAI.messages
            (Routes.request
               (Routes.chat_answer Fixtures.unprinted Fixtures.silent Fixtures.weak_results
                                   "What is a monad?")))
     = [Routes.systemPrompt EmptyString; "What is a monad?"]
  /\ Routes.times_sent
       (Routes.chat_answer Fixtures.unprinted Fixtures.silent Fixtures.weak_results
                           "What is a monad?") = 1
  /\ Routes.answer
       (Routes.chat_answer Fixtures.unprinted Fixtures.silent Fixtures.weak_results
                           "What is a monad?")
     = Routes.Continue "I don't have enough information.".
Proof.
  destruct (no_relevant_result_still_completes
              Fixtures.unprinted Fixtures.silent Fixtures.weak_results "What is a monad?")
    as (Hc & Hr & Hq & Ht & _ & _ & k & _ & _ & Ha).
  - repeat constructor.
  - split; [exact Hc |]. split; [exact Hr |]. split; [| split].
    + rewrite Hq. reflexivity.
    + rewrite Ht. reflexivity.
    + rewrite Ha. reflexivity.
Defined.

(** ** Owner isolation of the two vector stores *)

Section Isolation.
Import Types OpenAI.

Lemma Forall_ranked {A : Type} (R : relation A) `{!forall x y, Decision (R x y)}
      (P : A -> Prop) (k : nat) (l : list A) :
  Forall P l -> Forall P (take k (merge_sort R l)).
Proof.
  intros HP. apply Forall_take. rewrite merge_sort_Permutation. exact HP.
Qed.

Lemma owner_filter_scoped (owner : string) :
  owner <> EmptyString -> owner_filter (Some owner) = Some owner.
Proof.
  intros H. unfold owner_filter. apply truthy_true in H. rewrite H. reflexivity.
Qed.

Variable metric : list float -> list float -> float.

(** A filtered query returns only records that carry the field with the
    requested value. *)
Lemma query_filtered (req : Pinecone.QueryRequest) (st : Pinecone.State)
      (field value : string) (matches : list Pinecone.Match) :
  Pinecone.filter_eq req = Some (field, value) ->
  Pinecone.query metric req st = Some matches ->
  Forall (fun m => exists r, Pinecone.records st !! Pinecone.match_id m = Some r
                             /\ Pinecone.stored_metadata r !! field = Some value)
         matches.
Proof.
  intros Hf. unfold Pinecone.query.
  destruct (Pinecone.reachable st); [| discriminate].
  intros [= <-]. apply Forall_ranked.
  apply List.Forall_map, List.Forall_forall. intros [k r] Hin.
  apply List.filter_In in Hin as [Hin Hmatch].
  apply list_elem_of_In, elem_of_map_to_list in Hin.
  exists r. split; [exact Hin |].
  unfold Pinecone.matches_filter in Hmatch. rewrite Hf in Hmatch. simpl in Hmatch.
  destruct (Pinecone.stored_metadata r !! field) as [x |]; [| discriminate].
  apply String.eqb_eq in Hmatch. congruence.
Qed.

Lemma ensure_index_records env (st st1 : Pinecone.State) :
  Pinecone.ensure_index env st = inr st1 -> Pinecone.records st1 = Pinecone.records st.
Proof.
  unfold Pinecone.ensure_index, Pinecone.initializePinecone.
  destruct (Pinecone.handle st); [intros [= <-]; reflexivity |].
  destruct (env_truthy env "PINECONE_API_KEY"); [intros [= <-]; reflexivity | discriminate].
Qed.

Lemma remote_search_scoped env q topK (owner : string) (st st' : Pinecone.State) results :
  owner <> EmptyString ->
  Pinecone.searchSimilarEmbeddings metric env q topK (Some owner) st = (inr results, st') ->
  Forall (fun r => Pinecone.owner_of st (vr_id r) = Some owner) results.
Proof.
  intros Howner. unfold Pinecone.searchSimilarEmbeddings.
  destruct (Pinecone.ensure_index env st) as [e | st1] eqn:E; [discriminate |].
  destruct (Pinecone.query metric _ st1) as [matches |] eqn:Q; [| discriminate].
  intros [= <- <-].
  apply (query_filtered _ _ "userId" owner) in Q.
  - apply List.Forall_map. eapply Forall_impl; [exact Q |].
    intros m [r [Hr Hmeta]]. unfold Pinecone.owner_of. simpl.
    rewrite <- (ensure_index_records _ _ _ E), Hr. exact Hmeta.
  - unfold Pinecone.search_request.
    rewrite (owner_filter_scoped _ Howner). reflexivity.
Qed.

(** Every row of the scoped join is a chunk of a document of the owner. *)
Lemma joined_scoped (owner : string) (st : Database.State) :
  owner <> EmptyString ->
  Forall (fun j => Database.owner_of st (fst (fst j)) = Some owner)
         (Database.joined (Some owner) st).
Proof.
  intros Howner. apply List.Forall_forall. intros [[cid c] d] Hin.
  apply list_elem_of_In, list_elem_of_omap in Hin as [[k c'] [Hk Hsel]].
  apply elem_of_map_to_list in Hk.
  rewrite (owner_filter_scoped _ Howner) in Hsel. simpl in Hsel.
  destruct (Database.documents st !! Database.documentId c') as [d' |] eqn:D;
    [| discriminate].
  destruct (String.eqb (Database.userId d') owner) eqn:U; [| discriminate].
  injection Hsel as <- <- <-. apply String.eqb_eq in U.
  unfold Database.owner_of. simpl. rewrite Hk. simpl. rewrite D. simpl. congruence.
Qed.

Lemma select_row_id q j row :
  Database.select_row q j = Some row -> Database.row_id row = fst (fst j).
Proof.
  destruct j as [[cid c] d]. unfold Database.select_row.
  destruct (Database.similarity q (Database.embedding c)); [| discriminate].
  intros [= <-]. reflexivity.
Qed.

Lemma relational_search_scoped q topK (owner : string) (st : Database.State) results :
  owner <> EmptyString ->
  Database.searchSimilarEmbeddingsInDB q topK (Some owner) st = inr results ->
  Forall (fun r => Database.owner_of st (vr_id r) = Some owner) results.
Proof.
  intros Howner. unfold Database.searchSimilarEmbeddingsInDB, Database.queryRaw.
  destruct (Database.available st); [| discriminate].
  destruct (mapM (Database.select_row q) (Database.joined (Some owner) st))
    as [rows |] eqn:M; [| discriminate].
  simpl. intros [= <-].
  apply List.Forall_map, Forall_ranked.
  apply mapM_Some_1 in M.
  pose proof (joined_scoped owner st Howner) as J.
  induction M as [|j row js rows Hsel _ IH]; [constructor |].
  apply Forall_cons in J as [Hj Hjs].
  constructor; [| exact (IH Hjs)].
  simpl. rewrite (select_row_id _ _ _ Hsel). exact Hj.
Qed.

End Isolation.

(** C1: a search scoped to an owner [A] (a non-empty identifier, which is
    what either store takes as a scope) returns, in the remote-index variant
    and in the relational variant alike, only chunks whose stored owner is
    [A], and so no chunk of a different owner [B]; the ranking is applied
    after the owner filter, so a chunk of another owner is not returned
    however close it is to the query. *)
Theorem owner_isolation (metric : list float -> list float -> float)
        (env : gmap string string) (queryEmbedding : list float) (topK : nat)
        (A : string) (remote : Pinecone.State) (relational : Database.State) :
  A <> EmptyString ->
  (forall results remote',
      Pinecone.searchSimilarEmbeddings metric env queryEmbedding topK (Some A) remote
      = (inr results, remote') ->
      Forall (fun r => Pinecone.owner_of remote (Types.vr_id r) = Some A
                       /\ forall B, B <> A ->
                                    Pinecone.owner_of remote (Types.vr_id r) <> Some B)
             results)
  /\ (forall results,
         Database.searchSimilarEmbeddingsInDB queryEmbedding topK (Some A) relational
         = inr results ->
         Forall (fun r => Database.owner_of relational (Types.vr_id r) = Some A
                          /\ forall B, B <> A ->
                                       Database.owner_of relational (Types.vr_id r) <> Some B)
                results).
Proof.
  intros HA. split.
  - intros results remote' Hsearch.
    eapply Forall_impl; [exact (remote_search_scoped _ _ _ _ _ _ _ _ HA Hsearch) |].
    intros r Hr. split; [exact Hr | congruence].
  - intros results Hsearch.
    eapply Forall_impl; [exact (relational_search_scoped _ _ _ _ _ HA Hsearch) |].
    intros r Hr. split; [exact Hr | congruence].
Qed.

(** Owner B holds the chunk closest to the query, and an unscoped search
    ranks it first; the search scoped to owner A returns A's chunks only. *)
Lemma owner_isolation_witness :
  (Fixtures.ids_of
     (fst (Pinecone.searchSimilarEmbeddings Fixtures.dot Fixtures.configured
                                            [1; 0]%float 5 None Fixtures.tagged_index))
   = ["c2"; "c1"]
   /\ exists results remote',
       Pinecone.searchSimilarEmbeddings Fixtures.dot Fixtures.configured
                                        [1; 0]%float 5 (Some "A") Fixtures.tagged_index
       = (inr results, remote')
       /\ map Types.vr_id results = ["c1"]
       /\ Forall (fun r => Pinecone.owner_of Fixtures.tagged_index (Types.vr_id r) = Some "A"
                            /\ forall B, B <> "A" ->
                                  Pinecone.owner_of Fixtures.tagged_index (Types.vr_id r)
                                  <> Some B)
                 results)
  /\ (Fixtures.ids_of
        (Database.searchSimilarEmbeddingsInDB [1; 0]%float 5 None Fixtures.library)
      = ["c2"; "c1"; "c3"]
      /\ exists results,
          Database.searchSimilarEmbeddingsInDB [1; 0]%float 5 (Some "A") Fixtures.library
          = inr results
          /\ map Types.vr_id results = ["c1"; "c3"]
          /\ Forall (fun r => Database.owner_of Fixtures.library (Types.vr_id r) = Some "A"
                               /\ forall B, B <> "A" ->
                                     Database.owner_of Fixtures.library (Types.vr_id r)
                                     <> Some B)
                    results).
Proof.
  destruct (owner_isolation Fixtures.dot Fixtures.configured [1; 0]%float 5 "A"
                            Fixtures.tagged_index Fixtures.library)
    as [Hremote Hrelational]; [discriminate |].
  split; (split; [vm_compute; reflexivity |]).
  - destruct (Pinecone.searchSimilarEmbeddings Fixtures.dot Fixtures.configured
                [1; 0]%float 5 (Some "A") Fixtures.tagged_index)
      as [[e | results] remote'] eqn:E.
    + vm_compute in E. discriminate E.
    + exists results, remote'. split; [reflexivity |].
      split; [| exact (Hremote results remote' eq_refl)].
      vm_compute in E. injection E as <- _. reflexivity.
  - destruct (Database.searchSimilarEmbeddingsInDB [1; 0]%float 5 (Some "A") Fixtures.library)
      as [e | results] eqn:E.
    + vm_compute in E. discriminate E.
    + exists results. split; [reflexivity |].
      split; [| exact (Hrelational results eq_refl)].
      vm_compute in E. injection E as <-. reflexivity.
Defined.

(** C2 does not hold of [storeEmbeddings]: the metadata it attaches to a
    record has the fields [text] and [documentId] and no owner field, under
    either name.  Evaluated on a chunk of owner A stored in an empty index:
    the index holds no owner for the record, the search scoped to A, whose
    filter is an equality on [userId], does not find it, and the unscoped
    search does. *)
Theorem stored_records_lack_owner :
  (forall item : Types.EmbeddingRecord,
      Pinecone.metadata (Pinecone.to_vector item) !! "userId" = None
      /\ Pinecone.metadata (Pinecone.to_vector item) !! "ownerId" = None
      /\ Pinecone.metadata (Pinecone.to_vector item) !! "text" = Some (Types.er_text item)
      /\ Pinecone.metadata (Pinecone.to_vector item) !! "documentId"
         = Some (Types.er_documentId item))
  /\ (let stored :=
        Pinecone.storeEmbeddings Fixtures.configured [Fixtures.chunk_of_A] Fixtures.fresh_index in
      fst stored = inr tt
      /\ Pinecone.owner_of (snd stored) "c1" = None
      /\ Fixtures.ids_of
           (fst (Pinecone.searchSimilarEmbeddings Fixtures.dot Fixtures.configured
                                                  [1; 0]%float 5 (Some "A") (snd stored)))
         = []
      /\ Fixtures.ids_of
           (fst (Pinecone.searchSimilarEmbeddings Fixtures.dot Fixtures.configured
                                                  [1; 0]%float 5 None (snd stored)))
         = ["c1"]).
Proof.
  split.
  - intros item. unfold Pinecone.to_vector. simpl. repeat split; reflexivity.
  - vm_compute. repeat split; reflexivity.
Qed.


(** ** Validation of the generated quiz *)

Section QuizValidation.
Import Routes Quiz.

Lemma filter_throwing_kept (f : json -> option bool) (l kept : list json) :
  filter_throwing f l = Some kept -> Forall (fun q => f q = Some true) kept.
Proof.
  revert kept. induction l as [|q l IH]; simpl; intros kept H.
  - injection H as <-. constructor.
  - destruct (f q) as [keep |] eqn:F; [| discriminate].
    destruct (filter_throwing f l) as [kept' |]; [| discriminate].
    injection H as <-. specialize (IH kept' eq_refl).
    destruct keep; [constructor; assumption | assumption].
Qed.

Lemma well_shaped_sound (q : json) :
  well_shaped q = Some true ->
  access_truthy (get q "question") = true
  /\ has_four_options q /\ correctAnswer_is_number q.
Proof.
  unfold well_shaped, has_four_options, correctAnswer_is_number. intros H.
  assert (access_truthy (get q "question") && access_truthy (get q "options")
          && is_array (get q "options") && array_length_is (get q "options") 4
          && is_number (get q "correctAnswer") = true) as H'
      by (destruct q; congruence).
  clear H.
  apply andb_prop in H' as [H' Hnumber].
  apply andb_prop in H' as [H' Hlength].
  apply andb_prop in H' as [H' _].
  apply andb_prop in H' as [Hquestion _].
  split; [exact Hquestion |]. split.
  - destruct (get q "options") as [| | v]; try discriminate Hlength.
    destruct v; try discriminate Hlength.
    apply Nat.eqb_eq in Hlength. eauto.
  - destruct (get q "correctAnswer") as [| | v]; try discriminate Hnumber.
    destruct v; try discriminate Hnumber. eauto.
Qed.

Lemma slice0_length (n : Q) (l : list json) :
  (1 <= n)%Q -> (inject_Z (Z.of_nat (List.length (slice0 n l))) <= n)%Q.
Proof.
  intros Hn. unfold slice0.
  assert (1 <= Qfloor n)%Z as Hfloor.
  { change 1%Z with (Qfloor 1). apply Qfloor_resp_le. exact Hn. }
  apply Qle_trans with (inject_Z (Qfloor n)); [| apply Qfloor_le].
  rewrite <- Zle_Qle, length_take. lia.
Qed.

End QuizValidation.

(** C9, as the specification states it, fails: a generated question with
    four options and [correctAnswer: 7] passes the shape filter and is
    returned. *)
Lemma quiz_range_counterexample :
  ~ (forall numQuestions quizQuestions validatedQuestions,
        Quiz.validate_questions numQuestions quizQuestions
        = Routes.Continue validatedQuestions ->
        Forall (fun q => Quiz.has_four_options q /\ Quiz.correctAnswer_in_range q)
               validatedQuestions
        /\ (inject_Z (Z.of_nat (List.length validatedQuestions)) <= numQuestions)%Q).
Proof.
  intros H.
  destruct (H 5%Q (Quiz.JArr [Fixtures.stray_question]) [Fixtures.stray_question])
    as [Hall _]; [vm_compute; reflexivity |].
  apply Forall_cons in Hall as [[_ Hrange] _].
  destruct Hrange as [i [Hi Hrange]].
  vm_compute in Hi. injection Hi as Hnum.
  lia.
Qed.

(** C9, amended: every quiz question returned to the caller has a
    non-empty [question], exactly 4 answer options and a [correctAnswer] of
    type number, which is not checked to be an integer or to lie in the range
    0..3; the number of returned questions never exceeds the requested
    [numQuestions]. *)
Theorem quiz_questions_shape (numQuestions : Q) (quizQuestions : Quiz.json)
        (validatedQuestions : list Quiz.json) :
  Quiz.validate_questions numQuestions quizQuestions = Routes.Continue validatedQuestions ->
  Forall (fun q => Quiz.access_truthy (Quiz.get q "question") = true
                   /\ Quiz.has_four_options q /\ Quiz.correctAnswer_is_number q)
         validatedQuestions
  /\ (inject_Z (Z.of_nat (List.length validatedQuestions)) <= numQuestions)%Q.
Proof.
  unfold Quiz.validate_questions.
  destruct (Quiz.bad_numQuestions numQuestions) eqn:Hbad; [discriminate |].
  unfold Quiz.bad_numQuestions in Hbad.
  apply orb_false_elim in Hbad as [Hbad _].
  apply orb_false_elim in Hbad as [_ Hmin].
  apply negb_false_iff, Qle_bool_iff in Hmin.
  destruct quizQuestions as [| | | | items |]; try discriminate.
  destruct items as [|q0 items]; [discriminate |].
  destruct (Quiz.filter_throwing Quiz.well_shaped (q0 :: items)) as [kept |] eqn:F;
    [| discriminate].
  destruct (Quiz.slice0 numQuestions kept) as [|v validated] eqn:S; [discriminate |].
  intros [= <-]. rewrite <- S. split.
  - unfold Quiz.slice0. apply Forall_take.
    eapply Forall_impl; [exact (filter_throwing_kept _ _ _ F) |].
    intros q. apply well_shaped_sound.
  - apply slice0_length. exact Hmin.
Qed.

Lemma quiz_questions_shape_witness :
  Quiz.validate_questions
    2 (Quiz.JArr [Fixtures.sound_question; Quiz.JStr "noise"; Fixtures.stray_question;
                  Fixtures.sound_question])
  = Routes.Continue [Fixtures.sound_question; Fixtures.stray_question]
  /\ Forall (fun q => Quiz.access_truthy (Quiz.get q "question") = true
                      /\ Quiz.has_four_options q /\ Quiz.correctAnswer_is_number q)
            [Fixtures.sound_question; Fixtures.stray_question].
Proof.
  assert (Quiz.validate_questions
            2 (Quiz.JArr [Fixtures.sound_question; Quiz.JStr "noise";
                          Fixtures.stray_question; Fixtures.sound_question])
          = Routes.Continue [Fixtures.sound_question; Fixtures.stray_question]) as E
      by (vm_compute; reflexivity).
  split; [exact E |].
  exact (proj1 (quiz_questions_shape _ _ _ E)).
Defined.

(** ** The two defects in general *)

Section Defects.
Import Types OpenAI Routes.

Variable metric : list float -> list float -> float.

(** No record written by [storeEmbeddings] gains an owner tag. *)
Lemma upsert_untagged (items : list EmbeddingRecord) (m : gmap string Pinecone.Stored) :
  (forall k r, m !! k = Some r -> Pinecone.stored_metadata r !! "userId" = None) ->
  forall k r,
    foldl (fun m v => <[Pinecone.id v := {| Pinecone.stored_values := Pinecone.values v;
                                            Pinecone.stored_metadata := Pinecone.metadata v |}]> m)
          m (map Pinecone.to_vector items) !! k = Some r ->
    Pinecone.stored_metadata r !! "userId" = None.
Proof.
  revert m. induction items as [|item items IH]; intros m Hm k r; simpl; [apply Hm |].
  apply IH. intros k' r' Hk'.
  apply lookup_insert_Some in Hk' as [[_ <-] | [_ Hk']]; [reflexivity | eauto].
Qed.

Lemma filter_nothing {A : Type} (f : A -> bool) (l : list A) :
  (forall x, In x l -> f x = false) -> List.filter f l = [].
Proof.
  induction l as [|x l IH]; intros H; simpl; [reflexivity |].
  rewrite (H x) by (now left). apply IH. intros y Hy. apply H. now right.
Qed.

(** An index filled by [storeEmbeddings] alone answers every owner-scoped
    search with no result. *)
Lemma stored_chunks_unreachable_by_owner env (items : list EmbeddingRecord)
      (st st' st'' : Pinecone.State) q topK (owner : string) found :
  Pinecone.records st = ∅ ->
  Pinecone.storeEmbeddings env items st = (inr tt, st') ->
  owner <> EmptyString ->
  Pinecone.searchSimilarEmbeddings metric env q topK (Some owner) st' = (inr found, st'') ->
  found = [].
Proof.
  intros Hempty Hstore Howner.
  assert (forall k r, Pinecone.records st' !! k = Some r ->
                      Pinecone.stored_metadata r !! "userId" = None) as Huntagged.
  { revert Hstore. unfold Pinecone.storeEmbeddings.
    destruct (Pinecone.ensure_index env st) as [e | st1] eqn:E; [discriminate |].
    unfold Pinecone.upsert. destruct (Pinecone.reachable st1); [| discriminate].
    intros [= <-]. simpl. apply upsert_untagged.
    rewrite (ensure_index_records _ _ _ E), Hempty. intros k r Hk.
    rewrite lookup_empty in Hk. discriminate Hk. }
  unfold Pinecone.searchSimilarEmbeddings.
  destruct (Pinecone.ensure_index env st') as [e | st1] eqn:E; [discriminate |].
  unfold Pinecone.query. destruct (Pinecone.reachable st1); [| discriminate].
  intros [= <- _].
  rewrite filter_nothing; [cbn; rewrite take_nil; reflexivity |].
  intros [k r] Hin. apply list_elem_of_In, elem_of_map_to_list in Hin.
  rewrite (ensure_index_records _ _ _ E) in Hin.
  unfold Pinecone.matches_filter, Pinecone.search_request.
  rewrite (proj2 (truthy_true owner) Howner). simpl.
  rewrite (Huntagged k r Hin). reflexivity.
Qed.

(** With the remote index configured, a failed remote store sends the chunks
    to the database, and the query flow still searches the remote index. *)
Lemma fallback_is_searched_remotely (embeddings : list EmbeddingRecord) (w : World) e p d :
  env_truthy (env w) "PINECONE_API_KEY" = true ->
  Pinecone.storeEmbeddings (env w) embeddings (pinecone w) = (inl e, p) ->
  Database.storeEmbeddingsInDB embeddings (database w) = (inr tt, d) ->
  fst (upload_store embeddings w) = Continue "database"
  /\ database (snd (upload_store embeddings w)) = d
  /\ search_variant (snd (upload_store embeddings w)) = Remote.
Proof.
  intros Hkey Hremote Hdb. unfold upload_store, store_in_database, search_variant.
  rewrite Hkey, Hremote. simpl. rewrite Hdb. simpl. rewrite Hkey. auto.
Qed.

End Defects.

(** * Further properties of the code *)

(** ** The retry wrapper: every class of failure *)

Section RetryPolicy.
Import OpenAI Policy.

Context {T : Type}.

Lemma retry_loop_retry (fn : operation T) base remaining attempt slept err :
  fn attempt = inl err -> retryable err ->
  retry_loop fn base (S remaining) attempt slept
  = retry_loop fn base remaining (S attempt) (slept ++ [retry_delay err base attempt]).
Proof.
  intros H [Hq Hs]. simpl. rewrite H, Hq. unfold retry_delay.
  destruct (status_is_429 err); [reflexivity |].
  simpl in Hs. rewrite Hs. reflexivity.
Qed.

Lemma retry_loop_fatal (fn : operation T) base remaining attempt slept err :
  fn attempt = inl err -> fatal err ->
  retry_loop fn base remaining attempt slept
  = {| outcome := inl err; invocations := S attempt; delays := slept |}.
Proof.
  intros H (Hq & H4 & H5). destruct remaining; simpl; rewrite H, Hq; [reflexivity |].
  rewrite H4, H5. reflexivity.
Qed.

Lemma retry_loop_exhausted (fn : operation T) base attempt slept err :
  fn attempt = inl err -> is_quota err = false ->
  retry_loop fn base 0 attempt slept
  = {| outcome := inl err; invocations := S attempt; delays := slept |}.
Proof. intros H Hq. simpl. rewrite H, Hq. reflexivity. Qed.

(** The loop walks through a run of retryable failures, sleeping after each. *)
Lemma retry_loop_failures (fn : operation T) base (errs : list JsError) :
  Forall retryable errs ->
  forall remaining attempt slept,
    (forall i err, errs !! i = Some err -> fn (attempt + i) = inl err) ->
    retry_loop fn base (List.length errs + remaining) attempt slept
    = retry_loop fn base remaining (attempt + List.length errs)
                 (slept ++ imap (fun i err => retry_delay err base (attempt + i)) errs).
Proof.
  induction 1 as [|err errs Herr _ IH]; intros remaining attempt slept Hfn.
  - simpl. rewrite Nat.add_0_r, app_nil_r. reflexivity.
  - simpl List.length. simpl Nat.add.
    rewrite (retry_loop_retry fn base _ attempt slept err);
      [| rewrite <- (Nat.add_0_r attempt); apply Hfn; reflexivity | exact Herr].
    rewrite IH.
    + rewrite Nat.add_succ_r. simpl. rewrite Nat.add_0_r, <- app_assoc. simpl.
      do 2 f_equal. f_equal. apply imap_ext. intros i e _. simpl.
      rewrite Nat.add_succ_r. reflexivity.
    + intros i e Hi. rewrite Nat.add_succ_l, <- Nat.add_succ_r. apply Hfn. exact Hi.
Qed.

Lemma withRetries_failures (fn : operation T) options (errs : list JsError) :
  Forall retryable errs -> fails_with fn errs ->
  List.length errs <= maxRetries_of options ->
  withRetries fn options
  = retry_loop fn (baseDelayMs_of options) (maxRetries_of options - List.length errs)
               (List.length errs)
               (imap (fun i err => retry_delay err (baseDelayMs_of options) i) errs).
Proof.
  intros Herrs Hfn Hlen. unfold withRetries.
  replace (maxRetries_of options)
    with (List.length errs + (maxRetries_of options - List.length errs)) at 1 by lia.
  rewrite (retry_loop_failures fn _ errs Herrs); [reflexivity |].
  intros i err Hi. apply Hfn. exact Hi.
Qed.

End RetryPolicy.

(** X1: how many times the wrapper invokes the operation, and which
    invocation decides.  The wrapper invokes the operation once after every
    failure it retries, and stops at the first invocation that returns a
    result, fails with a failure that is not retried, or is the last of the
    budget: that invocation gives the outcome, a quota failure being replaced
    by the quota error.  So the operation is invoked at least once and at most
    [retries + 1] times, six times with the default options, and the wrapper
    sleeps exactly once after each failed invocation but the last. *)
Theorem withRetries_attempt_cap {T : Type} (fn : OpenAI.operation T)
        (options : option OpenAI.RetryOptions) :
  (exists k,
      Policy.decisive fn (OpenAI.maxRetries_of options) k
      /\ OpenAI.invocations (OpenAI.withRetries fn options) = S k
      /\ OpenAI.outcome (OpenAI.withRetries fn options)
         = match fn k with
           | inr v => inr v
           | inl err => inl (if OpenAI.is_quota err then OpenAI.QuotaExceededError else err)
           end
      /\ OpenAI.delays (OpenAI.withRetries fn options)
         = map (Policy.sleep_after fn (OpenAI.baseDelayMs_of options)) (seq 0 k))
  /\ 1 <= OpenAI.invocations (OpenAI.withRetries fn options)
     <= S (OpenAI.maxRetries_of options)
  /\ OpenAI.invocations (OpenAI.withRetries fn None) <= 6
  /\ List.length (OpenAI.delays (OpenAI.withRetries fn options))
     = pred (OpenAI.invocations (OpenAI.withRetries fn options)).
Proof.
  destruct (withRetries_decisive fn options) as (k & Hk & Hrun).
  split; [| split; [apply retry_loop_invocations |
                    split; [apply (retry_loop_invocations fn _ 5 0 []) |]]].
  - exists k. rewrite Hrun. simpl. split; [exact Hk |]. repeat split.
  - rewrite Hrun. simpl. rewrite length_map, length_seq. reflexivity.
Qed.

Lemma withRetries_attempt_cap_witness :
  let fn := Policy.scripted [Policy.server_error; Policy.throttled]
                            (inl Policy.bad_request : OpenAI.JsError + string) in
  OpenAI.invocations (OpenAI.withRetries fn None) = 3
  /\ OpenAI.outcome (OpenAI.withRetries fn None) = inl Policy.bad_request
  /\ OpenAI.delays (OpenAI.withRetries fn None) = [500; 2000]%Q.
Proof.
  intros fn.
  destruct (withRetries_attempt_cap fn None)
    as [(k & (Hk & Hbefore & Hlast) & Hcalls & Houtcome & Hdelays) _].
  assert (k = 2) as ->.
  { destruct k as [|[|[|k]]]; [| | reflexivity |].
    - specialize (Hlast Policy.server_error eq_refl).
      discriminate Hlast. split; reflexivity.
    - specialize (Hlast Policy.throttled eq_refl).
      discriminate Hlast. split; reflexivity.
    - destruct (Hbefore 2) as (err & Herr & _ & Hstatus); [lia |].
      injection Herr as <-. discriminate Hstatus. }
  rewrite Hcalls, Houtcome, Hdelays. repeat split.
Defined.

(** X2: after any number of retryable failures (status 429 or 5xx, no quota
    signal) within the retry budget, a success is returned as it is; the
    operation has then been invoked once per failure and once more, and the
    wrapper has slept once per failure: the [Retry-After] seconds of a 429
    that carries them, the exponential backoff [base * 2^attempt] otherwise. *)
Theorem withRetries_recovers {T : Type} (fn : OpenAI.operation T)
        (options : option OpenAI.RetryOptions) (errs : list OpenAI.JsError) (v : T) :
  Forall Policy.retryable errs ->
  Policy.fails_with fn errs ->
  fn (List.length errs) = inr v ->
  List.length errs <= OpenAI.maxRetries_of options ->
  OpenAI.withRetries fn options
  = {| OpenAI.outcome := inr v;
       OpenAI.invocations := S (List.length errs);
       OpenAI.delays :=
         imap (fun i err => Policy.retry_delay err (OpenAI.baseDelayMs_of options) i) errs |}.
Proof.
  intros Herrs Hfn Hv Hlen.
  rewrite (withRetries_failures fn options errs Herrs Hfn Hlen).
  apply retry_loop_success. exact Hv.
Qed.

Lemma withRetries_recovers_witness :
  OpenAI.withRetries
    (Policy.scripted [Policy.server_error; Policy.throttled; Policy.server_error] (inr "done"))
    None
  = {| OpenAI.outcome := inr "done";
       OpenAI.invocations := 4;
       OpenAI.delays := [500; 2000; 2000]%Q |}.
Proof.
  apply (withRetries_recovers
           (Policy.scripted [Policy.server_error; Policy.throttled; Policy.server_error]
                            (inr "done"))
           None [Policy.server_error; Policy.throttled; Policy.server_error] "done").
  - repeat constructor.
  - intros i err Hi. unfold Policy.scripted. rewrite Hi. reflexivity.
  - reflexivity.
  - vm_compute. lia.
Defined.

(** X3: when every invocation within the budget fails with a retryable
    failure, the wrapper gives up after exactly [retries + 1] invocations and
    rethrows the failure of the last one, unchanged. *)
Theorem withRetries_gives_up {T : Type} (fn : OpenAI.operation T)
        (options : option OpenAI.RetryOptions) (errs : list OpenAI.JsError)
        (last : OpenAI.JsError) :
  Forall Policy.retryable errs ->
  Policy.fails_with fn errs ->
  List.length errs = OpenAI.maxRetries_of options ->
  fn (OpenAI.maxRetries_of options) = inl last ->
  OpenAI.is_quota last = false ->
  OpenAI.outcome (OpenAI.withRetries fn options) = inl last
  /\ OpenAI.invocations (OpenAI.withRetries fn options) = S (OpenAI.maxRetries_of options)
  /\ List.length (OpenAI.delays (OpenAI.withRetries fn options))
     = OpenAI.maxRetries_of options.
Proof.
  intros Herrs Hfn Hlen Hlast Hq.
  rewrite (withRetries_failures fn options errs Herrs Hfn) by lia.
  rewrite Hlen, Nat.sub_diag.
  rewrite (retry_loop_exhausted fn _ _ _ last Hlast Hq). simpl.
  rewrite length_imap. auto.
Qed.

Lemma withRetries_gives_up_witness :
  OpenAI.outcome (OpenAI.withRetries
                    (Policy.scripted (repeat Policy.server_error 5) (inl Policy.server_error)
                     : OpenAI.operation string) None)
  = inl Policy.server_error
  /\ OpenAI.invocations (OpenAI.withRetries
                           (Policy.scripted (repeat Policy.server_error 5)
                                            (inl Policy.server_error)
                            : OpenAI.operation string) None) = 6.
Proof.
  destruct (withRetries_gives_up
              (Policy.scripted (repeat Policy.server_error 5) (inl Policy.server_error)
               : OpenAI.operation string)
              None (repeat Policy.server_error 5) Policy.server_error)
    as (Ho & Hi & _).
  - repeat constructor.
  - intros i err Hi. unfold Policy.scripted. rewrite Hi. reflexivity.
  - reflexivity.
  - reflexivity.
  - reflexivity.
  - split; [exact Ho | exact Hi].
Defined.

(** X4: a failure that is not retryable ends the run at once, on whatever
    attempt it comes: a quota failure (by its code or by a message matching
    [quota], in any letter case) is replaced by the quota error, and any other
    failure (no status, or a status that is neither 429 nor 5xx) is rethrown
    unchanged; no further invocation is made. *)
Theorem withRetries_stops_on_fatal {T : Type} (fn : OpenAI.operation T)
        (options : option OpenAI.RetryOptions) (errs : list OpenAI.JsError)
        (err : OpenAI.JsError) :
  Forall Policy.retryable errs ->
  Policy.fails_with fn errs ->
  List.length errs <= OpenAI.maxRetries_of options ->
  fn (List.length errs) = inl err ->
  (OpenAI.is_quota err = true ->
   OpenAI.outcome (OpenAI.withRetries fn options) = inl OpenAI.QuotaExceededError
   /\ OpenAI.invocations (OpenAI.withRetries fn options) = S (List.length errs))
  /\ (Policy.fatal err ->
      OpenAI.outcome (OpenAI.withRetries fn options) = inl err
      /\ OpenAI.invocations (OpenAI.withRetries fn options) = S (List.length errs)).
Proof.
  intros Herrs Hfn Hlen Herr.
  rewrite (withRetries_failures fn options errs Herrs Hfn Hlen). split.
  - intros Hq. rewrite (retry_loop_quota fn _ _ _ _ err Herr Hq). auto.
  - intros Hf. rewrite (retry_loop_fatal fn _ _ _ _ err Herr Hf). auto.
Qed.

Lemma withRetries_stops_on_fatal_witness :
  (OpenAI.outcome (OpenAI.withRetries
                     (Policy.scripted [Policy.throttled] (inl Policy.quota_by_message)
                      : OpenAI.operation string) None)
   = inl OpenAI.QuotaExceededError
   /\ OpenAI.invocations (OpenAI.withRetries
                            (Policy.scripted [Policy.throttled] (inl Policy.quota_by_message)
                             : OpenAI.operation string) None) = 2)
  /\ (OpenAI.outcome (OpenAI.withRetries
                        (Policy.scripted [] (inl Policy.bad_request)
                         : OpenAI.operation string) None)
      = inl Policy.bad_request
      /\ OpenAI.invocations (OpenAI.withRetries
                               (Policy.scripted [] (inl Policy.bad_request)
                                : OpenAI.operation string) None) = 1).
Proof.
  split.
  - apply (withRetries_stops_on_fatal
             (Policy.scripted [Policy.throttled] (inl Policy.quota_by_message)
              : OpenAI.operation string)
             None [Policy.throttled] Policy.quota_by_message).
    + repeat constructor.
    + intros i err Hi. unfold Policy.scripted. rewrite Hi. reflexivity.
    + vm_compute. lia.
    + reflexivity.
    + reflexivity.
  - apply (withRetries_stops_on_fatal
             (Policy.scripted [] (inl Policy.bad_request) : OpenAI.operation string)
             None [] Policy.bad_request).
    + constructor.
    + intros i err Hi. rewrite lookup_nil in Hi. discriminate Hi.
    + vm_compute. lia.
    + reflexivity.
    + repeat split; reflexivity.
Defined.

(** ** The time the wrapper may sleep *)

Section Backoff.
Import OpenAI Policy.

Lemma total_app (a b : list Q) : (total (a ++ b) == total a + total b)%Q.
Proof.
  induction a as [|x a IH]; simpl; [ring |]. rewrite IH. ring.
Qed.

Lemma backoff_double (base : Q) (attempt : nat) :
  (backoff base (S attempt) == 2 * backoff base attempt)%Q.
Proof.
  unfold backoff. rewrite Nat2Z.inj_succ, Z.pow_succ_r by lia.
  rewrite inject_Z_mult. change (inject_Z 2) with 2%Q. ring.
Qed.

Lemma backoff_nonneg (base : Q) (attempt : nat) :
  (0 <= base)%Q -> (0 <= backoff base attempt)%Q.
Proof.
  intros Hb. unfold backoff. apply Qmult_le_0_compat; [exact Hb |].
  change 0%Q with (inject_Z 0). rewrite <- Zle_Qle. apply Z.pow_nonneg. lia.
Qed.

Lemma backoff_mono (base : Q) (attempt more : nat) :
  (0 <= base)%Q -> (backoff base attempt <= backoff base (attempt + more))%Q.
Proof.
  intros Hb. induction more as [|k IH].
  - rewrite Nat.add_0_r. apply Qle_refl.
  - rewrite Nat.add_succ_r, backoff_double.
    pose proof (backoff_nonneg base (attempt + k) Hb).
    generalize dependent (backoff base (attempt + k)).
    generalize (backoff base attempt). intros; lra.
Qed.

Context {T : Type}.

Lemma retry_loop_total (fn : operation T) (base : Q) :
  (0 <= base)%Q ->
  (forall k err, fn k = inl err -> err_retry_after err = None) ->
  forall remaining attempt slept,
    (total (delays (retry_loop fn base remaining attempt slept))
     <= total slept + (backoff base (attempt + remaining) - backoff base attempt))%Q.
Proof.
  intros Hb Hplain. induction remaining as [|r IH]; intros attempt slept.
  - rewrite Nat.add_0_r.
    assert (delays (retry_loop fn base 0 attempt slept) = slept) as ->.
    { simpl. destruct (fn attempt) as [err |]; [destruct (is_quota err) |]; reflexivity. }
    lra.
  - pose proof (backoff_mono base attempt (S r) Hb) as Hmono.
    assert (total slept
            <= total slept + (backoff base (attempt + S r) - backoff base attempt))%Q
      as Hstop by lra.
    simpl. destruct (fn attempt) as [err | v] eqn:E; [| exact Hstop].
    destruct (is_quota err); [exact Hstop |].
    assert (rate_limit_delay err base attempt = backoff base attempt) as Hdelay.
    { unfold rate_limit_delay. rewrite (Hplain _ _ E). reflexivity. }
    assert (total (delays (retry_loop fn base r (S attempt)
                                      (slept ++ [backoff base attempt])))
            <= total slept + (backoff base (attempt + S r) - backoff base attempt))%Q
      as Hretry.
    { eapply Qle_trans; [apply IH |].
      rewrite total_app. simpl. rewrite Nat.add_succ_r.
      pose proof (backoff_double base attempt) as Hd.
      simpl in *. lra. }
    destruct (status_is_429 err); [rewrite Hdelay; exact Hretry |].
    destruct (status_is_5xx err); [exact Hretry | exact Hstop].
Qed.

End Backoff.

(** X5: when no failure carries a [Retry-After], the delays slept in one
    run add up to at most [base * (2^retries - 1)] milliseconds, which is
    15.5 seconds with the default options; the capped attempts and the
    doubling delay bound the time a provider call can wait. *)
Theorem withRetries_total_delay {T : Type} (fn : OpenAI.operation T)
        (options : option OpenAI.RetryOptions) :
  (0 <= OpenAI.baseDelayMs_of options)%Q ->
  (forall k err, fn k = inl err -> OpenAI.err_retry_after err = None) ->
  (Policy.total (OpenAI.delays (OpenAI.withRetries fn options))
   <= OpenAI.baseDelayMs_of options
      * (inject_Z (2 ^ Z.of_nat (OpenAI.maxRetries_of options)) - 1))%Q
  /\ (options = None ->
      (Policy.total (OpenAI.delays (OpenAI.withRetries fn options)) <= 15500)%Q).
Proof.
  intros Hb Hplain.
  pose proof (retry_loop_total fn _ Hb Hplain (OpenAI.maxRetries_of options) 0 []) as H.
  assert (Policy.total (OpenAI.delays (OpenAI.withRetries fn options))
          <= OpenAI.baseDelayMs_of options
             * (inject_Z (2 ^ Z.of_nat (OpenAI.maxRetries_of options)) - 1))%Q as Hbound.
  { unfold OpenAI.withRetries. eapply Qle_trans; [exact H |].
    unfold OpenAI.backoff. simpl Policy.total. simpl Nat.add.
    change (inject_Z (2 ^ Z.of_nat 0)) with 1%Q. ring_simplify. apply Qle_refl. }
  split; [exact Hbound |].
  intros ->. exact Hbound.
Qed.

Lemma withRetries_total_delay_witness :
  (Policy.total
     (OpenAI.delays
        (OpenAI.withRetries
           (Policy.scripted (repeat Policy.server_error 5) (inl Policy.server_error)
            : OpenAI.operation string) None)) <= 15500)%Q.
Proof.
  apply (withRetries_total_delay
           (Policy.scripted (repeat Policy.server_error 5) (inl Policy.server_error)
            : OpenAI.operation string) None).
  - vm_compute. discriminate.
  - intros k err. unfold Policy.scripted.
    destruct (repeat Policy.server_error 5 !! k) as [e |] eqn:E.
    + intros [= <-]. apply list_elem_of_lookup_2 in E.
      apply list_elem_of_In, repeat_spec in E. subst e. reflexivity.
    + intros [= <-]. reflexivity.
  - reflexivity.
Defined.

(** ** The chunker keeps every sentence, once and in order *)

Section ChunkContent.
Import TextProcessing Chunks.

Lemma append_cons (c : ascii) (a b : string) : String c a +:+ b = String c (a +:+ b).
Proof. reflexivity. Qed.

Lemma append_assoc (a b c : string) : (a +:+ b) +:+ c = a +:+ (b +:+ c).
Proof.
  induction a as [|x a IH]; [reflexivity |].
  rewrite !append_cons, IH. reflexivity.
Qed.

Lemma append_not_empty (a b : string) : b <> EmptyString -> a +:+ b <> EmptyString.
Proof. destruct a; [auto | rewrite append_cons; discriminate]. Qed.

Lemma headed_trimStart (s : string) : JS.headed s -> JS.trimStart s = s.
Proof. destruct s as [|c s]; simpl; [tauto |]. intros E. now rewrite E. Qed.

Lemma trimEnd_append (x b : string) :
  JS.trimEnd b <> EmptyString -> JS.trimEnd (x +:+ b) = x +:+ JS.trimEnd b.
Proof.
  intros Hb. induction x as [|c x IH]; [reflexivity |].
  rewrite !append_cons. simpl. rewrite IH.
  destruct (String.eqb (x +:+ JS.trimEnd b) EmptyString) eqn:E.
  - apply String.eqb_eq in E. exfalso. exact (append_not_empty x _ Hb E).
  - rewrite andb_false_r. reflexivity.
Qed.

Lemma tidy_headed (s : string) : tidy s -> JS.headed s.
Proof.
  intros [Ht Hne]. rewrite <- Ht. apply trim_headed. rewrite Ht. exact Hne.
Qed.

Lemma tidy_trimEnd (s : string) : tidy s -> JS.trimEnd s = s.
Proof.
  intros Hs. pose proof (headed_trimStart s (tidy_headed s Hs)) as Hstart.
  destruct Hs as [Ht _]. unfold JS.trim in Ht. rewrite Hstart in Ht. exact Ht.
Qed.

Lemma tidy_trim (s : string) : JS.truthy (JS.trim s) = true -> tidy (JS.trim s).
Proof.
  intros H. split; [apply trim_idempotent | now apply truthy_true].
Qed.

Lemma tidy_joined (a b : string) : tidy a -> tidy b -> tidy (a +:+ (". " +:+ b)).
Proof.
  intros Ha Hb. split.
  - unfold JS.trim.
    rewrite headed_trimStart by (apply headed_append, tidy_headed, Ha).
    rewrite <- append_assoc, trimEnd_append; rewrite (tidy_trimEnd b Hb);
      [reflexivity | apply Hb].
  - apply append_not_empty. discriminate.
Qed.

Lemma join_snoc (sep x : string) (l : list string) :
  l <> [] -> JS.join sep (l ++ [x]) = JS.join sep l +:+ sep +:+ x.
Proof.
  induction l as [|a l IH]; intros Hne; [contradiction |].
  destruct l as [|b l]; [reflexivity |].
  change (JS.join sep ((a :: b :: l) ++ [x]))
    with (a +:+ sep +:+ JS.join sep ((b :: l) ++ [x])).
  rewrite IH by discriminate.
  change (JS.join sep (a :: b :: l)) with (a +:+ sep +:+ JS.join sep (b :: l)).
  rewrite !append_assoc. reflexivity.
Qed.

Lemma join_snoc_merged (sep a b : string) (l : list string) :
  JS.join sep (l ++ [a +:+ (sep +:+ b)]) = JS.join sep (l ++ [a]) +:+ sep +:+ b.
Proof.
  destruct l as [|c l].
  - reflexivity.
  - rewrite !join_snoc by discriminate. rewrite !append_assoc. reflexivity.
Qed.

Lemma spoken_snoc (done : list string) (s : string) :
  spoken (done ++ [s])
  = (spoken done ++ (if JS.truthy (JS.trim s) then [JS.trim s] else []))%list.
Proof.
  unfold spoken. rewrite map_app, List.filter_app. reflexivity.
Qed.

Lemma after_snoc (maxTokens : Q) (done : list string) (s : string) :
  after maxTokens (done ++ [s]) = step maxTokens (after maxTokens done) s.
Proof. unfold after. rewrite fold_left_app. reflexivity. Qed.

Variable maxTokens : Q.

Lemma pieces_running (st : LoopState) :
  currentChunk st <> EmptyString -> pieces st = (chunks st ++ [currentChunk st])%list.
Proof. intros H. unfold pieces. apply truthy_true in H. now rewrite H. Qed.

Ltac five := split; [| split; [| split; [| split]]].

Lemma content_invariant_holds (done : list string) : content_invariant maxTokens done.
Proof.
  induction done as [|s done IH] using rev_ind.
  - unfold content_invariant, after, pieces. simpl.
    five; auto; try constructor; congruence.
  - unfold content_invariant in *. rewrite after_snoc, spoken_snoc.
    destruct IH as (Htidy & Hempty & Hrunning & Hjoin & Hlen).
    set (st := after maxTokens done) in *.
    unfold step. destruct (JS.truthy (JS.trim s)) eqn:Hs; simpl negb; cbv iota.
    2: { rewrite app_nil_r. five; assumption. }
    pose proof (tidy_trim s Hs) as Hts.
    destruct (JS.truthy (currentChunk st)) eqn:Hcur.
    + (* a running chunk exists *)
      apply truthy_true in Hcur. specialize (Hrunning Hcur).
      rewrite (pieces_running st Hcur) in Htidy, Hjoin, Hlen.
      apply Forall_app in Htidy as [Hchunks Hcurrent].
      apply Forall_cons in Hcurrent as [Hcurrent _].
      assert (chunks st ++ [currentChunk st] <> [])%list as Hpieces
          by (intros E; apply app_eq_nil in E as [_ E]; discriminate E).
      destruct (Qgtb _ maxTokens); simpl andb; cbv iota.
      * (* flush *)
        rewrite pieces_running by (simpl; apply Hts). simpl.
        destruct Hcurrent as [Htrim Hne]. rewrite Htrim.
        five.
        -- apply Forall_app. split; [apply Forall_app; split; [assumption |] |].
           ++ constructor; [split; [exact Htrim | exact Hne] | constructor].
           ++ repeat constructor; apply Hts.
        -- intros E. exfalso. apply Hts. exact E.
        -- intros _ E. apply app_eq_nil in E as [_ E]. discriminate E.
        -- rewrite (join_snoc _ _ (chunks st ++ [currentChunk st])) by exact Hpieces.
           rewrite (join_snoc _ _ (spoken done)) by assumption.
           rewrite Hjoin. reflexivity.
        -- rewrite !length_app in *. simpl in *. lia.
      * (* join the sentence to the running chunk *)
        assert (tidy (currentChunk st +:+ (". " +:+ JS.trim s))) as Hnew
            by (apply tidy_joined; assumption).
        rewrite pieces_running by (simpl; apply Hnew). simpl.
        five.
        -- apply Forall_app. split; [assumption | repeat constructor; apply Hnew].
        -- intros E. exfalso. apply Hnew. exact E.
        -- intros _ E. apply app_eq_nil in E as [_ E]. discriminate E.
        -- rewrite join_snoc_merged, (join_snoc _ _ (spoken done)) by assumption.
           rewrite Hjoin. reflexivity.
        -- rewrite !length_app in *. simpl in *. lia.
    + (* the first spoken sentence *)
      apply truthy_false in Hcur. destruct (Hempty Hcur) as [Hchunks Hspoken].
      rewrite andb_false_r. rewrite Hcur.
      change (EmptyString +:+ (EmptyString +:+ JS.trim s)) with (JS.trim s).
      rewrite pieces_running by (simpl; apply Hts). simpl.
      rewrite Hchunks, Hspoken. simpl.
      five.
      * repeat constructor; apply Hts.
      * intros E. exfalso. apply Hts. exact E.
      * intros _. discriminate.
      * reflexivity.
      * lia.
Qed.

(** The value [splitTextIntoChunks] returns is the pieces of the final state. *)
Lemma chunk_sentences_pieces (sentences : list string) :
  chunk_sentences sentences maxTokens = pieces (after maxTokens sentences).
Proof.
  destruct (content_invariant_holds sentences) as (Htidy & Hempty & _).
  unfold chunk_sentences. fold (after maxTokens sentences).
  set (st := after maxTokens sentences) in *.
  destruct (JS.truthy (currentChunk st)) eqn:Hcur.
  - apply truthy_true in Hcur. rewrite (pieces_running st Hcur) in *.
    apply Forall_app in Htidy as [_ Hc]. apply Forall_cons in Hc as [[Htrim Hne] _].
    rewrite Htrim. apply truthy_true in Hne. rewrite Hne. reflexivity.
  - unfold pieces. rewrite Hcur. apply truthy_false in Hcur. rewrite Hcur. simpl.
    rewrite app_nil_r. reflexivity.
Qed.

End ChunkContent.

Section ChunkExtremes.
Import TextProcessing Chunks.

Lemma spoken_sentences_of (text : string) :
  spoken (sentences_of text) = map JS.trim (sentences_of text).
Proof.
  unfold spoken, sentences_of.
  induction (JS.split_terminals text) as [|s l IH]; simpl; [reflexivity |].
  destruct (Nat.ltb 0 (String.length (JS.trim s))) eqn:E; simpl; [| exact IH].
  assert (JS.truthy (JS.trim s) = true) as ->.
  { apply truthy_true. intros H. rewrite H in E. discriminate E. }
  rewrite IH. reflexivity.
Qed.

Lemma spoken_app (a b : list string) : spoken (a ++ b) = (spoken a ++ spoken b)%list.
Proof. unfold spoken. rewrite map_app, List.filter_app. reflexivity. Qed.

Lemma join_prefix_length (sep : string) (l1 l2 : list string) :
  String.length (JS.join sep l1) <= String.length (JS.join sep (l1 ++ l2)).
Proof.
  induction l2 as [|x l2 IH] using rev_ind; [rewrite app_nil_r; lia |].
  rewrite app_assoc. destruct (l1 ++ l2)%list as [|y l] eqn:E.
  - apply app_eq_nil in E as [-> _]. simpl. lia.
  - rewrite join_snoc by discriminate. rewrite !length_append. lia.
Qed.

Lemma qlen_positive (a b : string) : b <> EmptyString -> (0 < qlen (a +:+ b) / 4)%Q.
Proof.
  intros Hb. unfold qlen. rewrite length_append.
  destruct b as [|c b]; [contradiction |]. simpl String.length.
  apply Qlt_shift_div_l; [reflexivity |].
  rewrite Qmult_0_l. change 0%Q with (inject_Z 0). rewrite <- Zlt_Qlt. lia.
Qed.

Lemma Qgtb_true (a b : Q) : (b < a)%Q -> Qgtb a b = true.
Proof.
  intros H. unfold Qgtb. apply negb_true_iff.
  destruct (Qle_bool a b) eqn:E; [| reflexivity].
  apply Qle_bool_iff in E. exfalso. exact (Qlt_not_le _ _ H E).
Qed.

Lemma Qgtb_le (a b : Q) : (a <= b)%Q -> Qgtb a b = false.
Proof.
  intros H. unfold Qgtb. apply negb_false_iff, Qle_bool_iff. exact H.
Qed.

(** With a limit of zero or less every spoken sentence is flushed before the
    next one is added. *)
Lemma pieces_one_per_sentence (maxTokens : Q) (done : list string) :
  (maxTokens <= 0)%Q -> pieces (after maxTokens done) = spoken done.
Proof.
  intros Hm. induction done as [|s done IH] using rev_ind; [reflexivity |].
  destruct (content_invariant_holds maxTokens done) as (Htidy & Hempty & _).
  rewrite after_snoc, spoken_snoc, <- IH. clear IH.
  set (st := after maxTokens done) in *.
  unfold step. destruct (JS.truthy (JS.trim s)) eqn:Hs; simpl negb; cbv iota;
    [| rewrite app_nil_r; reflexivity].
  pose proof (tidy_trim s Hs) as Hts.
  destruct (JS.truthy (currentChunk st)) eqn:Hcur.
  - apply truthy_true in Hcur. rewrite (pieces_running st Hcur) in *.
    apply Forall_app in Htidy as [_ Hc]. apply Forall_cons in Hc as [[Htrim _] _].
    rewrite Qgtb_true
      by (eapply Qle_lt_trans; [exact Hm | apply qlen_positive, Hts]).
    simpl. rewrite pieces_running by (simpl; apply Hts). simpl.
    rewrite Htrim. reflexivity.
  - apply truthy_false in Hcur. destruct (Hempty Hcur) as [Hchunks _].
    rewrite andb_false_r. unfold pieces at 2. rewrite Hcur, Hchunks. simpl.
    rewrite pieces_running by (simpl; apply Hts). reflexivity.
Qed.

(** With a limit that the whole text meets, nothing is flushed. *)
Lemma pieces_single (maxTokens : Q) (sentences done rest : list string) :
  sentences = (done ++ rest)%list ->
  (qlen (JS.join ". " (spoken sentences)) / 4 <= maxTokens)%Q ->
  chunks (after maxTokens done) = []
  /\ currentChunk (after maxTokens done) = JS.join ". " (spoken done).
Proof.
  intros Hall Hfit. revert rest Hall.
  induction done as [|s done IH] using rev_ind; intros rest Hall; [split; reflexivity |].
  rewrite <- app_assoc in Hall. destruct (IH _ Hall) as [Hchunks Hcur]. clear IH.
  destruct (content_invariant_holds maxTokens done) as (_ & _ & Hrunning & _).
  rewrite after_snoc, spoken_snoc.
  set (st := after maxTokens done) in *.
  unfold step. destruct (JS.truthy (JS.trim s)) eqn:Hs; simpl negb; cbv iota;
    [| rewrite app_nil_r; split; assumption].
  pose proof (tidy_trim s Hs) as Hts.
  assert (String.length (JS.join ". " (spoken done ++ [JS.trim s]))
          <= String.length (JS.join ". " (spoken sentences))) as Hlen.
  { rewrite Hall, !spoken_app.
    assert (spoken [s] = [JS.trim s]) as -> by (unfold spoken; simpl; now rewrite Hs).
    rewrite app_assoc. apply join_prefix_length. }
  destruct (JS.truthy (currentChunk st)) eqn:Htruthy.
  - apply truthy_true in Htruthy. specialize (Hrunning Htruthy).
    rewrite join_snoc in Hlen by exact Hrunning. rewrite <- Hcur in Hlen.
    rewrite Qgtb_le.
    + simpl. split; [exact Hchunks |].
      rewrite join_snoc by exact Hrunning. rewrite <- Hcur. reflexivity.
    + eapply Qle_trans; [| exact Hfit].
      apply Qmult_le_compat_r; [| discriminate].
      apply qlen_le. rewrite !length_append in *. simpl in *. lia.
  - rewrite andb_false_r. simpl. split; [exact Hchunks |].
    apply truthy_false in Htruthy. rewrite Htruthy.
    destruct (content_invariant_holds maxTokens done) as (_ & He & _).
    destruct (He Htruthy) as [_ Hnil]. rewrite Hnil. reflexivity.
Qed.

End ChunkExtremes.

(** X6: whatever the limit, the chunker keeps every sentence, once and in
    source order: joining the returned chunks with the joiner [". "] gives the
    trimmed sentences of the text joined the same way.  No chunk is empty and
    none has leading or trailing white space. *)
Theorem chunks_keep_every_sentence (text : string) (maxTokens : Q) :
  JS.join ". " (TextProcessing.splitTextIntoChunks text maxTokens)
  = JS.join ". " (map JS.trim (TextProcessing.sentences_of text))
  /\ Forall (fun chunk => JS.trim chunk = chunk /\ chunk <> EmptyString)
            (TextProcessing.splitTextIntoChunks text maxTokens).
Proof.
  unfold TextProcessing.splitTextIntoChunks.
  rewrite chunk_sentences_pieces, <- spoken_sentences_of.
  destruct (content_invariant_holds maxTokens (TextProcessing.sentences_of text))
    as (Htidy & _ & _ & Hjoin & _).
  split; [exact Hjoin | exact Htidy].
Qed.

(** X7: the chunker returns no chunk exactly when the text has no sentence
    (nothing but white space between its terminal punctuation), and never
    more chunks than the text has sentences. *)
Theorem chunks_none_iff_no_sentence (text : string) (maxTokens : Q) :
  (TextProcessing.splitTextIntoChunks text maxTokens = []
   <-> TextProcessing.sentences_of text = [])
  /\ List.length (TextProcessing.splitTextIntoChunks text maxTokens)
     <= List.length (TextProcessing.sentences_of text).
Proof.
  unfold TextProcessing.splitTextIntoChunks.
  rewrite chunk_sentences_pieces.
  destruct (content_invariant_holds maxTokens (TextProcessing.sentences_of text))
    as (_ & Hempty & Hrunning & _ & Hlen).
  rewrite spoken_sentences_of in *. rewrite length_map in Hlen.
  split; [| exact Hlen]. split.
  - intros Hnil.
    destruct (TextProcessing.sentences_of text) as [|s l] eqn:E; [reflexivity |].
    rewrite Hnil in Hlen. exfalso.
    unfold Chunks.pieces in Hnil. apply app_eq_nil in Hnil as [_ Hcur].
    destruct (JS.truthy (TextProcessing.currentChunk _)) eqn:T; [discriminate Hcur |].
    apply truthy_false in T. destruct (Hempty T) as [_ Hs]. discriminate Hs.
  - intros Hnil. rewrite Hnil. reflexivity.
Qed.

(** X8: the two extremes of the limit.  With a limit of zero or less every
    sentence is a chunk of its own; with a limit that the estimate of the
    whole text meets, the text is one chunk. *)
Theorem chunks_at_the_extremes (text : string) (maxTokens : Q) :
  ((maxTokens <= 0)%Q ->
   TextProcessing.splitTextIntoChunks text maxTokens
   = map JS.trim (TextProcessing.sentences_of text))
  /\ ((TextProcessing.qlen
         (JS.join ". " (map JS.trim (TextProcessing.sentences_of text))) / 4
       <= maxTokens)%Q ->
      TextProcessing.sentences_of text <> [] ->
      TextProcessing.splitTextIntoChunks text maxTokens
      = [JS.join ". " (map JS.trim (TextProcessing.sentences_of text))]).
Proof.
  unfold TextProcessing.splitTextIntoChunks. rewrite chunk_sentences_pieces.
  rewrite <- spoken_sentences_of. split.
  - apply pieces_one_per_sentence.
  - intros Hfit Hne.
    destruct (pieces_single maxTokens (TextProcessing.sentences_of text)
                            (TextProcessing.sentences_of text) []
                            (eq_sym (app_nil_r _)) Hfit) as [Hchunks Hcur].
    unfold Chunks.pieces. rewrite Hchunks, Hcur. simpl.
    assert (Chunks.spoken (TextProcessing.sentences_of text) <> []) as Hspoken.
    { rewrite spoken_sentences_of. intros E. apply map_eq_nil in E. exact (Hne E). }
    destruct (content_invariant_holds maxTokens (TextProcessing.sentences_of text))
      as (_ & Hempty & _).
    destruct (JS.truthy _) eqn:T; [reflexivity |].
    exfalso. apply truthy_false in T. rewrite <- Hcur in T.
    destruct (Hempty T) as [_ Hs]. exact (Hspoken Hs).
Qed.

Lemma chunks_at_the_extremes_witness :
  TextProcessing.splitTextIntoChunks "One. Two!  Three?" 0 = ["One"; "Two"; "Three"]
  /\ TextProcessing.splitTextIntoChunks "One. Two!  Three?" 4 = ["One. Two. Three"].
Proof.
  destruct (chunks_at_the_extremes "One. Two!  Three?" 0) as [Hzero _].
  destruct (chunks_at_the_extremes "One. Two!  Three?" 4) as [_ Hone].
  split.
  - rewrite Hzero by (vm_compute; discriminate). reflexivity.
  - rewrite Hone; [reflexivity | vm_compute; discriminate | vm_compute; discriminate].
Defined.

(** ** The embedding client beyond the claims *)

Section EmbeddingClient.
Import OpenAI Embedding.

Lemma round_div_one (totalTokens : nat) : round_div totalTokens 1 = totalTokens.
Proof.
  unfold round_div.
  replace (2 * totalTokens + 1) with (1 + totalTokens * (2 * 1)) by lia.
  rewrite Nat.div_add by lia. reflexivity.
Qed.

Lemma round_div_close (totalTokens n : nat) :
  0 < n ->
  2 * (n * round_div totalTokens n) <= 2 * totalTokens + n
  /\ 2 * totalTokens < 2 * (n * round_div totalTokens n) + n.
Proof.
  intros Hn. unfold round_div.
  pose proof (Nat.div_mod_eq (2 * totalTokens + n) (2 * n)) as Hdiv.
  pose proof (Nat.mod_upper_bound (2 * totalTokens + n) (2 * n)) as Hmod.
  lia.
Qed.

Lemma valid_text_truthy (text : string) :
  is_valid_text text = true <-> JS.truthy (JS.trim text) = true.
Proof.
  unfold is_valid_text. rewrite truthy_true, Nat.ltb_lt.
  destruct (JS.trim text); simpl; split; intros H; try lia; try congruence.
Qed.

End EmbeddingClient.

(** X9: the single-text call and the batch call agree on one text that is
    not blank, and differ on a blank one.  On a blank text [generateEmbedding]
    fails with [Text cannot be empty] and [generateEmbeddings] returns the
    empty list, neither calling the provider; on a text that is not blank for
    which the provider returns one vector, the batch of that one text returns
    exactly the vector and the token count of the single call. *)
Theorem single_and_batch_embedding
        (createEmbedding : string -> OpenAI.operation OpenAI.CreateEmbeddingResponse)
        (createEmbeddings : list string -> OpenAI.operation OpenAI.CreateEmbeddingResponse)
        (text : string) :
  (OpenAI.is_valid_text text = false ->
   Embedding.generateEmbedding createEmbedding text
   = {| OpenAI.settled := inl (OpenAI.Error "Text cannot be empty");
        OpenAI.provider_calls := 0 |}
   /\ OpenAI.generateEmbeddings createEmbeddings [text]
      = {| OpenAI.settled := inr []; OpenAI.provider_calls := 0 |})
  /\ (OpenAI.is_valid_text text = true ->
      Embedding.same_provider createEmbedding createEmbeddings text ->
      forall response item,
        OpenAI.outcome (OpenAI.withRetries (createEmbedding text) None) = inr response ->
        OpenAI.data response = [item] ->
        exists result,
          OpenAI.settled (Embedding.generateEmbedding createEmbedding text) = inr result
          /\ OpenAI.embedding result = OpenAI.item_embedding item
          /\ OpenAI.settled (OpenAI.generateEmbeddings createEmbeddings [text])
             = inr [result]
          /\ OpenAI.provider_calls (OpenAI.generateEmbeddings createEmbeddings [text])
             = OpenAI.provider_calls (Embedding.generateEmbedding createEmbedding text)).
Proof.
  split.
  - intros Hblank. split.
    + unfold Embedding.generateEmbedding.
      destruct (JS.truthy (JS.trim text)) eqn:T; [| reflexivity].
      apply valid_text_truthy in T. congruence.
    + unfold OpenAI.generateEmbeddings. simpl. rewrite Hblank. reflexivity.
  - intros Hvalid Hsame response item Hrun Hdata.
    unfold Embedding.generateEmbedding, OpenAI.generateEmbeddings.
    apply valid_text_truthy in Hvalid as Htruthy. rewrite Htruthy. simpl.
    rewrite Hvalid, Hsame, Hrun, Hdata. simpl.
    eexists. split; [reflexivity |]. split; [reflexivity |].
    rewrite round_div_one. split; reflexivity.
Qed.

Lemma single_and_batch_embedding_witness :
  (Embedding.generateEmbedding Embedding.single_provider "   "
   = {| OpenAI.settled := inl (OpenAI.Error "Text cannot be empty");
        OpenAI.provider_calls := 0 |})
  /\ exists result,
      OpenAI.settled (Embedding.generateEmbedding Embedding.single_provider "abc")
      = inr result
      /\ OpenAI.settled
           (OpenAI.generateEmbeddings (fun texts => Embedding.single_provider (List.hd "a" texts))
                                      ["abc"])
         = inr [result].
Proof.
  split.
  - apply (proj1 (single_and_batch_embedding
                    Embedding.single_provider
                    (fun texts => Embedding.single_provider (List.hd "a" texts)) "   ")).
    reflexivity.
  - destruct (proj2 (single_and_batch_embedding
                       Embedding.single_provider
                       (fun texts => Embedding.single_provider (List.hd "a" texts)) "abc")
                    eq_refl eq_refl
                    {| OpenAI.data :=
                         [ {| OpenAI.item_embedding := Fixtures.length_embedding "abc" |} ];
                       OpenAI.usage_total_tokens := Some 7 |}
                    {| OpenAI.item_embedding := Fixtures.length_embedding "abc" |}
                    eq_refl eq_refl)
      as (result & Hs & _ & Hb & _).
    exists result. split; assumption.
Defined.

(** X10: the batch call reports the same token count for every text: the
    provider's total divided by the number of texts sent and rounded, so that
    the counts add up to the total within half a token per text. *)
Theorem batch_tokens_apportioned
        (createEmbeddings : list string -> OpenAI.operation OpenAI.CreateEmbeddingResponse)
        (texts : list string) (results : list OpenAI.EmbeddingResponse) :
  OpenAI.settled (OpenAI.generateEmbeddings createEmbeddings texts) = inr results ->
  results <> [] ->
  exists response share,
    OpenAI.outcome
      (OpenAI.withRetries (createEmbeddings (List.filter OpenAI.is_valid_text texts)) None)
    = inr response
    /\ Forall (fun r => OpenAI.tokens r = share) results
    /\ let sent := List.length (List.filter OpenAI.is_valid_text texts) in
       let totalTokens := default 0 (OpenAI.usage_total_tokens response) in
       0 < sent
       /\ 2 * (sent * share) <= 2 * totalTokens + sent
       /\ 2 * totalTokens < 2 * (sent * share) + sent.
Proof.
  unfold OpenAI.generateEmbeddings.
  destruct texts as [|t texts]; [intros [= <-] H; contradiction |].
  destruct (List.filter OpenAI.is_valid_text (t :: texts)) as [|v valid] eqn:F;
    [intros [= <-] H; contradiction |].
  destruct (OpenAI.outcome (OpenAI.withRetries (createEmbeddings (v :: valid)) None))
    as [err | response] eqn:R; [discriminate |].
  simpl OpenAI.settled. intros [= <-] _.
  exists response, (OpenAI.round_div (default 0 (OpenAI.usage_total_tokens response))
                                     (List.length (v :: valid))).
  split; [reflexivity |]. split.
  - apply List.Forall_map, List.Forall_forall. intros item _. reflexivity.
  - simpl List.length. split; [lia |].
    apply round_div_close. lia.
Qed.

Lemma batch_tokens_apportioned_witness :
  exists results,
    OpenAI.settled (OpenAI.generateEmbeddings Fixtures.length_provider ["ab"; " "; "cde"])
    = inr results
    /\ map OpenAI.tokens results = [1; 1].
Proof.
  destruct (OpenAI.settled
              (OpenAI.generateEmbeddings Fixtures.length_provider ["ab"; " "; "cde"]))
    as [err | results] eqn:E; [vm_compute in E; discriminate E |].
  exists results. split; [reflexivity |].
  destruct (batch_tokens_apportioned Fixtures.length_provider ["ab"; " "; "cde"] results E)
    as (response & share & _ & Hshare & _).
  - vm_compute in E. injection E as <-. discriminate.
  - vm_compute in E. injection E as <-. reflexivity.
Defined.

(** X11: blank texts are dropped before the provider is called, and the
    vectors come back without a trace of them: the provider receives the
    texts that are not blank, in order, and the vector at index [i] is the
    embedding of the [i]-th of these.  The upload route pairs the vector at
    index [i] with [textChunks[i]], the [i]-th text of the batch as it was
    submitted. *)
Theorem blank_texts_are_dropped
        (createEmbeddings : list string -> OpenAI.operation OpenAI.CreateEmbeddingResponse)
        (randomUUID : nat -> string) (embed_of : string -> list float)
        (textChunks : list string) (documentId : string)
        (response : OpenAI.CreateEmbeddingResponse) :
  List.filter OpenAI.is_valid_text textChunks <> [] ->
  OpenAI.outcome
    (OpenAI.withRetries (createEmbeddings (List.filter OpenAI.is_valid_text textChunks)) None)
  = inr response ->
  OpenAI.aligned embed_of (List.filter OpenAI.is_valid_text textChunks) response ->
  exists vectors paired,
    OpenAI.settled (OpenAI.generateEmbeddings createEmbeddings textChunks) = inr vectors
    /\ map OpenAI.embedding vectors
       = map embed_of (List.filter OpenAI.is_valid_text textChunks)
    /\ Routes.upload_embeddings createEmbeddings randomUUID textChunks documentId
       = Routes.Continue paired
    /\ List.length paired = List.length (List.filter OpenAI.is_valid_text textChunks)
    /\ (forall i p, paired !! i = Some p ->
                    Routes.pc_text p = textChunks !! i
                    /\ Some (Routes.pc_embedding p)
                       = embed_of <$> List.filter OpenAI.is_valid_text textChunks !! i).
Proof.
  intros Hsome Hrun Haligned.
  assert (exists share,
             OpenAI.settled (OpenAI.generateEmbeddings createEmbeddings textChunks)
             = inr (map (fun item => {| OpenAI.embedding := OpenAI.item_embedding item;
                                        OpenAI.tokens := share |})
                        (OpenAI.data response))) as [share Hsettled].
  { unfold OpenAI.generateEmbeddings.
    destruct textChunks as [|t rest]; [contradiction |].
    destruct (List.filter OpenAI.is_valid_text (t :: rest)) as [|v valid];
      [contradiction |].
    rewrite Hrun. eexists. reflexivity. }
  set (vectors := map _ (OpenAI.data response)) in Hsettled.
  assert (map OpenAI.embedding vectors
          = map embed_of (List.filter OpenAI.is_valid_text textChunks)) as Hmap.
  { unfold vectors. rewrite map_map. exact Haligned. }
  exists vectors. eexists. split; [exact Hsettled |]. split; [exact Hmap |].
  unfold Routes.upload_embeddings. rewrite Hsettled. split; [reflexivity |]. split.
  - rewrite length_imap, <- (length_map OpenAI.embedding vectors), Hmap. apply length_map.
  - intros i p Hp. rewrite list_lookup_imap in Hp.
    destruct (vectors !! i) as [v |] eqn:Hv; [| discriminate Hp].
    injection Hp as <-. simpl. split; [reflexivity |].
    change (map embed_of (List.filter OpenAI.is_valid_text textChunks))
      with (embed_of <$> List.filter OpenAI.is_valid_text textChunks) in Hmap.
    rewrite <- list_lookup_fmap, <- Hmap.
    change (map OpenAI.embedding vectors) with (OpenAI.embedding <$> vectors).
    rewrite list_lookup_fmap, Hv. reflexivity.
Qed.

Lemma blank_texts_are_dropped_witness :
  exists paired,
    Routes.upload_embeddings Fixtures.length_provider Fixtures.uuid ["ab"; " "; "cde"] "d1"
    = Routes.Continue paired
    /\ map (fun p => (Routes.pc_text p, Routes.pc_embedding p)) paired
       = [(Some "ab", [2%float]); (Some " ", [3%float])].
Proof.
  destruct (blank_texts_are_dropped
              Fixtures.length_provider Fixtures.uuid Fixtures.length_embedding
              ["ab"; " "; "cde"] "d1"
              {| OpenAI.data := [ {| OpenAI.item_embedding := [2%float] |};
                                  {| OpenAI.item_embedding := [3%float] |} ];
                 OpenAI.usage_total_tokens := Some 2 |})
    as (vectors & paired & _ & _ & Hu & _).
  - vm_compute. discriminate.
  - reflexivity.
  - reflexivity.
  - exists paired. split; [exact Hu |].
    vm_compute in Hu. injection Hu as <-. reflexivity.
Defined.

Section EmbeddingFailure.
Import OpenAI.

Lemma rethrow_plain (err : JsError) (fallback : string) :
  err_status (rethrow err fallback) = None /\ err_code (rethrow err fallback) = None.
Proof. split; reflexivity. Qed.

Lemma generateEmbeddings_failure
      (createEmbeddings : list string -> operation CreateEmbeddingResponse)
      (texts : list string) (err : JsError) :
  settled (generateEmbeddings createEmbeddings texts) = inl err ->
  err_status err = None /\ err_code err = None.
Proof.
  unfold generateEmbeddings.
  destruct texts as [|t rest]; [discriminate |].
  destruct (List.filter is_valid_text (t :: rest)); [discriminate |].
  destruct (outcome _); [| discriminate].
  simpl. intros [= <-]. apply rethrow_plain.
Qed.

End EmbeddingFailure.

(** X12: the embedding step of the upload route answers every failure of
    the embedding client with status 500 and the message [Failed to generate
    embeddings]: the client rethrows a plain error that carries neither the
    status nor the code of the provider's failure, so the test for a quota
    failure never holds and status 429 is never sent, not even when the
    quota is exhausted. *)
Theorem upload_embedding_failure_is_500
        (createEmbeddings : list string -> OpenAI.operation OpenAI.CreateEmbeddingResponse)
        (randomUUID : nat -> string) (textChunks : list string) (documentId : string) :
  match Routes.upload_embeddings createEmbeddings randomUUID textChunks documentId with
  | Routes.Continue paired =>
      exists vectors,
        OpenAI.settled (OpenAI.generateEmbeddings createEmbeddings textChunks) = inr vectors
        /\ List.length paired = List.length vectors
  | Routes.Respond status message =>
      status = 500 /\ message = "Failed to generate embeddings"
      /\ exists err,
          OpenAI.settled (OpenAI.generateEmbeddings createEmbeddings textChunks) = inl err
  end
  /\ Routes.upload_embeddings (fun _ => Policy.scripted [] (inl Fixtures.quota_error))
                              randomUUID ["a chunk"] documentId
     = Routes.Respond 500 "Failed to generate embeddings".
Proof.
  split; [| reflexivity].
  unfold Routes.upload_embeddings.
  destruct (OpenAI.settled (OpenAI.generateEmbeddings createEmbeddings textChunks))
    as [err | vectors] eqn:E.
  - destruct (generateEmbeddings_failure _ _ _ E) as [-> ->]. simpl.
    repeat split. exists err. reflexivity.
  - exists vectors. split; [reflexivity | apply length_imap].
Qed.

(** ** Cleaning, file types and extraction *)

Section Cleaning.
Import TextExtraction.

Lemma all_chars_impl (P Q : ascii -> Prop) (s : string) :
  (forall c, P c -> Q c) -> all_chars P s -> all_chars Q s.
Proof.
  intros H. induction s as [|c s IH]; simpl; [auto |].
  intros [Hc Hs]. split; auto.
Qed.

Lemma all_chars_trimStart (P : ascii -> Prop) (s : string) :
  all_chars P s -> all_chars P (JS.trimStart s).
Proof.
  induction s as [|c s IH]; simpl; [auto |].
  intros [Hc Hs]. destruct (JS.is_white_space c); simpl; auto.
Qed.

Lemma all_chars_trimEnd (P : ascii -> Prop) (s : string) :
  all_chars P s -> all_chars P (JS.trimEnd s).
Proof.
  induction s as [|c s IH]; simpl; [auto |].
  intros [Hc Hs].
  destruct (JS.is_white_space c && String.eqb (JS.trimEnd s) EmptyString); simpl; auto.
Qed.

Lemma all_chars_trim (P : ascii -> Prop) (s : string) :
  all_chars P s -> all_chars P (JS.trim s).
Proof. intros H. apply all_chars_trimEnd, all_chars_trimStart, H. Qed.

Lemma all_chars_keep (P : ascii -> Prop) (p : ascii -> bool) (s : string) :
  all_chars P s -> all_chars (fun c => P c /\ p c = true) (keep p s).
Proof.
  induction s as [|c s IH]; simpl; [auto |].
  intros [Hc Hs]. destruct (p c) eqn:E; simpl; auto.
Qed.

Lemma all_chars_collapse (P : ascii -> Prop) (p : ascii -> bool) (s : string) :
  P " "%char -> all_chars P s -> all_chars P (collapse p s).
Proof.
  intros Hspace. induction s as [|c s IH]; simpl; [auto |].
  intros [Hc Hs]. destruct (p c); [destruct (starts_with p s) |]; simpl; auto.
Qed.

(** After the first replacement the only white space left is the space. *)
Lemma collapse_white_space (s : string) :
  all_chars (fun c => JS.is_white_space c = true -> c = " "%char)
            (collapse JS.is_white_space s).
Proof.
  induction s as [|c s IH]; simpl; [auto |].
  destruct (JS.is_white_space c) eqn:E;
    [destruct (starts_with JS.is_white_space s) |]; simpl; auto.
  split; [congruence | exact IH].
Qed.

Lemma cleanText_chars (text : string) : all_chars is_clean (cleanText text).
Proof.
  unfold cleanText. apply all_chars_trim.
  apply (all_chars_impl
           (fun c => (JS.is_white_space c = true -> c = " "%char) /\ is_kept c = true));
    [| apply all_chars_keep, all_chars_collapse;
       [intros _; reflexivity | apply collapse_white_space]].
  intros c [Hspace Hkept]. unfold is_clean.
  unfold is_kept in Hkept.
  destruct (is_word c); [left; reflexivity |].
  destruct (JS.is_white_space c); [right; left; apply Hspace; reflexivity |].
  right. right. exact Hkept.
Qed.

End Cleaning.

(** X13: cleaned text is made of letters, digits, underscores, single
    characters of basic punctuation and spaces only: every other character
    is removed, and every tab, line break or other white space has become a
    space.  It has no leading or trailing space. *)
Theorem cleanText_alphabet (text : string) :
  TextExtraction.all_chars TextExtraction.is_clean (TextExtraction.cleanText text)
  /\ JS.trim (TextExtraction.cleanText text) = TextExtraction.cleanText text.
Proof. split; [apply cleanText_chars | apply trim_idempotent]. Qed.

(** X14: the two tables of file types agree: a type is accepted by
    [isValidFileType] exactly when [getFileExtension] knows its extension,
    which is then [pdf], [docx] or [txt]; so the extension reported for an
    accepted upload is never [unknown]. *)
Theorem accepted_types_have_extensions (mimetype : string) :
  TextExtraction.isValidFileType mimetype = true
  <-> exists extension,
      TextExtraction.getFileExtension mimetype = TextExtraction.Ext extension
      /\ In extension ["pdf"; "docx"; "txt"].
Proof.
  destruct (String.eqb_spec mimetype TextExtraction.pdf_type) as [-> | Hpdf].
  { split; [intros _; exists "pdf"; split; [reflexivity | simpl; auto] | reflexivity]. }
  destruct (String.eqb_spec mimetype TextExtraction.docx_type) as [-> | Hdocx].
  { split; [intros _; exists "docx"; split; [reflexivity | simpl; auto] | reflexivity]. }
  destruct (String.eqb_spec mimetype TextExtraction.plain_type) as [-> | Hplain].
  { split; [intros _; exists "txt"; split; [reflexivity | simpl; auto] | reflexivity]. }
  assert (TextExtraction.isValidFileType mimetype = false) as Hinvalid.
  { unfold TextExtraction.isValidFileType, TextExtraction.allowedTypes.
    unfold existsb.
    rewrite (proj2 (String.eqb_neq mimetype TextExtraction.pdf_type) Hpdf),
      (proj2 (String.eqb_neq mimetype TextExtraction.docx_type) Hdocx),
      (proj2 (String.eqb_neq mimetype TextExtraction.plain_type) Hplain).
    reflexivity. }
  assert (TextExtraction.own TextExtraction.mimeToExt mimetype = None) as Hown.
  { unfold TextExtraction.mimeToExt, TextExtraction.own.
    rewrite (String.eqb_sym TextExtraction.pdf_type),
      (String.eqb_sym TextExtraction.docx_type), (String.eqb_sym TextExtraction.plain_type).
    rewrite (proj2 (String.eqb_neq mimetype TextExtraction.pdf_type) Hpdf),
      (proj2 (String.eqb_neq mimetype TextExtraction.docx_type) Hdocx),
      (proj2 (String.eqb_neq mimetype TextExtraction.plain_type) Hplain).
    reflexivity. }
  rewrite Hinvalid. split; [discriminate |].
  intros [extension [Hext Hin]].
  unfold TextExtraction.getFileExtension in Hext. rewrite Hown in Hext.
  destruct (existsb _ TextExtraction.inherited); [discriminate Hext |].
  injection Hext as <-.
  destruct Hin as [H | [H | [H | []]]]; discriminate H.
Qed.

(** X15: [extractText] succeeds only on the three types [isValidFileType]
    accepts; on any other type, and on any failure of an extractor, it fails
    with the one message [Failed to extract text from document], the cause
    being dropped; plain text is returned as decoded. *)
Theorem extractText_outcomes (Buffer : Type) (utf8 : Buffer -> string)
        (pdfParse : Buffer -> OpenAI.JsError + string)
        (buffer : Buffer) (mimetype : string) :
  (TextExtraction.isValidFileType mimetype = false ->
   TextExtraction.extractText Buffer utf8 pdfParse buffer mimetype
   = inl (OpenAI.Error "Failed to extract text from document"))
  /\ (forall err,
         TextExtraction.extractText Buffer utf8 pdfParse buffer mimetype = inl err ->
         err = OpenAI.Error "Failed to extract text from document")
  /\ TextExtraction.extractText Buffer utf8 pdfParse buffer TextExtraction.plain_type
     = inr (utf8 buffer)
  /\ (forall err,
         pdfParse buffer = inl err ->
         TextExtraction.extractText Buffer utf8 pdfParse buffer TextExtraction.pdf_type
         = inl (OpenAI.Error "Failed to extract text from document")).
Proof.
  split; [| split; [| split]].
  - unfold TextExtraction.isValidFileType, TextExtraction.allowedTypes,
      TextExtraction.extractText. simpl.
    intros H. apply orb_false_elim in H as [H1 H].
    apply orb_false_elim in H as [H2 H]. apply orb_false_elim in H as [H3 _].
    rewrite H1, H2, H3. reflexivity.
  - intros err. unfold TextExtraction.extractText.
    destruct (if String.eqb mimetype TextExtraction.pdf_type then _ else _);
      [intros [= <-]; reflexivity | discriminate].
  - reflexivity.
  - intros err Hpdf. unfold TextExtraction.extractText, TextExtraction.extractPdfText.
    simpl. rewrite Hpdf. reflexivity.
Qed.

Lemma extractText_outcomes_witness :
  TextExtraction.extractText string (fun b => b) (fun b => inr b) "raw bytes" "image/png"
  = inl (OpenAI.Error "Failed to extract text from document").
Proof.
  apply (proj1 (extractText_outcomes string (fun b => b) (fun b => inr b)
                                     "raw bytes" "image/png")).
  reflexivity.
Defined.

(** ** The text runs of a word-processing document *)

Section TextRuns.
Import TextExtraction.

Lemma all_chars_append (P : ascii -> Prop) (a b : string) :
  all_chars P a -> all_chars P b -> all_chars P (a +:+ b).
Proof.
  induction a as [|c a IH]; [auto |].
  rewrite append_cons. simpl. intros [Hc Ha] Hb. auto.
Qed.

Lemma all_chars_join (P : ascii -> Prop) (sep : string) (l : list string) :
  all_chars P sep -> Forall (all_chars P) l -> all_chars P (JS.join sep l).
Proof.
  intros Hsep. induction 1 as [|x l Hx Hl IH]; [exact I |].
  destruct l as [|y l]; [exact Hx |].
  change (JS.join sep (x :: y :: l)) with (x +:+ sep +:+ JS.join sep (y :: l)).
  repeat apply all_chars_append; assumption.
Qed.

Lemma strip_prefix_sound (p s r : string) : strip_prefix p s = Some r -> s = p +:+ r.
Proof.
  revert s. induction p as [|a p IH]; intros s; simpl.
  - intros [= <-]. reflexivity.
  - destruct s as [|b s]; [discriminate |].
    destruct (Ascii.eqb_spec a b) as [<- |]; [| discriminate].
    intros H. rewrite append_cons, <- (IH _ H). reflexivity.
Qed.





Lemma strip_tags_skip (x y : string) :
  strip_tags (x +:+ y) (String.length x) = strip_tags y 0.
Proof.
  induction x as [|c x IH]; [reflexivity |]. rewrite append_cons. exact IH.
Qed.







(** *** Documents made of runs: every run is found *)











End TextRuns.




(** ** Storing, reading back and deleting chunks *)

Section StoredChunks.
Import Types OpenAI Database Records.

Lemma createMany_sound (rows : list EmbeddingRecord) (docs : gmap string DocumentRow) :
  forall table table',
    createMany rows docs table = Some table' ->
    (forall item, In item rows ->
                  table' !! er_id item = Some (to_row item)
                  /\ table !! er_id item = None
                  /\ is_Some (docs !! er_documentId item))
    /\ (forall k, (forall item, In item rows -> er_id item <> k) ->
                  table' !! k = table !! k).
Proof.
  induction rows as [|item rows IH]; intros table table'; simpl.
  - intros [= <-]. split; [intros item [] | reflexivity].
  - destruct (table !! er_id item) eqn:Hfresh; [discriminate |].
    destruct (docs !! er_documentId item) as [d |] eqn:Hdoc; [| discriminate].
    intros Hrest. destruct (IH _ _ Hrest) as [Hin Hout]. split.
    + intros item' [<- | Hitem'].
      * split; [| split; [exact Hfresh | rewrite Hdoc; eauto]].
        rewrite Hout; [apply lookup_insert_eq |].
        intros other Hother Heq. destruct (Hin other Hother) as (_ & Hnone & _).
        rewrite Heq, lookup_insert_eq in Hnone. discriminate Hnone.
      * destruct (Hin item' Hitem') as (Hstored & Hnone & Hdoc').
        split; [exact Hstored |]. split; [| exact Hdoc'].
        destruct (decide (er_id item = er_id item')) as [Heq | Hne].
        -- rewrite <- Heq, lookup_insert_eq in Hnone. discriminate Hnone.
        -- rewrite lookup_insert_ne in Hnone by exact Hne. exact Hnone.
    + intros k Hk. rewrite Hout by (intros other Hother; apply Hk; now right).
      apply lookup_insert_ne. apply Hk. now left.
Qed.

Lemma storeEmbeddingsInDB_sound (embeddings : list EmbeddingRecord) (st st' : State) :
  storeEmbeddingsInDB embeddings st = (inr tt, st') ->
  available st' = true
  /\ documents st' = documents st
  /\ (forall item, In item embeddings ->
                   chunks st' !! er_id item = Some (to_row item)
                   /\ chunks st !! er_id item = None
                   /\ is_Some (documents st !! er_documentId item))
  /\ (forall k, (forall item, In item embeddings -> er_id item <> k) ->
                chunks st' !! k = chunks st !! k).
Proof.
  unfold storeEmbeddingsInDB.
  destruct (available st); [| discriminate].
  destruct (createMany embeddings (documents st) (chunks st)) as [table |] eqn:Hcreate;
    [| discriminate].
  intros [= <-]. simpl.
  destruct (createMany_sound _ _ _ _ Hcreate) as [Hin Hout].
  repeat split; try assumption; apply (Hin item); assumption.
Qed.

Lemma mapM_total {A B : Type} (f : A -> option B) (g : A -> B) (l : list A) :
  (forall x, In x l -> f x = Some (g x)) -> mapM f l = Some (map g l).
Proof.
  induction l as [|x l IH]; intros H; [reflexivity |].
  simpl. rewrite (H x) by now left. simpl.
  rewrite IH by (intros y Hy; apply H; now right). reflexivity.
Qed.

Lemma in_batch_dec (batch : list EmbeddingRecord) (k : string) :
  (exists item, In item batch /\ er_id item = k)
  \/ (forall item, In item batch -> er_id item <> k).
Proof.
  induction batch as [|x batch IH]; [right; intros item [] |].
  destruct (decide (er_id x = k)) as [Heq | Hne].
  - left. exists x. split; [now left | exact Heq].
  - destruct IH as [(item & Hitem & Hid) | Hout].
    + left. exists item. split; [now right | exact Hid].
    + right. intros item [<- | Hitem]; [exact Hne | exact (Hout item Hitem)].
Qed.

Lemma deleted_lookup (documentId k : string) (c : ChunkRow) (table : gmap string ChunkRow) :
  filter (fun kc : string * ChunkRow => Database.documentId (snd kc) <> documentId) table !! k
  = Some c
  <-> table !! k = Some c /\ Database.documentId c <> documentId.
Proof. rewrite map_lookup_filter_Some. reflexivity. Qed.

Lemma no_chunk_of_document (documentId : string) (st : State) :
  available st = true ->
  (forall k c, chunks st !! k = Some c -> Database.documentId c <> documentId) ->
  getChunksByDocumentId documentId st = inr [].
Proof.
  intros Hup Hnone. unfold getChunksByDocumentId. rewrite Hup.
  rewrite filter_nothing; [reflexivity |].
  intros [k c] Hkc. apply list_elem_of_In, elem_of_map_to_list in Hkc.
  unfold of_document. simpl. apply String.eqb_neq. exact (Hnone k c Hkc).
Qed.

End StoredChunks.

(** X17: what [storeEmbeddingsInDB] has stored can be read back.  After a
    successful store every chunk of the batch is in the table under its id,
    with its text, embedding and document, and [getChunksByDocumentId] of
    its document succeeds and returns it with the name of the document; the
    rows under other ids and the documents are untouched. *)
Theorem stored_chunks_are_read_back (embeddings : list Types.EmbeddingRecord)
        (st st' : Database.State) :
  Database.storeEmbeddingsInDB embeddings st = (inr tt, st') ->
  Database.documents st' = Database.documents st
  /\ (forall k, (forall item, In item embeddings -> Types.er_id item <> k) ->
                Database.chunks st' !! k = Database.chunks st !! k)
  /\ (forall item,
         In item embeddings ->
         Database.chunks st' !! Types.er_id item = Some (Database.to_row item)
         /\ exists views d,
             Records.getChunksByDocumentId (Types.er_documentId item) st' = inr views
             /\ Database.documents st !! Types.er_documentId item = Some d
             /\ In {| Records.view_id := Types.er_id item;
                      Records.view_text := Types.er_text item;
                      Records.view_document_name := Database.name d |} views).
Proof.
  intros Hstore.
  destruct (storeEmbeddingsInDB_sound _ _ _ Hstore) as (Hup & Hdocs & Hin & Hout).
  split; [exact Hdocs |]. split; [exact Hout |].
  intros item Hitem. destruct (Hin item Hitem) as (Hstored & _ & [d Hd]).
  split; [exact Hstored |].
  pose (view := fun kc : string * Database.ChunkRow =>
                  {| Records.view_id := fst kc;
                     Records.view_text := Database.text (snd kc);
                     Records.view_document_name := Database.name d |}).
  exists (map view (List.filter (Records.of_document (Types.er_documentId item))
                                (map_to_list (Database.chunks st')))), d.
  split; [| split; [exact Hd |]].
  - unfold Records.getChunksByDocumentId. rewrite Hup.
    rewrite (mapM_total _ view); [reflexivity |].
    intros [k c] Hkc. apply List.filter_In in Hkc as [_ Hdoc].
    unfold Records.of_document in Hdoc. simpl in Hdoc. apply String.eqb_eq in Hdoc.
    simpl. rewrite Hdoc, Hdocs, Hd. reflexivity.
  - apply List.in_map_iff. exists (Types.er_id item, Database.to_row item).
    split; [reflexivity |]. apply List.filter_In. split.
    + apply list_elem_of_In, elem_of_map_to_list. exact Hstored.
    + unfold Records.of_document. simpl. apply String.eqb_refl.
Qed.

Lemma stored_chunks_are_read_back_witness :
  exists st' views,
    Database.storeEmbeddingsInDB [Fixtures.chunk_of_A] (Routes.database Fixtures.outage)
    = (inr tt, st')
    /\ Records.getChunksByDocumentId "d1" st' = inr views
    /\ In {| Records.view_id := "c1"; Records.view_text := "alpha";
             Records.view_document_name := "a.txt" |} views.
Proof.
  destruct (Database.storeEmbeddingsInDB [Fixtures.chunk_of_A]
                                         (Routes.database Fixtures.outage))
    as [[err | []] st'] eqn:E; [vm_compute in E; discriminate E |].
  destruct (stored_chunks_are_read_back _ _ _ E) as (_ & _ & Hitems).
  destruct (Hitems Fixtures.chunk_of_A (or_introl eq_refl))
    as (_ & views & d & Hv & Hd & Hin).
  exists st', views. split; [reflexivity |]. split; [exact Hv |].
  vm_compute in Hd. injection Hd as <-. exact Hin.
Defined.

(** X18: [deleteEmbeddingsByDocumentIdInDB] removes the chunks of the one
    document and nothing else: afterwards [getChunksByDocumentId] finds no
    chunk of it, a chunk is in the table exactly when it was there before and
    belongs to another document, and the documents are untouched.  Deleting
    the chunks of a document right after a batch of them was stored, when the
    document had none before, gives back the table as it was. *)
Theorem deleted_chunks_are_gone (documentId : string) (st st' : Database.State) :
  Records.deleteEmbeddingsByDocumentIdInDB documentId st = (inr tt, st') ->
  Records.getChunksByDocumentId documentId st' = inr []
  /\ Database.documents st' = Database.documents st
  /\ (forall k c, Database.chunks st' !! k = Some c
                  <-> Database.chunks st !! k = Some c
                      /\ Database.documentId c <> documentId)
  /\ (forall embeddings st0,
         Forall (fun item => Types.er_documentId item = documentId) embeddings ->
         (forall k c, Database.chunks st0 !! k = Some c ->
                      Database.documentId c <> documentId) ->
         Database.storeEmbeddingsInDB embeddings st0 = (inr tt, st) ->
         Database.chunks st' = Database.chunks st0).
Proof.
  unfold Records.deleteEmbeddingsByDocumentIdInDB.
  destruct (Database.available st) eqn:Hup; [| discriminate].
  intros [= <-]. simpl.
  split; [| split; [reflexivity | split; [intros k c; apply deleted_lookup |]]].
  - apply no_chunk_of_document; [reflexivity |]. simpl.
    intros k c Hkc. apply deleted_lookup in Hkc. exact (proj2 Hkc).
  - intros embeddings st0 Hall Hnone Hstore.
    destruct (storeEmbeddingsInDB_sound _ _ _ Hstore) as (_ & _ & Hin & Hout).
    apply map_eq. intros k.
    destruct (Database.chunks st0 !! k) as [c |] eqn:Hk.
    + apply deleted_lookup. split; [| exact (Hnone _ _ Hk)].
      rewrite Hout; [exact Hk |].
      intros item Hitem Heq. destruct (Hin item Hitem) as (_ & Hfresh & _).
      rewrite Heq, Hk in Hfresh. discriminate Hfresh.
    + destruct (filter _ (Database.chunks st) !! k) as [c |] eqn:Hf; [| reflexivity].
      exfalso. apply deleted_lookup in Hf as [Hc Hne].
      destruct (in_batch_dec embeddings k) as [(item & Hitem & Hid) | Hout'].
      * destruct (Hin item Hitem) as (Hstored & _).
        rewrite Hid, Hc in Hstored. injection Hstored as ->.
        apply Hne. simpl. exact (proj1 (List.Forall_forall _ _) Hall item Hitem).
      * rewrite (Hout k Hout'), Hk in Hc. discriminate Hc.
Qed.

Lemma deleted_chunks_are_gone_witness :
  exists st',
    Records.deleteEmbeddingsByDocumentIdInDB "d1" Fixtures.library = (inr tt, st')
    /\ Records.getChunksByDocumentId "d1" st' = inr []
    /\ Database.chunks st' !! "c2" = Database.chunks Fixtures.library !! "c2".
Proof.
  destruct (Records.deleteEmbeddingsByDocumentIdInDB "d1" Fixtures.library)
    as [[err | []] st'] eqn:E; [vm_compute in E; discriminate E |].
  destruct (deleted_chunks_are_gone _ _ _ E) as (Hgone & _ & Hkept & _).
  exists st'. split; [reflexivity |]. split; [exact Hgone |].
  destruct (Database.chunks Fixtures.library !! "c2") as [c |] eqn:Hc;
    [| vm_compute in Hc; discriminate Hc].
  apply Hkept. split; [exact Hc |].
  vm_compute in Hc. injection Hc as <-. simpl. discriminate.
Defined.


(** ** Deleting records of the remote index *)

Section RemoteRecords.
Import Types OpenAI Pinecone PineconeAdmin.

(** What an upsert of a batch leaves under a record id: the record of an item
    of the batch, or what was there when no item carries the id. *)
Lemma upsert_lookup (items : list EmbeddingRecord) :
  forall (m : gmap string Stored) k r,
    foldl (fun m v => <[id v := {| stored_values := values v;
                                   stored_metadata := metadata v |}]> m)
          m (map to_vector items) !! k = Some r ->
    (exists item, In item items /\ er_id item = k
                  /\ r = {| stored_values := er_embedding item;
                            stored_metadata := metadata (to_vector item) |})
    \/ ((forall item, In item items -> er_id item <> k) /\ m !! k = Some r).
Proof.
  induction items as [|item items IH]; intros m k r; simpl.
  - intros Hk. right. split; [intros item [] | exact Hk].
  - intros Hk. destruct (IH _ _ _ Hk) as [(x & Hx & Hid & Hr) | [Hout Hm]].
    + left. exists x. split; [now right | split; assumption].
    + apply lookup_insert_Some in Hm as [[Hid Hr] | [Hne Hm]].
      * left. exists item. split; [now left | split; [exact Hid | now rewrite <- Hr]].
      * right. split; [| exact Hm].
        intros x [<- | Hx]; [exact Hne | exact (Hout x Hx)].
Qed.

Lemma upsert_outside (items : list EmbeddingRecord) :
  forall (m : gmap string Stored) k,
    (forall item, In item items -> er_id item <> k) ->
    foldl (fun m v => <[id v := {| stored_values := values v;
                                   stored_metadata := metadata v |}]> m)
          m (map to_vector items) !! k = m !! k.
Proof.
  induction items as [|item items IH]; intros m k Hout; simpl; [reflexivity |].
  rewrite IH by (intros x Hx; apply Hout; now right).
  apply lookup_insert_ne. apply Hout. now left.
Qed.

Lemma upsert_inside (items : list EmbeddingRecord) :
  forall (m : gmap string Stored) k,
    (exists item, In item items /\ er_id item = k) ->
    is_Some (foldl (fun m v => <[id v := {| stored_values := values v;
                                            stored_metadata := metadata v |}]> m)
                   m (map to_vector items) !! k).
Proof.
  induction items as [|x items IH]; intros m k (item & Hitem & Hid); [destruct Hitem |].
  simpl. destruct (in_batch_dec items k) as [Hin | Hout]; [apply IH; exact Hin |].
  destruct Hitem as [-> | Hitem]; [| exfalso; exact (Hout item Hitem Hid)].
  rewrite upsert_outside by exact Hout.
  rewrite <- Hid. simpl. rewrite lookup_insert_eq. eauto.
Qed.

Lemma storeEmbeddings_records env (items : list EmbeddingRecord) (st st1 : State) :
  storeEmbeddings env items st = (inr tt, st1) ->
  records st1
  = foldl (fun m v => <[id v := {| stored_values := values v;
                                   stored_metadata := metadata v |}]> m)
          (records st) (map to_vector items).
Proof.
  unfold storeEmbeddings.
  destruct (ensure_index env st) as [e | st0] eqn:E; [discriminate |].
  unfold upsert. destruct (reachable st0); [| discriminate].
  intros [= <-]. simpl. now rewrite (ensure_index_records _ _ _ E).
Qed.

Lemma deleteMany_lookup (field value : string) (st st2 : State) :
  deleteMany field value st = Some st2 ->
  forall k r, records st2 !! k = Some r
              <-> records st !! k = Some r /\ stored_metadata r !! field <> Some value.
Proof.
  unfold deleteMany. destruct (reachable st); [| discriminate].
  intros [= <-] k r. simpl. rewrite map_lookup_filter_Some. reflexivity.
Qed.

Lemma document_tag (item : EmbeddingRecord) :
  metadata (to_vector item) !! "documentId" = Some (er_documentId item).
Proof.
  unfold to_vector. simpl.
  rewrite lookup_insert_ne by discriminate. apply lookup_insert_eq.
Qed.

End RemoteRecords.

(** X19: deleting by document from the remote index undoes a store of that
    document.  After [storeEmbeddings] of a batch whose chunks all belong to
    one document, a successful [deleteEmbeddingsByDocumentId] of it leaves
    none of the batch's records in the index, while every record that was in
    the index before under another id, tagged with another document or with
    none, is still there, unchanged. *)
Theorem remote_delete_undoes_store env (items : list Types.EmbeddingRecord)
        (documentId : string) (st st1 st2 : Pinecone.State) :
  Forall (fun item => Types.er_documentId item = documentId) items ->
  Pinecone.storeEmbeddings env items st = (inr tt, st1) ->
  PineconeAdmin.deleteEmbeddingsByDocumentId env documentId st1 = (inr tt, st2) ->
  (forall item, In item items -> Pinecone.records st2 !! Types.er_id item = None)
  /\ (forall k r, Pinecone.records st2 !! k = Some r ->
                  Pinecone.records st !! k = Some r
                  /\ Pinecone.stored_metadata r !! "documentId" <> Some documentId)
  /\ (forall k r, Pinecone.records st !! k = Some r ->
                  (forall item, In item items -> Types.er_id item <> k) ->
                  Pinecone.stored_metadata r !! "documentId" <> Some documentId ->
                  Pinecone.records st2 !! k = Some r).
Proof.
  intros Hall Hstore. apply storeEmbeddings_records in Hstore.
  unfold PineconeAdmin.deleteEmbeddingsByDocumentId.
  destruct (Pinecone.ensure_index env st1) as [e | st1'] eqn:E; [discriminate |].
  destruct (PineconeAdmin.deleteMany "documentId" documentId st1') as [st2' |] eqn:D;
    [| discriminate].
  intros [= <-]. pose proof (deleteMany_lookup _ _ _ _ D) as Hdel.
  rewrite (ensure_index_records _ _ _ E), Hstore in Hdel.
  assert (forall k r, Pinecone.records st2' !! k = Some r ->
                      Pinecone.records st !! k = Some r
                      /\ Pinecone.stored_metadata r !! "documentId" <> Some documentId)
    as Hold.
  { intros k r Hk. apply Hdel in Hk as [Hk Htag]. split; [| exact Htag].
    apply upsert_lookup in Hk as [(item & Hitem & _ & ->) | [_ Hk]]; [| exact Hk].
    exfalso. apply Htag. cbn [Pinecone.stored_metadata]. rewrite document_tag. f_equal.
    exact (proj1 (List.Forall_forall _ _) Hall item Hitem). }
  split; [| split; [exact Hold |]].
  - intros item Hitem.
    destruct (Pinecone.records st2' !! Types.er_id item) as [r |] eqn:Hk; [| reflexivity].
    exfalso. apply Hdel in Hk as [Hk Htag].
    apply upsert_lookup in Hk as [(x & Hx & _ & ->) | [Hout _]].
    + apply Htag. cbn [Pinecone.stored_metadata]. rewrite document_tag. f_equal.
      exact (proj1 (List.Forall_forall _ _) Hall x Hx).
    + exact (Hout item Hitem eq_refl).
  - intros k r Hk Hout Htag. apply Hdel. split; [| exact Htag].
    rewrite upsert_outside by exact Hout. exact Hk.
Qed.

Lemma remote_delete_undoes_store_witness :
  exists st1 st2,
    Pinecone.storeEmbeddings Fixtures.configured
                             [{| Types.er_id := "c9"; Types.er_embedding := [0; 1]%float;
                                 Types.er_text := "omega"; Types.er_documentId := "d1" |}]
                             Fixtures.tagged_index = (inr tt, st1)
    /\ PineconeAdmin.deleteEmbeddingsByDocumentId Fixtures.configured "d1" st1 = (inr tt, st2)
    /\ Pinecone.records st2 !! "c9" = None
    /\ is_Some (Pinecone.records st2 !! "c1").
Proof.
  set (item := {| Types.er_id := "c9"; Types.er_embedding := [0; 1]%float;
                  Types.er_text := "omega"; Types.er_documentId := "d1" |}).
  destruct (Pinecone.storeEmbeddings Fixtures.configured [item] Fixtures.tagged_index)
    as [[e | []] st1] eqn:S; [vm_compute in S; discriminate S |].
  destruct (PineconeAdmin.deleteEmbeddingsByDocumentId Fixtures.configured "d1" st1)
    as [[e | []] st2] eqn:D.
  { exfalso. revert D. injection S as <-. vm_compute. discriminate. }
  assert (Forall (fun x => Types.er_documentId x = "d1") [item]) as Hall
    by (constructor; [reflexivity | constructor]).
  destruct (remote_delete_undoes_store _ _ _ _ _ _ Hall S D) as (Hgone & _ & Hkept).
  exists st1, st2. split; [reflexivity |]. split; [exact D |].
  split; [exact (Hgone item (or_introl eq_refl)) |].
  destruct (Pinecone.records Fixtures.tagged_index !! "c1") as [r |] eqn:Hr;
    [| vm_compute in Hr; discriminate Hr].
  exists r. apply Hkept; [exact Hr | |].
  - intros x [<- | []]. discriminate.
  - vm_compute in Hr. injection Hr as <-. vm_compute. discriminate.
Defined.

(** X20: [deleteEmbeddingsByUserId] deletes exactly the records tagged with
    that user, and [storeEmbeddings] writes no such tag: on an index that
    only [storeEmbeddings] has filled, deleting the embeddings of any user
    succeeds and removes nothing. *)
Theorem user_delete_spares_stored_chunks env (items : list Types.EmbeddingRecord)
        (userId : string) (st st1 st2 : Pinecone.State) :
  Pinecone.records st = ∅ ->
  Pinecone.storeEmbeddings env items st = (inr tt, st1) ->
  PineconeAdmin.deleteEmbeddingsByUserId env userId st1 = (inr tt, st2) ->
  Pinecone.records st2 = Pinecone.records st1
  /\ forall item, In item items -> is_Some (Pinecone.records st2 !! Types.er_id item).
Proof.
  intros Hempty Hstore. pose proof (storeEmbeddings_records _ _ _ _ Hstore) as Hrecords.
  unfold PineconeAdmin.deleteEmbeddingsByUserId.
  destruct (Pinecone.ensure_index env st1) as [e | st1'] eqn:E; [discriminate |].
  destruct (PineconeAdmin.deleteMany "userId" userId st1') as [st2' |] eqn:D;
    [| discriminate].
  intros [= <-]. pose proof (deleteMany_lookup _ _ _ _ D) as Hdel.
  rewrite (ensure_index_records _ _ _ E) in Hdel.
  assert (Pinecone.records st2' = Pinecone.records st1) as Hsame.
  { apply map_eq. intros k.
    destruct (Pinecone.records st1 !! k) as [r |] eqn:Hk.
    - apply Hdel. split; [exact Hk |].
      rewrite Hrecords in Hk.
      apply upsert_lookup in Hk as [(item & _ & _ & ->) | [_ Hk]].
      + simpl. unfold Pinecone.to_vector. simpl.
        rewrite !lookup_insert_ne by discriminate. discriminate.
      + rewrite Hempty, lookup_empty in Hk. discriminate Hk.
    - destruct (Pinecone.records st2' !! k) as [r |] eqn:Hk2; [| reflexivity].
      apply Hdel in Hk2 as [Hk2 _]. rewrite Hk in Hk2. discriminate Hk2. }
  split; [exact Hsame |].
  intros item Hitem. rewrite Hsame, Hrecords.
  apply upsert_inside. exists item. split; [exact Hitem | reflexivity].
Qed.

Lemma user_delete_spares_stored_chunks_witness :
  exists st1 st2,
    Pinecone.storeEmbeddings Fixtures.configured [Fixtures.chunk_of_A] Fixtures.fresh_index
    = (inr tt, st1)
    /\ PineconeAdmin.deleteEmbeddingsByUserId Fixtures.configured "A" st1 = (inr tt, st2)
    /\ is_Some (Pinecone.records st2 !! "c1").
Proof.
  destruct (Pinecone.storeEmbeddings Fixtures.configured [Fixtures.chunk_of_A]
                                     Fixtures.fresh_index)
    as [[e | []] st1] eqn:S; [vm_compute in S; discriminate S |].
  destruct (PineconeAdmin.deleteEmbeddingsByUserId Fixtures.configured "A" st1)
    as [[e | []] st2] eqn:D.
  { exfalso. revert D. injection S as <-. vm_compute. discriminate. }
  destruct (user_delete_spares_stored_chunks Fixtures.configured [Fixtures.chunk_of_A] "A"
                                             Fixtures.fresh_index st1 st2 eq_refl S D)
    as [_ Hkept].
  exists st1, st2. split; [reflexivity |]. split; [exact D |].
  exact (Hkept Fixtures.chunk_of_A (or_introl eq_refl)).
Defined.


(** ** POST /api/chat *)

Section ChatRequests.
Import Types OpenAI Routes ChatRoute.

Variable metric : list float -> list float -> float.
Variable toFixed3 : float -> string.
Variable createEmbedding : string -> operation CreateEmbeddingResponse.
Variable createChatCompletion : ChatRequest -> operation ChatCompletion.
Variable newChatId : string.

Lemma query_missing_blank (query : string) :
  query_missing query = true <-> JS.trim query = EmptyString.
Proof.
  unfold query_missing. rewrite orb_true_iff, negb_true_iff, truthy_false, Nat.eqb_eq.
  split.
  - intros [-> | Hlen]; [apply trim_empty |].
    destruct (JS.trim query); [reflexivity | discriminate Hlen].
  - intros ->. now right.
Qed.

(** What the checks of the handler make of the field [query]. *)
Lemma query_of_cases (body : Quiz.json) :
  (query_of body = NoBody /\ Quiz.get body "query" = Quiz.Throws)
  \/ (query_of body = Missing
      /\ (Quiz.get body "query" = Quiz.Undefined
          \/ (exists v, Quiz.get body "query" = Quiz.Value v /\ Quiz.truthy v = false)
          \/ exists q, Quiz.get body "query" = Quiz.Value (Quiz.JStr q)
                       /\ JS.trim q = EmptyString))
  \/ (query_of body = NotAString
      /\ exists v, Quiz.get body "query" = Quiz.Value v /\ Quiz.truthy v = true
                   /\ forall q, v <> Quiz.JStr q)
  \/ (exists q, query_of body = TooLong
                /\ Quiz.get body "query" = Quiz.Value (Quiz.JStr q)
                /\ JS.trim q <> EmptyString /\ 1000 < String.length q)
  \/ (exists q, query_of body = Accepted q
                /\ Quiz.get body "query" = Quiz.Value (Quiz.JStr q)
                /\ JS.trim q <> EmptyString /\ String.length q <= 1000
                /\ query_missing q = false).
Proof.
  unfold query_of.
  destruct (Quiz.get body "query") as [| | v]; [left; auto | right; left; auto |].
  destruct (Quiz.truthy v) eqn:Htruthy; simpl;
    [| right; left; split; [reflexivity | right; left; eauto]].
  destruct v as [| b | n | q | items | fields];
    try (right; right; left; split; [reflexivity |]; eexists;
         split; [reflexivity |]; split; [exact Htruthy | discriminate]).
  destruct (query_missing q) eqn:Hmissing.
  { right. left. split; [reflexivity |]. right. right. exists q.
    split; [reflexivity | now apply query_missing_blank]. }
  assert (JS.trim q <> EmptyString) as Hq.
  { intros Hblank. apply query_missing_blank in Hblank. congruence. }
  unfold query_too_long. destruct (Nat.ltb_spec 1000 (String.length q)).
  - right. right. right. left. exists q. auto.
  - right. right. right. right. exists q. auto.
Qed.

(** The embedding client settles as the deciding invocation of the provider
    does. *)
Lemma generateEmbedding_decisive (query : string) :
  query_missing query = false ->
  exists k,
    Policy.decisive (createEmbedding query) 5 k
    /\ provider_calls (Embedding.generateEmbedding createEmbedding query) = S k
    /\ settled (Embedding.generateEmbedding createEmbedding query)
       = match createEmbedding query k with
         | inr response =>
             match OpenAI.data response with
             | item :: _ =>
                 inr {| embedding := item_embedding item;
                        tokens := default 0 (usage_total_tokens response) |}
             | [] => inl (Error Embedding.no_first_item)
             end
         | inl err => inl (rethrow (Policy.rethrown err) "Failed to generate embedding")
         end.
Proof.
  intros Hq.
  destruct (withRetries_decisive (createEmbedding query) None) as (k & Hk & Hrun).
  exists k. split; [exact Hk |].
  unfold Embedding.generateEmbedding.
  destruct (JS.truthy (JS.trim query)) eqn:Ht.
  - simpl. rewrite Hrun. simpl. split; [reflexivity |]. unfold Policy.settled_by.
    destruct (createEmbedding query k) as [err | response]; [reflexivity |].
    destruct (OpenAI.data response); reflexivity.
  - apply truthy_false in Ht. apply query_missing_blank in Ht. congruence.
Qed.

(** The search step reads: it changes neither the environment, nor the
    database, nor the content of the remote index. *)
Lemma chat_search_reads (queryEmbedding : list float) (userId : string) (w w1 : World) found :
  chat_search metric queryEmbedding userId w = (found, w1) ->
  only_read w w1
  /\ (forall status message,
         found = Respond status message ->
         status = 500 /\ message = "Failed to search knowledge base").
Proof.
  assert (forall (x : World),
             only_read w x ->
             only_read w x
             /\ (forall status message,
                    Respond (T := list VectorSearchResult)
                            500 "Failed to search knowledge base"
                    = Respond status message ->
                    status = 500 /\ message = "Failed to search knowledge base")) as Hfailed.
  { intros x Hx. split; [exact Hx |]. intros s m [= <- <-]. split; reflexivity. }
  assert (forall (x : World) results,
             only_read w x ->
             only_read w x
             /\ (forall status message,
                    Continue (T := list VectorSearchResult) results = Respond status message ->
                    status = 500 /\ message = "Failed to search knowledge base")) as Hfound.
  { intros x results Hx. split; [exact Hx |]. intros s m [=]. }
  unfold chat_search. destruct (search_variant w).
  - unfold Pinecone.searchSimilarEmbeddings.
    destruct (Pinecone.ensure_index (env w) (pinecone w)) as [e | st1] eqn:E.
    + intros [= <- <-]. apply Hfailed. repeat split.
    + pose proof (ensure_index_records _ _ _ E) as Hrec.
      destruct (Pinecone.query metric _ st1); intros [= <- <-];
        [apply Hfound | apply Hfailed]; repeat split; exact Hrec.
  - destruct (Database.searchSimilarEmbeddingsInDB _ _ _ _); intros [= <- <-];
      [apply Hfailed | apply Hfound]; repeat split.
Qed.

(** Steps 3 to 5 answer as the deciding invocation of the completion
    provider does. *)
Lemma chat_answer_decisive (searchResults : list VectorSearchResult) (query : string) :
  let context := context_of searchResults in
  let sent := chat_request (systemPrompt context) query (Some context) in
  let answered := chat_answer toFixed3 createChatCompletion searchResults query in
  references answered = references_of toFixed3 searchResults
  /\ exists k,
      Policy.decisive (createChatCompletion sent) 5 k
      /\ times_sent answered = S k
      /\ answer answered
         = match createChatCompletion sent k with
           | inr reply =>
               match first_choice_content reply with
               | Some content =>
                   if JS.truthy content then Continue (JS.trim content)
                   else Respond 500 "Failed to generate response"
               | None => Respond 500 "Failed to generate response"
               end
           | inl _ => Respond 500 "Failed to generate response"
           end.
Proof.
  intros context sent answered. split; [reflexivity |].
  destruct (generateChatCompletion_decisive
              createChatCompletion (systemPrompt context) query (Some context))
    as (k & Hk & Hcalls & Hsettled).
  exists k. split; [exact Hk |]. split; [exact Hcalls |].
  subst answered. unfold chat_answer. cbn [answer]. fold context. rewrite Hsettled.
  fold sent.
  destruct (createChatCompletion sent k) as [err | reply]; [reflexivity |].
  destruct (first_choice_content reply) as [content |]; [| reflexivity].
  destruct (JS.truthy content); reflexivity.
Qed.

Lemma createChatRecord_effect (id userId query text : string) (c : Chats) :
  (writable c = true /\ rows c !! id = None
   /\ createChatRecord id userId query text c
      = (inr id, {| writable := true;
                    rows := <[id := {| cr_userId := userId; cr_query := query;
                                       cr_answer := text |}]> (rows c) |}))
  \/ ((writable c = false \/ rows c !! id <> None)
      /\ createChatRecord id userId query text c
         = (inl (Error "Failed to create chat record"), c)).
Proof.
  unfold createChatRecord. destruct (writable c); [| right; split; [now left | reflexivity]].
  destruct (rows c !! id) eqn:Hid.
  - right. split; [right; discriminate | reflexivity].
  - left. repeat split.
Qed.

(** The ways a request with an accepted query ends, each with the
    invocations of the providers that decided it. *)
Lemma chat_accepted_cases (userId query : string) (w : World) (c : Chats) :
  query_missing query = false ->
  let o := chat_accepted metric toFixed3 createEmbedding createChatCompletion newChatId
                         userId query w c in
  exists ke,
    Policy.decisive (createEmbedding query) 5 ke
    /\ embedding_calls o = S ke
    /\ (((exists err, createEmbedding query ke = inl err)
         \/ (exists response, createEmbedding query ke = inr response
                              /\ OpenAI.data response = []))
        /\ o = refuse 500 "Failed to process query" w c (S ke) 0
        \/ exists response item others found w1,
            createEmbedding query ke = inr response
            /\ OpenAI.data response = item :: others
            /\ chat_search metric (item_embedding item) userId w = (found, w1)
            /\ only_read w w1
            /\ ((exists status message, found = Respond status message)
                /\ o = refuse 500 "Failed to search knowledge base" w1 c (S ke) 0
                \/ exists searchResults kc,
                    found = Continue searchResults
                    /\ let context := context_of searchResults in
                       let sent := chat_request (systemPrompt context) query (Some context) in
                       Policy.decisive (createChatCompletion sent) 5 kc
                       /\ completion_calls o = S kc
                       /\ ((forall reply content,
                               createChatCompletion sent kc = inr reply ->
                               first_choice_content reply = Some content ->
                               content = EmptyString)
                           /\ o = refuse 500 "Failed to generate response" w1 c (S ke) (S kc)
                           \/ exists reply content,
                               createChatCompletion sent kc = inr reply
                               /\ first_choice_content reply = Some content
                               /\ content <> EmptyString
                               /\ o = {| reply :=
                                           {| status := 200;
                                              message := "Chat processed successfully";
                                              data :=
                                                Some {| res_answer := JS.trim content;
                                                        res_references :=
                                                          references_of toFixed3 searchResults;
                                                        res_chatId :=
                                                          match fst (createChatRecord
                                                                       newChatId userId query
                                                                       (JS.trim content) c) with
                                                          | inr id =>
                                                              if JS.truthy id then id
                                                              else "unknown"
                                                          | inl _ => "unknown"
                                                          end |} |};
                                         world := w1;
                                         chats := snd (createChatRecord
                                                         newChatId userId query
                                                         (JS.trim content) c);
                                         embedding_calls := S ke;
                                         completion_calls := S kc |}))).
Proof.
  intros Hq o. subst o. unfold chat_accepted.
  destruct (generateEmbedding_decisive query Hq) as (ke & Hke & -> & ->).
  exists ke. split; [exact Hke |].
  destruct (createEmbedding query ke) as [err | response] eqn:Hembed.
  { split; [reflexivity |]. left. split; [left; eauto | reflexivity]. }
  destruct (OpenAI.data response) as [|item others] eqn:Hdata.
  { split; [reflexivity |]. left. split; [right; eauto | reflexivity]. }
  cbn [embedding].
  destruct (chat_search metric (item_embedding item) userId w) as [found w1] eqn:Hsearch.
  destruct (chat_search_reads _ _ _ _ _ Hsearch) as [Hread Hfail].
  destruct found as [searchResults | s m].
  2: { destruct (Hfail s m eq_refl) as [-> ->].
       split; [reflexivity |]. right. exists response, item, others. do 2 eexists.
       split; [reflexivity |]. split; [exact Hdata |]. split; [exact Hsearch |].
       split; [exact Hread |]. left. split; [eauto | reflexivity]. }
  destruct (chat_answer_decisive searchResults query) as (-> & kc & Hkc & -> & ->).
  cbv zeta.
  set (context := context_of searchResults) in *.
  set (sent := chat_request (systemPrompt context) query (Some context)) in *.
  destruct (createChatCompletion sent kc) as [err | completion] eqn:Hcompletion.
  { split; [reflexivity |]. right. exists response, item, others. do 2 eexists.
    split; [reflexivity |]. split; [exact Hdata |]. split; [exact Hsearch |].
    split; [exact Hread |]. right. exists searchResults, kc.
    split; [reflexivity |]. split; [exact Hkc |]. split; [reflexivity |].
    left. split; [| reflexivity].
    intros r ct Hr. change (createChatCompletion sent kc = inr r) in Hr. congruence. }
  destruct (first_choice_content completion) as [content |] eqn:Hcontent.
  2: { split; [reflexivity |]. right. exists response, item, others. do 2 eexists.
       split; [reflexivity |]. split; [exact Hdata |]. split; [exact Hsearch |].
       split; [exact Hread |]. right. exists searchResults, kc.
       split; [reflexivity |]. split; [exact Hkc |]. split; [reflexivity |].
       left. split; [| reflexivity].
       intros r ct Hr Hct. change (createChatCompletion sent kc = inr r) in Hr.
       rewrite Hcompletion in Hr. injection Hr as <-.
       rewrite Hcontent in Hct. discriminate Hct. }
  destruct (JS.truthy content) eqn:Htruthy.
  2: { split; [reflexivity |]. right. exists response, item, others. do 2 eexists.
       split; [reflexivity |]. split; [exact Hdata |]. split; [exact Hsearch |].
       split; [exact Hread |]. right. exists searchResults, kc.
       split; [reflexivity |]. split; [exact Hkc |]. split; [reflexivity |].
       left. split; [| reflexivity].
       intros r ct Hr Hct. change (createChatCompletion sent kc = inr r) in Hr.
       rewrite Hcompletion in Hr. injection Hr as <-.
       rewrite Hcontent in Hct. injection Hct as <-.
       now apply truthy_false. }
  split; [reflexivity |]. right. exists response, item, others. do 2 eexists.
  split; [reflexivity |]. split; [exact Hdata |]. split; [exact Hsearch |].
  split; [exact Hread |]. right. exists searchResults, kc.
  split; [reflexivity |]. split; [exact Hkc |]. split; [reflexivity |].
  right. exists completion, content. split; [exact Hcompletion |]. split; [exact Hcontent |].
  split; [now apply truthy_true | reflexivity].
Qed.

End ChatRequests.

Section ChatOutcomes.
Import Types OpenAI Routes ChatRoute.

Variable metric : list float -> list float -> float.
Variable toFixed3 : float -> string.
Variable createEmbedding : string -> operation CreateEmbeddingResponse.
Variable createChatCompletion : ChatRequest -> operation ChatCompletion.
Variable newChatId : string.
Variable jwt_verify : string -> string -> option string.


(** The ways the handler ends. *)
Lemma chat_cases (user : option string) (body : Quiz.json) (w : World) (c : Chats) :
  let o := chat metric toFixed3 createEmbedding createChatCompletion newChatId
                user body w c in
  (user = None /\ o = refuse 401 "User not authenticated" w c 0 0)
  \/ (user <> None
      /\ (query_of body = NoBody \/ query_of body = NotAString)
      /\ o = refuse 500 "Internal server error during chat processing" w c 0 0)
  \/ (user <> None /\ query_of body = Missing
      /\ o = refuse 400 "Query is required" w c 0 0)
  \/ (user <> None /\ query_of body = TooLong
      /\ o = refuse 400 "Query is too long. Maximum 1000 characters." w c 0 0)
  \/ (exists userId query,
         user = Some userId /\ query_of body = Accepted query
         /\ o = chat_accepted metric toFixed3 createEmbedding createChatCompletion newChatId
                              userId query w c).
Proof.
  unfold chat. destruct user as [userId |]; [| left; auto].
  right. destruct (query_of body) as [| | | | query].
  - left. split; [discriminate | auto].
  - right. left. split; [discriminate | auto].
  - left. split; [discriminate | auto].
  - right. right. left. split; [discriminate | auto].
  - right. right. right. eauto.
Qed.


End ChatOutcomes.


(** X22: the chat route only reads the stores.  Whatever the request and
    whatever the providers and the stores do, the handler and the route in
    front of it leave the environment, the database of documents and chunks
    and the content of the remote index as they were; a reply other than 200
    carries no data and writes no chat record; and the table of chats changes
    at most under the identifier drawn for this request, never under one that
    is already taken. *)
Theorem chat_only_reads_the_stores
        (metric : list float -> list float -> float) (toFixed3 : float -> string)
        (createEmbedding : string -> OpenAI.operation OpenAI.CreateEmbeddingResponse)
        (createChatCompletion : OpenAI.ChatRequest -> OpenAI.operation OpenAI.ChatCompletion)
        (newChatId : string) (jwt_verify : string -> string -> option string)
        (user authorization : option string) (body : Quiz.json)
        (w : Routes.World) (c : ChatRoute.Chats) :
  let keeps (o : ChatRoute.Outcome) :=
    Routes.env (ChatRoute.world o) = Routes.env w
    /\ Routes.database (ChatRoute.world o) = Routes.database w
    /\ Pinecone.records (Routes.pinecone (ChatRoute.world o))
       = Pinecone.records (Routes.pinecone w)
    /\ (ChatRoute.status (ChatRoute.reply o) <> 200 ->
        ChatRoute.chats o = c /\ ChatRoute.data (ChatRoute.reply o) = None)
    /\ (forall k row, ChatRoute.rows c !! k = Some row ->
                      ChatRoute.rows (ChatRoute.chats o) !! k = Some row)
    /\ (forall k, k <> newChatId ->
                  ChatRoute.rows (ChatRoute.chats o) !! k = ChatRoute.rows c !! k) in
  keeps (ChatRoute.chat metric toFixed3 createEmbedding createChatCompletion newChatId
                        user body w c)
  /\ keeps (ChatRoute.chat_route metric toFixed3 createEmbedding createChatCompletion
                                 newChatId jwt_verify authorization body w c).
Proof.
  intros keeps.
  assert (forall status message n k, keeps (ChatRoute.refuse status message w c n k))
    as Hrefuse by (intros; repeat split; trivial).
  assert (forall user', keeps (ChatRoute.chat metric toFixed3 createEmbedding
                                              createChatCompletion newChatId user' body w c))
    as Hhandler.
  { intros user'.
    destruct (chat_cases metric toFixed3 createEmbedding createChatCompletion newChatId
                         user' body w c)
      as [[_ ->] | [(_ & _ & ->) | [(_ & _ & ->) | [(_ & _ & ->)
          | (u & q & _ & Hquery & ->)]]]]; try apply Hrefuse.
    assert (ChatRoute.query_missing q = false) as Hmissing.
    { destruct (query_of_cases body)
        as [[Hq _] | [[Hq _] | [[Hq _] | [(q' & Hq & _) | (q' & Hq & _ & _ & _ & Hm)]]]];
        rewrite Hq in Hquery; try discriminate Hquery.
      injection Hquery as ->. exact Hm. }
    destruct (chat_accepted_cases metric toFixed3 createEmbedding createChatCompletion
                                  newChatId u q w c Hmissing)
      as (ke & _ & _ & [[_ ->] | (response & item & others & found & w1 & _ & _ & _
                                   & (Henv & Hdb & Hrec)
                                   & [[_ ->] | (results & kc & _ & _ & _
                                                & [[_ ->] | (reply & content & _ & _ & _
                                                             & ->)])])]);
      try apply Hrefuse;
      try (repeat split; trivial; fail).
    split; [exact Henv |]. split; [exact Hdb |]. split; [exact Hrec |].
    split; [intros Hstatus; now contradiction Hstatus |].
    cbn [ChatRoute.chats].
    destruct (createChatRecord_effect newChatId u q (JS.trim content) c)
      as [(_ & Hfree & ->) | [_ ->]]; simpl; [| split; trivial].
    split.
    - intros k' row Hrow. rewrite lookup_insert_ne; [exact Hrow |].
      intros <-. rewrite Hfree in Hrow. discriminate Hrow.
    - intros k' Hk'. apply lookup_insert_ne. congruence. }
  split; [apply Hhandler |].
  unfold ChatRoute.chat_route.
  destruct (Auth.verifyJWT jwt_verify (Routes.env w) authorization) as [status message | userId];
    [apply Hrefuse | apply Hhandler].
Qed.




(** ** DELETE /api/upload/documents/:id *)

Section DocumentDeletion.
Import Types OpenAI Routes DocumentRoute.

(** The vector-store step leaves the documents alone and never makes the
    database unavailable; without a configured remote index it leaves that
    index alone, with one it leaves the chunks alone. *)
Lemma delete_embeddings_database (documentId : string) (w : World) :
  Database.available (database w) = true ->
  Database.available (database (delete_embeddings documentId w)) = true
  /\ Database.documents (database (delete_embeddings documentId w))
     = Database.documents (database w)
  /\ (forall k c,
         Database.chunks (database (delete_embeddings documentId w)) !! k = Some c
         /\ Database.documentId c <> documentId
         <-> Database.chunks (database w) !! k = Some c
             /\ Database.documentId c <> documentId).
Proof.
  intros Hup. unfold delete_embeddings.
  destruct (env_truthy (env w) "PINECONE_API_KEY"); simpl.
  - repeat split; tauto.
  - unfold Records.deleteEmbeddingsByDocumentIdInDB. rewrite Hup. simpl.
    split; [reflexivity |]. split; [reflexivity |].
    intros k c. rewrite deleted_lookup. tauto.
Qed.

Lemma delete_embeddings_remote (documentId : string) (w : World) :
  (env_truthy (env w) "PINECONE_API_KEY" = false ->
   pinecone (delete_embeddings documentId w) = pinecone w)
  /\ (Pinecone.reachable (pinecone w) = false ->
      Pinecone.records (pinecone (delete_embeddings documentId w))
      = Pinecone.records (pinecone w))
  /\ (env_truthy (env w) "PINECONE_API_KEY" = true ->
      Pinecone.reachable (pinecone w) = true ->
      forall k r,
        Pinecone.records (pinecone (delete_embeddings documentId w)) !! k = Some r
        <-> Pinecone.records (pinecone w) !! k = Some r
            /\ Pinecone.stored_metadata r !! "documentId" <> Some documentId).
Proof.
  unfold delete_embeddings.
  destruct (env_truthy (env w) "PINECONE_API_KEY") eqn:Hkey; simpl.
  - split; [discriminate |].
    unfold PineconeAdmin.deleteEmbeddingsByDocumentId.
    destruct (Pinecone.ensure_index (env w) (pinecone w)) as [e | st1] eqn:E.
    { exfalso. revert E. unfold Pinecone.ensure_index, Pinecone.initializePinecone.
      rewrite Hkey. destruct (Pinecone.handle (pinecone w)); discriminate. }
    assert (Pinecone.reachable st1 = Pinecone.reachable (pinecone w)) as Hreach.
    { revert E. unfold Pinecone.ensure_index, Pinecone.initializePinecone.
      rewrite Hkey. destruct (Pinecone.handle (pinecone w)); intros [= <-]; reflexivity. }
    pose proof (ensure_index_records _ _ _ E) as Hrec.
    destruct (PineconeAdmin.deleteMany "documentId" documentId st1) as [st2 |] eqn:D; simpl.
    + split.
      * intros Hdown. revert D. unfold PineconeAdmin.deleteMany.
        rewrite Hreach, Hdown. discriminate.
      * intros _ _ k r. rewrite (deleteMany_lookup _ _ _ _ D), Hrec. reflexivity.
    + split; [intros _; exact Hrec |].
      intros _ Hup. revert D. unfold PineconeAdmin.deleteMany.
      rewrite Hreach, Hup. discriminate.
  - split; [reflexivity |]. split; [reflexivity | discriminate].
Qed.

End DocumentDeletion.

(** X24: only the owner deletes a document.  When the document does not
    exist or belongs to somebody else, the route answers 404 and changes
    nothing, in the database or in the remote index; when no user is attached
    it answers 401, and when the database cannot be reached 500, again
    changing nothing. *)
Theorem delete_document_requires_owner (user : option string) (documentId : string)
        (w : Routes.World) :
  (forall userId d, user = Some userId ->
                    Database.documents (Routes.database w) !! documentId = Some d ->
                    Database.userId d <> userId) ->
  exists status message,
    DocumentRoute.delete_document user documentId w = (status, message, w)
    /\ (status = 401 <-> user = None)
    /\ (status = 500 <-> user <> None /\ Database.available (Routes.database w) = false)
    /\ (status = 404 <-> user <> None /\ Database.available (Routes.database w) = true).
Proof.
  intros Hother. unfold DocumentRoute.delete_document, Records.findDocument.
  destruct user as [userId |].
  2: { do 2 eexists. split; [reflexivity |]. repeat split; intros; try discriminate; tauto. }
  destruct (Database.available (Routes.database w)).
  2: { do 2 eexists. split; [reflexivity |].
       repeat split; intros; try discriminate; intuition discriminate. }
  destruct (Database.documents (Routes.database w) !! documentId) as [d |] eqn:Hd.
  - destruct (String.eqb_spec (Database.userId d) userId) as [Hown | _].
    + exfalso. exact (Hother userId d eq_refl eq_refl Hown).
    + do 2 eexists. split; [reflexivity |].
      repeat split; intros; try discriminate; intuition discriminate.
  - do 2 eexists. split; [reflexivity |].
    repeat split; intros; try discriminate; intuition discriminate.
Qed.

Lemma delete_document_requires_owner_witness :
  DocumentRoute.delete_document (Some "B") "d1" Scenarios.relational_world
  = (404, "Document not found or access denied", Scenarios.relational_world).
Proof.
  assert (forall userId d,
             Some "B" = Some userId ->
             Database.documents (Routes.database Scenarios.relational_world) !! "d1" = Some d ->
             Database.userId d <> userId) as Hother.
  { intros userId d [= <-] Hd. vm_compute in Hd. injection Hd as <-. discriminate. }
  destruct (delete_document_requires_owner (Some "B") "d1" Scenarios.relational_world Hother)
    as (status & message & Hrun & _).
  rewrite Hrun. revert Hrun. vm_compute. intros [= <- <-]. reflexivity.
Defined.

(** X25: what the owner's deletion removes.  With the database available,
    the owner of a document gets 200, and afterwards the document is gone,
    [getChunksByDocumentId] finds no chunk of it, and the other documents and
    their chunks are as before, whether or not a remote index is configured:
    the chunks go with the document.  The remote index is touched only when it
    is configured; when it is and does not answer, the reply is still 200 and
    the records of the document stay in the index. *)
Theorem delete_document_removes_rows (userId documentId : string) (w : Routes.World)
        (d : Database.DocumentRow) :
  Database.available (Routes.database w) = true ->
  Database.documents (Routes.database w) !! documentId = Some d ->
  Database.userId d = userId ->
  exists w',
    DocumentRoute.delete_document (Some userId) documentId w
    = (200, "Document deleted successfully", w')
    /\ Database.documents (Routes.database w') = delete documentId
                                                        (Database.documents (Routes.database w))
    /\ Records.getChunksByDocumentId documentId (Routes.database w') = inr []
    /\ (forall k c, Database.chunks (Routes.database w') !! k = Some c
                    <-> Database.chunks (Routes.database w) !! k = Some c
                        /\ Database.documentId c <> documentId)
    /\ (Types.env_truthy (Routes.env w) "PINECONE_API_KEY" = false ->
        Routes.pinecone w' = Routes.pinecone w)
    /\ (Pinecone.reachable (Routes.pinecone w) = false ->
        Pinecone.records (Routes.pinecone w') = Pinecone.records (Routes.pinecone w))
    /\ (Types.env_truthy (Routes.env w) "PINECONE_API_KEY" = true ->
        Pinecone.reachable (Routes.pinecone w) = true ->
        forall k r,
          Pinecone.records (Routes.pinecone w') !! k = Some r
          <-> Pinecone.records (Routes.pinecone w) !! k = Some r
              /\ Pinecone.stored_metadata r !! "documentId" <> Some documentId).
Proof.
  intros Hup Hd Hown. unfold DocumentRoute.delete_document, Records.findDocument.
  rewrite Hup, Hd. rewrite <- Hown, String.eqb_refl.
  destruct (delete_embeddings_database documentId w Hup) as (Hup1 & Hdocs1 & Hchunks1).
  destruct (delete_embeddings_remote documentId w) as (Hnone & Hdown & Hremote).
  unfold Records.deleteDocument. rewrite Hup1, Hdocs1, Hd.
  eexists. split; [reflexivity |]. simpl.
  split; [reflexivity |].
  assert (forall k c,
             filter (fun kc : string * Database.ChunkRow =>
                       Database.documentId (snd kc) <> documentId)
                    (Database.chunks (Routes.database
                                        (DocumentRoute.delete_embeddings documentId w)))
             !! k = Some c
             <-> Database.chunks (Routes.database w) !! k = Some c
                 /\ Database.documentId c <> documentId) as Hchunks.
  { intros k c. rewrite deleted_lookup. apply Hchunks1. }
  split; [| split; [exact Hchunks | split; [exact Hnone | split; [exact Hdown | exact Hremote]]]].
  apply no_chunk_of_document; [reflexivity |]. simpl.
  intros k c Hk. apply Hchunks in Hk. exact (proj2 Hk).
Qed.

Lemma delete_document_removes_rows_witness :
  exists w',
    DocumentRoute.delete_document (Some "A") "d1" Scenarios.remote_outage
    = (200, "Document deleted successfully", w')
    /\ Records.getChunksByDocumentId "d1" (Routes.database w') = inr []
    /\ Pinecone.records (Routes.pinecone w') = Pinecone.records Fixtures.tagged_index.
Proof.
  destruct (delete_document_removes_rows
              "A" "d1" Scenarios.remote_outage
              {| Database.name := "a.txt"; Database.userId := "A" |}
              eq_refl eq_refl eq_refl)
    as (w' & Hrun & _ & Hgone & _ & _ & Hdown & _).
  exists w'. split; [exact Hrun |]. split; [exact Hgone |].
  exact (Hdown eq_refl).
Defined.


(** ** POST /api/upload: from the file to the embeddings *)

Section UploadedText.
Import Types OpenAI Routes TextProcessing TextExtraction UploadRoute.

Lemma all_chars_append_inv (P : ascii -> Prop) (a b : string) :
  all_chars P (a +:+ b) -> all_chars P a /\ all_chars P b.
Proof.
  induction a as [|c a IH]; [intros H; split; [exact I | exact H] |].
  rewrite append_cons. simpl. intros [Hc H]. destruct (IH H). auto.
Qed.

Lemma all_chars_join_inv (P : ascii -> Prop) (sep : string) (l : list string) :
  all_chars P (JS.join sep l) -> Forall (all_chars P) l.
Proof.
  induction l as [|x l IH]; [constructor |].
  destruct l as [|y l]; [intros H; constructor; [exact H | constructor] |].
  change (JS.join sep (x :: y :: l)) with (x +:+ sep +:+ JS.join sep (y :: l)).
  intros H. apply all_chars_append_inv in H as [Hx H].
  apply all_chars_append_inv in H as [_ H]. constructor; [exact Hx | exact (IH H)].
Qed.

(** No piece of a split holds a terminal character. *)
Lemma split_terminals_chars (P : ascii -> Prop) (s : string) :
  all_chars P s ->
  Forall (all_chars (fun c => P c /\ JS.is_terminal c = false)) (JS.split_terminals s).
Proof.
  induction s as [|c s IH]; simpl; [intros _; constructor; [exact I | constructor] |].
  intros [Hc Hs]. specialize (IH Hs).
  destruct (JS.is_terminal c) eqn:Hterminal.
  - destruct (JS.starts_with_terminal s); [exact IH | constructor; [exact I | exact IH]].
  - destruct (JS.split_terminals s) as [|p ps]; [repeat constructor; assumption |].
    apply Forall_cons in IH as [Hp Hps].
    constructor; [simpl; auto | exact Hps].
Qed.

Lemma chunk_chars (text : string) (maxTokens : Q) :
  all_chars is_clean text ->
  Forall (all_chars is_chunk_char) (splitTextIntoChunks text maxTokens).
Proof.
  intros Hclean. apply (all_chars_join_inv _ ". ").
  unfold splitTextIntoChunks. rewrite chunk_sentences_pieces.
  destruct (content_invariant_holds maxTokens (sentences_of text))
    as (_ & _ & _ & -> & _).
  rewrite spoken_sentences_of.
  apply all_chars_join; [simpl; unfold is_chunk_char; auto 10 |].
  apply List.Forall_map. unfold sentences_of.
  apply List.Forall_forall. intros s Hs. apply List.filter_In in Hs as [Hs _].
  apply all_chars_trim.
  pose proof (split_terminals_chars _ _ Hclean) as Hpieces.
  apply (all_chars_impl (fun c => is_clean c /\ JS.is_terminal c = false));
    [| exact (proj1 (List.Forall_forall _ _) Hpieces s Hs)].
  intros c [[Hword | [Hspace | Hpunct]] Hterminal]; unfold is_chunk_char; auto.
  revert Hpunct Hterminal. unfold is_basic_punctuation, JS.is_terminal.
  destruct (Ascii.eqb_spec c ","); [auto |].
  destruct (Ascii.eqb_spec c "-"); [auto 10 |].
  destruct (Ascii.eqb c "."), (Ascii.eqb c "!"), (Ascii.eqb c "?"); simpl; discriminate.
Qed.

End UploadedText.

(** X26: what the upload route hands to the embedding provider.  When
    steps 1 to 3 go through, the file is of an accepted type, there is at
    least one chunk, and every chunk is trimmed, not empty and made only of
    word characters, spaces, commas, hyphens and full stops: every question
    mark and exclamation mark of the document has become the full stop of a
    joiner or is gone.  [generateEmbeddings] therefore drops none of the
    chunks, and joining the chunks gives the sentences of the cleaned text. *)
Theorem upload_chunks_alphabet (Buffer : Type) (utf8 : Buffer -> string)
        (pdfParse : Buffer -> OpenAI.JsError + string) (buffer : Buffer)
        (mimetype cleanedText : string) (textChunks : list string) :
  UploadRoute.upload_text Buffer utf8 pdfParse buffer mimetype
  = Routes.Continue (cleanedText, textChunks) ->
  TextExtraction.isValidFileType mimetype = true
  /\ textChunks <> []
  /\ Forall (fun chunk => TextExtraction.all_chars UploadRoute.is_chunk_char chunk
                          /\ JS.trim chunk = chunk /\ chunk <> EmptyString)
            textChunks
  /\ List.filter OpenAI.is_valid_text textChunks = textChunks
  /\ JS.join ". " textChunks
     = JS.join ". " (map JS.trim (TextProcessing.sentences_of cleanedText)).
Proof.
  unfold UploadRoute.upload_text.
  destruct (TextExtraction.extractText Buffer utf8 pdfParse buffer mimetype)
    as [e | extractedText] eqn:Hextract; [discriminate |].
  destruct (negb (JS.truthy (JS.trim extractedText))); [discriminate |].
  destruct (TextProcessing.splitTextIntoChunks (TextExtraction.cleanText extractedText) 500)
    as [|chunk rest] eqn:Hchunks; [discriminate |].
  intros [= <- <-]. rewrite <- Hchunks.
  split; [| split; [rewrite Hchunks; discriminate |]].
  { revert Hextract. unfold TextExtraction.extractText, TextExtraction.isValidFileType,
                       TextExtraction.allowedTypes, existsb.
    destruct (String.eqb mimetype TextExtraction.pdf_type); [reflexivity |].
    destruct (String.eqb mimetype TextExtraction.docx_type); [reflexivity |].
    destruct (String.eqb mimetype TextExtraction.plain_type); [reflexivity | discriminate]. }
  pose proof (chunk_chars _ 500 (cleanText_chars extractedText)) as Hchars.
  unfold TextProcessing.splitTextIntoChunks in *.
  rewrite chunk_sentences_pieces in *. rewrite <- spoken_sentences_of.
  destruct (content_invariant_holds 500 (TextProcessing.sentences_of
                                           (TextExtraction.cleanText extractedText)))
    as (Htidy & _ & _ & Hjoin & _).
  split; [| split; [| exact Hjoin]].
  - apply List.Forall_forall. intros c Hc. split.
    + exact (proj1 (List.Forall_forall _ _) Hchars c Hc).
    + exact (proj1 (List.Forall_forall _ _) Htidy c Hc).
  - rewrite <- chunk_sentences_pieces. apply filter_valid_all.
    apply (chunks_are_valid_texts (TextExtraction.cleanText extractedText) 500).
Qed.


Lemma upload_chunks_alphabet_witness :
  UploadRoute.upload_text string (fun b => b) (fun _ => inl (OpenAI.Error "not a PDF"))
                          "Is it so? Yes! It  is." TextExtraction.plain_type
  = Routes.Continue ("Is it so? Yes! It is.", ["Is it so. Yes. It is"])
  /\ List.filter OpenAI.is_valid_text ["Is it so. Yes. It is"] = ["Is it so. Yes. It is"].
Proof.
  assert (UploadRoute.upload_text string (fun b => b)
                                  (fun _ => inl (OpenAI.Error "not a PDF"))
                                  "Is it so? Yes! It  is." TextExtraction.plain_type
          = Routes.Continue ("Is it so? Yes! It is.", ["Is it so. Yes. It is"])) as Hrun
      by (vm_compute; reflexivity).
  split; [exact Hrun |].
  exact (proj1 (proj2 (proj2 (proj2 (upload_chunks_alphabet _ _ _ _ _ _ _ Hrun))))).
Defined.

(** X27: a failed embedding step leaves an empty document behind.  The
    document record is created before the chunks are embedded and nothing
    removes it afterwards: when the record can be created and the embedding
    fails, the reply is 500, the new document is in the database under the
    user's name with no chunk, and the chunks and the remote index are as they
    were. *)
Theorem failed_embedding_leaves_empty_document
        (createEmbeddings : list string -> OpenAI.operation OpenAI.CreateEmbeddingResponse)
        (randomUUID : nat -> string) (newDocumentId userId originalname : string)
        (textChunks : list string) (w : Routes.World) (err : OpenAI.JsError) :
  Database.available (Routes.database w) = true ->
  Database.documents (Routes.database w) !! newDocumentId = None ->
  (forall k c, Database.chunks (Routes.database w) !! k = Some c ->
               Database.documentId c <> newDocumentId) ->
  OpenAI.settled (OpenAI.generateEmbeddings createEmbeddings textChunks) = inl err ->
  exists w',
    UploadRoute.upload_document createEmbeddings randomUUID newDocumentId
                                userId originalname textChunks w
    = (Routes.Respond 500 "Failed to generate embeddings", w')
    /\ Database.documents (Routes.database w') !! newDocumentId
       = Some {| Database.name := originalname; Database.userId := userId |}
    /\ Records.getChunksByDocumentId newDocumentId (Routes.database w') = inr []
    /\ Database.chunks (Routes.database w') = Database.chunks (Routes.database w)
    /\ Routes.pinecone w' = Routes.pinecone w.
Proof.
  intros Hup Hfresh Hnone Hfail.
  unfold UploadRoute.upload_document, Records.createDocument.
  rewrite Hup, Hfresh. unfold Routes.upload_embeddings. rewrite Hfail.
  destruct (generateEmbeddings_failure _ _ _ Hfail) as [-> ->]. simpl.
  eexists. split; [reflexivity |]. simpl.
  split; [apply lookup_insert_eq |]. split; [| split; reflexivity].
  apply no_chunk_of_document; [reflexivity | exact Hnone].
Qed.

Lemma failed_embedding_leaves_empty_document_witness :
  exists w',
    UploadRoute.upload_document (fun _ => Policy.scripted [] (inl Fixtures.quota_error))
                                Fixtures.uuid "d9" "A" "notes.txt" ["a chunk"]
                                Scenarios.relational_world
    = (Routes.Respond 500 "Failed to generate embeddings", w')
    /\ Database.documents (Routes.database w') !! "d9"
       = Some {| Database.name := "notes.txt"; Database.userId := "A" |}
    /\ Records.getChunksByDocumentId "d9" (Routes.database w') = inr [].
Proof.
  assert (forall k c,
             Database.chunks (Routes.database Scenarios.relational_world) !! k = Some c ->
             Database.documentId c <> "d9") as Hnone.
  { apply (bool_decide_unpack
             (map_Forall (fun _ c => Database.documentId c <> "d9")
                         (Database.chunks (Routes.database Scenarios.relational_world)))).
    vm_compute. reflexivity. }
  assert (Database.available (Routes.database Scenarios.relational_world) = true) as Hup
      by reflexivity.
  assert (Database.documents (Routes.database Scenarios.relational_world) !! "d9" = None)
    as Hfresh by (vm_compute; reflexivity).
  assert (OpenAI.settled
            (OpenAI.generateEmbeddings (fun _ => Policy.scripted [] (inl Fixtures.quota_error))
                                       ["a chunk"])
          = inl (OpenAI.rethrow OpenAI.QuotaExceededError "Failed to generate embeddings"))
    as Hfail by (vm_compute; reflexivity).
  destruct (failed_embedding_leaves_empty_document
              (fun _ => Policy.scripted [] (inl Fixtures.quota_error)) Fixtures.uuid
              "d9" "A" "notes.txt" ["a chunk"] Scenarios.relational_world
              (OpenAI.rethrow OpenAI.QuotaExceededError "Failed to generate embeddings")
              Hup Hfresh Hnone Hfail)
    as (w' & Hrun & Hdoc & Hchunks & _).
  exists w'. split; [exact Hrun |]. split; [exact Hdoc | exact Hchunks].
Defined.


(** ** POST /api/quiz *)

Section QuizRequests.
Import Types OpenAI Routes Quiz QuizRoute.

Variable createChatCompletion : ChatRequest -> operation ChatCompletion.
Variable JSON_parse : string -> option json.
Variable Number_toString : Q -> string.






End QuizRequests.




(** ** POST /api/quiz/validate *)

Section QuizScoring.
Import Types OpenAI Routes Quiz QuizRoute.





End QuizScoring.





(** ** The relational search: where its results come from *)

Section RelationalResults.
Import Types OpenAI Database.





End RelationalResults.


